(** * Pressboxd: the catalog and engagement store of [db.py]

    A shallow embedding of the data layer of the Pressboxd web
    application (shows, ratings, reviews, review votes, roles) and of the
    SQL statements it sends to SQLite, with the properties of the
    aggregation and ranking layer proved over it.

    Conventions of the embedding:
    - a table is the list of its rows, in insertion (rowid) order;
    - a Python [int] is a [Z]; a Python [str] is a [string] whose
      characters are the code points below 256;
    - a SQL [REAL] is a rational number ([Q]): averages are exact;
    - sqlite3 binds a Python [int] as an INTEGER of 64 bits and raises
      [OverflowError] outside that range: [int64] is the range, and
      [add_show_bound] and [list_top_shows_bound] are the calls with that
      check where a property depends on it;
    - [now_ts()] is a parameter [now] of every operation that reads the
      clock;
    - an operation is a function from the store to the store after it and
      either the value returned or the exception raised. *)

From Stdlib Require Import ZArith List String Ascii Bool Lia.
From Stdlib Require Import QArith Qround Lqa Sorted Permutation.
From Stdlib Require Import DecimalString DecimalZ.
Import ListNotations.

Open Scope string_scope.
Open Scope list_scope.
Open Scope Z_scope.

Set Implicit Arguments.

(** ** The stored rows *)

Record show := mk_show {
  show_id : Z;
  show_title : string;
  show_corps : string;
  show_year : Z;
  show_poster_url : option string;
  show_norm_key : string;
  show_created_ts : Z
}.

Record rating := mk_rating {
  rating_show_id : Z;
  rating_user_id : Z;
  rating_half : Z;
  rating_ts : Z
}.

Record review := mk_review {
  review_show_id : Z;
  review_user_id : Z;
  review_text : string;
  review_ts : Z
}.

Record review_vote := mk_review_vote {
  vote_show_id : Z;
  vote_review_user_id : Z;
  vote_voter_user_id : Z;
  vote_value : Z;
  vote_ts : Z
}.

Record role := mk_role {
  role_id : Z;
  role_name : string;
  role_slug : string;
  role_color : option string;
  role_created_ts : Z
}.

Record user := mk_user {
  user_id : Z;
  user_username : string;
  user_avatar_url : option string
}.

(** The store: one list per table.  [roles_seq] is the [sqlite_sequence]
    entry of the AUTOINCREMENT table [roles]. *)
Record db := mk_db {
  shows : list show;
  ratings : list rating;
  reviews : list review;
  review_votes : list review_vote;
  roles : list role;
  roles_seq : Z;
  users : list user
}.

Definition empty_db : db := mk_db [] [] [] [] [] 0 [].

(** ** Exceptions and the store monad *)

Inductive exn :=
| ValueError (msg : string)
| IntegrityError
| OverflowError.

Inductive outcome (A : Type) :=
| Raised (e : exn)
| Returned (a : A).

Arguments Raised {A} e.
Arguments Returned {A} a.

Definition M (A : Type) : Type := db -> db * outcome A.

Definition ret {A} (a : A) : M A := fun d => (d, Returned a).
Definition raise {A} (e : exn) : M A := fun d => (d, Raised e).
Definition bind {A B} (m : M A) (k : A -> M B) : M B :=
  fun d =>
    match m d with
    | (d', Returned a) => k a d'
    | (d', Raised e) => (d', Raised e)
    end.

Notation "x <- m ;; k" := (bind m (fun x => k))
  (at level 61, m at next level, right associativity).

Definition run {A} (m : M A) (d : db) : db := fst (m d).
Definition result {A} (m : M A) (d : db) : outcome A := snd (m d).

(** The Python [int]s that sqlite3 can bind to a [?]: an SQLite INTEGER
    has 64 bits, and [execute] raises [OverflowError], before the statement
    runs, for a parameter outside that range. *)
Definition int64 (n : Z) : bool := (- 2 ^ 63 <=? n) && (n <? 2 ^ 63).

(** ** SQL statements over a table *)

Section Table.
Variable row : Type.

(** [SELECT ... WHERE p] followed by [fetchone()]. *)
Definition fetchone (p : row -> bool) (t : list row) : option row :=
  find p t.

(** [SELECT ... WHERE p] followed by [fetchall()]. *)
Definition sql_select (p : row -> bool) (t : list row) : list row :=
  filter p t.

(** [DELETE FROM t WHERE p]. *)
Definition sql_delete (p : row -> bool) (t : list row) : list row :=
  filter (fun r => negb (p r)) t.

(** [UPDATE t SET ... WHERE p]: every matching row is rewritten where it
    stands. *)
Definition sql_update (p : row -> bool) (f : row -> row) (t : list row)
  : list row :=
  map (fun r => if p r then f r else r) t.

(** [LIMIT n]: SQLite reads a negative bound as no bound. *)
Definition sql_limit (n : Z) (t : list row) : list row :=
  if n <? 0 then t else firstn (Z.to_nat n) t.
End Table.

(** Foreign keys ([PRAGMA foreign_keys = ON]). *)
Definition show_exists (d : db) (sid : Z) : bool :=
  existsb (fun s => show_id s =? sid) (shows d).

Definition user_exists (d : db) (uid : Z) : bool :=
  existsb (fun u => user_id u =? uid) (users d).

(** ** Vote ledger *)

Definition vote_at (sid ruid vuid : Z) (v : review_vote) : bool :=
  (vote_show_id v =? sid) && (vote_review_user_id v =? ruid)
  && (vote_voter_user_id v =? vuid).

Definition with_review_votes (d : db) (t : list review_vote) : db :=
  mk_db (shows d) (ratings d) (reviews d) t (roles d) (roles_seq d) (users d).

(** [INSERT INTO review_votes ... VALUES (?,?,?,?,?)] against the table of
    [ensure_review_votes_table]: primary key (show_id, review_user_id,
    voter_user_id); foreign keys to shows and (twice) to users. *)
Definition insert_review_vote (v : review_vote) : M unit :=
  fun d =>
    if existsb
         (vote_at (vote_show_id v) (vote_review_user_id v)
            (vote_voter_user_id v))
         (review_votes d)
    then (d, Raised IntegrityError)
    else if show_exists d (vote_show_id v)
            && user_exists d (vote_review_user_id v)
            && user_exists d (vote_voter_user_id v)
    then (with_review_votes d (review_votes d ++ [v]), Returned tt)
    else (d, Raised IntegrityError).

(** [vote = 1 if int(vote) > 0 else -1]. *)
Definition normalize_vote (vote : Z) : Z := if 0 <? vote then 1 else -1.

Definition set_review_vote (now : Z)
    (show_id review_user_id voter_user_id vote : Z) : M unit :=
  let vote := normalize_vote vote in
  fun d =>
    match fetchone (vote_at show_id review_user_id voter_user_id)
            (review_votes d) with
    | None =>
        insert_review_vote
          (mk_review_vote show_id review_user_id voter_user_id vote now) d
    | Some cur =>
        let existing := vote_value cur in
        if existing =? vote then
          (with_review_votes d
             (sql_delete (vote_at show_id review_user_id voter_user_id)
                (review_votes d)),
           Returned tt)
        else
          (with_review_votes d
             (sql_update (vote_at show_id review_user_id voter_user_id)
                (fun v =>
                   mk_review_vote (vote_show_id v) (vote_review_user_id v)
                     (vote_voter_user_id v) vote now)
                (review_votes d)),
           Returned tt)
    end.

(** The rows stored for one vote key, and the per-key vote state
    (absent, or the stored value). *)
Definition votes_for (sid ruid vuid : Z) (d : db) : list review_vote :=
  sql_select (vote_at sid ruid vuid) (review_votes d).

Definition vote_state (sid ruid vuid : Z) (d : db) : option Z :=
  option_map vote_value (fetchone (vote_at sid ruid vuid) (review_votes d)).

(** The primary key of [review_votes]: at most one row per key. *)
Definition votes_pk (d : db) : Prop :=
  forall sid ruid vuid, (List.length (votes_for sid ruid vuid d) <= 1)%nat.

(** ** Python string operations *)

Definition code (c : ascii) : N := N_of_ascii c.

Definition in_range (lo hi : N) (c : ascii) : bool :=
  ((lo <=? code c) && (code c <=? hi))%N.

(** [str.isspace] on one character, which is also the class [\s] of [re]
    on [str] patterns: TAB..CR, FS..US, SPACE, NEL and NBSP. *)
Definition is_space (c : ascii) : bool :=
  in_range 9 13 c || in_range 28 32 c || (code c =? 133)%N
  || (code c =? 160)%N.

(** [str.lower] on one character: A..Z and the upper-case letters of
    Latin-1 (all of U+00C0..U+00DE but the multiplication sign). *)
Definition lower_char (c : ascii) : ascii :=
  if in_range 65 90 c
     || (in_range 192 222 c && negb (code c =? 215)%N)
  then ascii_of_N (code c + 32)
  else c.

Fixpoint lower (s : string) : string :=
  match s with
  | EmptyString => EmptyString
  | String c s' => String (lower_char c) (lower s')
  end.

Section Strip.
(** [str.lstrip], [str.rstrip] and [str.strip] for a set of characters
    given as a predicate. *)
Variable drop : ascii -> bool.

Fixpoint lstrip_by (s : string) : string :=
  match s with
  | EmptyString => EmptyString
  | String c s' => if drop c then lstrip_by s' else s
  end.

Fixpoint rstrip_by (s : string) : string :=
  match s with
  | EmptyString => EmptyString
  | String c s' =>
      match rstrip_by s' with
      | EmptyString => if drop c then EmptyString else String c EmptyString
      | r => String c r
      end
  end.

Definition strip_by (s : string) : string := rstrip_by (lstrip_by s).
End Strip.

(** [s.strip()]. *)
Definition strip : string -> string := strip_by is_space.

Definition is_empty (s : string) : bool :=
  match s with EmptyString => true | _ => false end.

(** [re.sub(pat + "+", rep, s)] for a one-character class [pat]: every
    maximal run of matching characters becomes one [rep]. *)
Fixpoint sub_runs (pat : ascii -> bool) (rep : string) (in_run : bool)
    (s : string) : string :=
  match s with
  | EmptyString => EmptyString
  | String c s' =>
      if pat c then
        if in_run then sub_runs pat rep true s'
        else rep ++ sub_runs pat rep true s'
      else String c (sub_runs pat rep false s')
  end.

(** [re.sub(pat, "", s)] for a one-character class [pat]. *)
Fixpoint remove_chars (pat : ascii -> bool) (s : string) : string :=
  match s with
  | EmptyString => EmptyString
  | String c s' =>
      if pat c then remove_chars pat s'
      else String c (remove_chars pat s')
  end.

Definition is_lower_alnum (c : ascii) : bool :=
  in_range 97 122 c || in_range 48 57 c.

(** The class [[^a-z0-9 \-]]. *)
Definition not_key_char (c : ascii) : bool :=
  negb (is_lower_alnum c || (code c =? 32)%N || (code c =? 45)%N).

(** The class [[^a-z0-9]]. *)
Definition not_slug_char (c : ascii) : bool := negb (is_lower_alnum c).

Definition is_hyphen (c : ascii) : bool := (code c =? 45)%N.

(** [str(n)] and the [{n}] of an f-string, for an [int]. *)
Definition str_of_int (n : Z) : string := NilZero.string_of_int (Z.to_int n).

(** [x or ""] for an optional string. *)
Definition or_empty (s : option string) : string :=
  match s with Some s => s | None => "" end.

(** [s or None]. *)
Definition or_none (s : string) : option string :=
  if is_empty s then None else Some s.

(** ** Show catalog *)

(** The inner [norm] of [norm_key]. *)
Definition norm (s : string) : string :=
  let s := lower (strip s) in
  let s := sub_runs is_space " " false s in
  let s := remove_chars not_key_char s in
  strip s.

Definition norm_key (year : Z) (corps title : string) : string :=
  str_of_int year ++ "|" ++ norm corps ++ "|" ++ norm title.

Definition with_shows (d : db) (t : list show) : db :=
  mk_db t (ratings d) (reviews d) (review_votes d) (roles d) (roles_seq d)
    (users d).

(** The rowid SQLite gives a new row: one more than the largest in the
    table, 1 in an empty table. *)
Definition next_rowid (ids : list Z) : Z :=
  match ids with
  | [] => 1
  | i :: ids' => fold_right Z.max i ids' + 1
  end.

Definition has_norm_key (key : string) (s : show) : bool :=
  String.eqb (show_norm_key s) key.

(** Modelled from the spec: the table [shows] is declared in schema.sql,
    which is not among the sources.  The spec gives it an integer primary
    key [id] and a uniqueness constraint on [norm_key]; the insert
    returns [last_insert_rowid()]. *)
Definition insert_show (title corps : string) (year : Z)
    (poster_url : option string) (key : string) (now : Z) : M Z :=
  fun d =>
    if existsb (has_norm_key key) (shows d)
    then (d, Raised IntegrityError)
    else
      let id := next_rowid (map show_id (shows d)) in
      (with_shows d
         (shows d ++ [mk_show id title corps year poster_url key now]),
       Returned id).

(** [row["poster_url"] is None or str(row["poster_url"]).strip() == ""]. *)
Definition poster_missing (s : show) : bool :=
  match show_poster_url s with
  | None => true
  | Some u => is_empty (strip u)
  end.

Definition set_poster (p : string) (s : show) : show :=
  mk_show (show_id s) (show_title s) (show_corps s) (show_year s) (Some p)
    (show_norm_key s) (show_created_ts s).

Definition add_show (now year : Z) (corps title : string)
    (poster_url : option string) : M (bool * option Z * string) :=
  let year_i := year in
  let corps_s := strip corps in
  let title_s := strip title in
  let poster_s := or_none (strip (or_empty poster_url)) in
  if is_empty corps_s || is_empty title_s then
    ret (false, None, "Missing corps or title.")
  else
    let key := norm_key year_i corps_s title_s in
    fun d =>
      match insert_show title_s corps_s year_i poster_s key now d with
      | (d', Returned show_id) => (d', Returned (true, Some show_id, "Inserted"))
      | (d', Raised IntegrityError) =>
          let row := fetchone (has_norm_key key) (shows d') in
          match row, poster_s with
          | Some r, Some p =>
              if poster_missing r then
                (with_shows d'
                   (sql_update (fun s => show_id s =? show_id r)
                      (set_poster p) (shows d')),
                 Returned (false, Some (show_id r), "Duplicate (poster updated)"))
              else (d', Returned (false, Some (show_id r), "Duplicate"))
          | _, _ => (d', Returned (false, option_map show_id row, "Duplicate"))
          end
      | (d', Raised e) => (d', Raised e)
      end.

(** ** Rating ledger *)

Definition with_ratings (d : db) (t : list rating) : db :=
  mk_db (shows d) t (reviews d) (review_votes d) (roles d) (roles_seq d)
    (users d).

Definition rating_at (sid uid : Z) (r : rating) : bool :=
  (rating_show_id r =? sid) && (rating_user_id r =? uid).

(** [max(0, min(10, int(rating_half)))]. *)
Definition clamp_half (rating_half : Z) : Z := Z.max 0 (Z.min 10 rating_half).

(** Modelled from the spec: the table [ratings] is declared in
    schema.sql, which is not among the sources.  The spec gives it a
    uniqueness constraint on (show_id, user_id) and foreign keys to shows
    and users.  The statement is
    [INSERT ... ON CONFLICT(show_id, user_id) DO UPDATE SET
     rating_half=excluded.rating_half, ts=excluded.ts]. *)
Definition upsert_rating_row (sid uid rh now : Z) : M unit :=
  fun d =>
    if existsb (rating_at sid uid) (ratings d) then
      (with_ratings d
         (sql_update (rating_at sid uid)
            (fun r => mk_rating (rating_show_id r) (rating_user_id r) rh now)
            (ratings d)),
       Returned tt)
    else if show_exists d sid && user_exists d uid then
      (with_ratings d (ratings d ++ [mk_rating sid uid rh now]), Returned tt)
    else (d, Raised IntegrityError).

Definition upsert_rating (now show_id user_id rating_half : Z) : M unit :=
  let rh := clamp_half rating_half in
  upsert_rating_row show_id user_id rh now.

Definition ratings_for (sid uid : Z) (d : db) : list rating :=
  sql_select (rating_at sid uid) (ratings d).

(** ** Review ledger *)

Definition with_reviews (d : db) (t : list review) : db :=
  mk_db (shows d) (ratings d) t (review_votes d) (roles d) (roles_seq d)
    (users d).

Definition review_at (sid uid : Z) (r : review) : bool :=
  (review_show_id r =? sid) && (review_user_id r =? uid).

(** [INSERT ... ON CONFLICT(show_id, user_id) DO UPDATE SET
    review_text=excluded.review_text, ts=excluded.ts] against the table of
    [ensure_reviews_table]: primary key (show_id, user_id), foreign keys
    to shows and users. *)
Definition upsert_review_row (sid uid : Z) (text : string) (now : Z)
    : M unit :=
  fun d =>
    if existsb (review_at sid uid) (reviews d) then
      (with_reviews d
         (sql_update (review_at sid uid)
            (fun r => mk_review (review_show_id r) (review_user_id r) text now)
            (reviews d)),
       Returned tt)
    else if show_exists d sid && user_exists d uid then
      (with_reviews d (reviews d ++ [mk_review sid uid text now]), Returned tt)
    else (d, Raised IntegrityError).

(** [len(text)]. *)
Definition len (s : string) : Z := Z.of_nat (String.length s).

Definition upsert_review (now show_id user_id : Z) (review_text : string)
    : M unit :=
  let text := strip review_text in
  if is_empty text then raise (ValueError "Review cannot be empty.")
  else if len text >? 5000 then
    raise (ValueError "Review is too long (max 5000 chars).")
  else upsert_review_row show_id user_id text now.

Definition reviews_for (sid uid : Z) (d : db) : list review :=
  sql_select (review_at sid uid) (reviews d).

(** ** Role directory *)

Definition with_roles (d : db) (t : list role) (seq : Z) : db :=
  mk_db (shows d) (ratings d) (reviews d) (review_votes d) t seq (users d).

Definition _slugify (name : string) : string :=
  let s := lower (strip name) in
  let s := strip_by is_hyphen (sub_runs not_slug_char "-" false s) in
  if is_empty s then "role" else s.

Definition is_hex_digit (c : ascii) : bool :=
  in_range 48 57 c || in_range 97 102 c || in_range 65 70 c.

Fixpoint all_chars (p : ascii -> bool) (s : string) : bool :=
  match s with
  | EmptyString => true
  | String c s' => p c && all_chars p s'
  end.

(** [_HEX_COLOR_RE.match(s)] for the pattern [^#(?:[0-9a-fA-F]{6})$]; the
    [$] of Python also matches before a final newline. *)
Definition hex_color_match (s : string) : bool :=
  match s with
  | String c s' =>
      (code c =? 35)%N
      && all_chars is_hex_digit (substring 0 6 s')
      && (String.length (substring 0 6 s') =? 6)%nat
      && (String.eqb (substring 6 (String.length s') s') ""
          || String.eqb (substring 6 (String.length s') s')
               (String (ascii_of_N 10) ""))
  | EmptyString => false
  end.

Definition _clean_hex_color (s : string) : string :=
  let s := strip s in
  if hex_color_match s then s else "".

Definition slug_taken (d : db) (slug : string) : bool :=
  existsb (fun r => String.eqb (role_slug r) slug) (roles d).

(** [f"{base}-{n}"]. *)
Definition numbered (base : string) (n : Z) : string :=
  base ++ "-" ++ str_of_int n.

(** The loop [while <slug taken>: slug = f"{base}-{n}"; n += 1], run for at
    most [fuel] tests of the condition. *)
Fixpoint unique_slug (fuel : nat) (d : db) (base slug : string) (n : Z)
    : option string :=
  match fuel with
  | O => None
  | S fuel' =>
      if slug_taken d slug
      then unique_slug fuel' d base (numbered base n) (n + 1)
      else Some slug
  end.

(** [INSERT INTO roles(name, slug, color, created_ts)] against the table
    of [ensure_roles_tables]: [id INTEGER PRIMARY KEY AUTOINCREMENT],
    [name UNIQUE], [slug UNIQUE]. *)
Definition insert_role (name slug : string) (color : option string)
    (now : Z) : M unit :=
  fun d =>
    if existsb
         (fun r => String.eqb (role_name r) name
                   || String.eqb (role_slug r) slug)
         (roles d)
    then (d, Raised IntegrityError)
    else
      let id := Z.max (next_rowid (map role_id (roles d))) (roles_seq d + 1) in
      (with_roles d (roles d ++ [mk_role id name slug color now]) id,
       Returned tt).

(** [create_role] with the slug loop bounded by [fuel]; [None] when the
    loop has not ended within the bound. *)
Definition create_role_fuel (fuel : nat) (now : Z) (name color : string)
    (d : db) : option (db * outcome unit) :=
  let nm := strip name in
  if is_empty nm then Some (d, Raised (ValueError "Role name is required."))
  else
    let slug := _slugify nm in
    let col := or_none (_clean_hex_color color) in
    let base := slug in
    let n := 2 in
    match unique_slug fuel d base slug n with
    | None => None
    | Some slug => Some (insert_role nm slug col now d)
    end.

(** One more test than there are roles always ends the loop (see
    [unique_slug_terminates]). *)
Definition create_role (now : Z) (name color : string) (d : db)
    : option (db * outcome unit) :=
  create_role_fuel (S (List.length (roles d))) now name color d.

(** ** Aggregation and ranking *)

(** [ORDER BY]: keys are compared in turn, [DESC] reverses a key. *)
Definition and_then (c1 c2 : comparison) : comparison :=
  match c1 with Eq => c2 | _ => c1 end.

Definition desc (c : comparison) : comparison := CompOpp c.

Section OrderBy.
Variable row : Type.
Variable cmp : row -> row -> comparison.

Fixpoint insert_row (x : row) (l : list row) : list row :=
  match l with
  | [] => [x]
  | y :: l' =>
      match cmp x y with
      | Gt => y :: insert_row x l'
      | _ => x :: l
      end
  end.

(** Rows that compare equal on every key keep their scan order. *)
Definition order_by (l : list row) : list row :=
  fold_right insert_row [] l.
End OrderBy.

Definition sum_Z (l : list Z) : Z := fold_right Z.add 0 l.

(** [AVG(x)]: NULL over no row, the real mean otherwise. *)
Definition sql_avg (l : list Z) : option Q :=
  match l with
  | [] => None
  | _ => Some (inject_Z (sum_Z l) / inject_Z (Z.of_nat (List.length l)))%Q
  end.

(** [COUNT(x)] over non-NULL values. *)
Definition sql_count (l : list Z) : Z := Z.of_nat (List.length l).

(** [ROUND(x, 2)]: to the nearest hundredth, halves away from zero. *)
Definition round2 (x : Q) : Q :=
  if Qle_bool 0 x
  then (inject_Z (Qfloor (x * 100 + (1 # 2))) / 100)%Q
  else (- (inject_Z (Qfloor (- x * 100 + (1 # 2))) / 100))%Q.

(** [LOWER(x)] of SQLite: ASCII letters only. *)
Definition sql_lower_char (c : ascii) : ascii :=
  if in_range 65 90 c then ascii_of_N (code c + 32) else c.

Fixpoint sql_lower (s : string) : string :=
  match s with
  | EmptyString => EmptyString
  | String c s' => String (sql_lower_char c) (sql_lower s')
  end.

(** The values of [r.rating_half] that [LEFT JOIN ratings r ON r.show_id
    = s.id] joins to the show [sid]. *)
Definition halves_of (d : db) (sid : Z) : list Z :=
  map rating_half (sql_select (fun r => rating_show_id r =? sid) (ratings d)).

(** A row of [list_shows] and [show_detail]: [s.*, avg_rating, cnt]. *)
Record show_stats := mk_show_stats {
  st_show : show;
  st_avg_rating : Q;
  st_cnt : Z
}.

(** [SELECT s.*, (COALESCE(AVG(r.rating_half), 0.0) / 2.0) AS avg_rating,
    COUNT(r.rating_half) AS cnt ... GROUP BY s.id]: [id] is the primary
    key of [shows], so every group is one show with the ratings joined to
    it. *)
Definition stats_of (d : db) (s : show) : show_stats :=
  let hs := halves_of d (show_id s) in
  mk_show_stats s
    (match sql_avg hs with Some a => a | None => 0 end / 2)%Q
    (sql_count hs).

Definition unrated_last (x : show_stats) : Z :=
  if st_cnt x =? 0 then 1 else 0.

Definition by_corps_title (x y : show_stats) : comparison :=
  and_then
    (String.compare (sql_lower (show_corps (st_show x)))
       (sql_lower (show_corps (st_show y))))
    (String.compare (sql_lower (show_title (st_show x)))
       (sql_lower (show_title (st_show y)))).

Definition by_year (x y : show_stats) : comparison :=
  show_year (st_show x) ?= show_year (st_show y).

(** The [order_sql] chosen by [sort]. *)
Definition list_shows_order (sort : string) (x y : show_stats) : comparison :=
  if String.eqb sort "corps" then
    and_then
      (String.compare (sql_lower (show_corps (st_show x)))
         (sql_lower (show_corps (st_show y))))
      (and_then (desc (by_year x y))
         (String.compare (sql_lower (show_title (st_show x)))
            (sql_lower (show_title (st_show y)))))
  else if String.eqb sort "top" then
    and_then (unrated_last x ?= unrated_last y)
      (and_then (desc (st_avg_rating x ?= st_avg_rating y)%Q)
         (and_then (desc (st_cnt x ?= st_cnt y))
            (and_then (desc (by_year x y)) (by_corps_title x y))))
  else if String.eqb sort "bottom" then
    and_then (unrated_last x ?= unrated_last y)
      (and_then (st_avg_rating x ?= st_avg_rating y)%Q
         (and_then (desc (st_cnt x ?= st_cnt y))
            (and_then (desc (by_year x y)) (by_corps_title x y))))
  else if String.eqb sort "year_asc" then
    and_then (by_year x y) (by_corps_title x y)
  else
    and_then (desc (by_year x y)) (by_corps_title x y).

(** The [where] clauses: [s.year = ?] when a year is given,
    [LOWER(s.corps) = LOWER(?)] when a non-empty corps is given. *)
Definition list_shows_where (year_filter : option Z)
    (corps_filter : option string) (s : show) : bool :=
  match year_filter with
  | Some y => show_year s =? y
  | None => true
  end
  && match corps_filter with
     | Some c =>
         if is_empty c then true
         else String.eqb (sql_lower (show_corps s)) (sql_lower (strip c))
     | None => true
     end.

Definition list_shows (sort : string) (year_filter : option Z)
    (corps_filter : option string) (d : db) : list show_stats :=
  order_by (list_shows_order sort)
    (map (stats_of d)
       (sql_select (list_shows_where year_filter corps_filter) (shows d))).

Definition show_detail (show_id0 : Z) (d : db) : option show_stats :=
  hd_error
    (map (stats_of d) (sql_select (fun s => show_id s =? show_id0) (shows d))).

(** A row of the [review_scores] common table expression. *)
Record review_score := mk_review_score {
  rs_show_id : Z;
  rs_user_id : Z;
  rs_review_text : string;
  rs_ts : Z;
  rs_username : string;
  rs_avatar_url : option string;
  rs_review_rating_half : option Z;
  rs_vote_score : Z
}.

(** [COALESCE((SELECT SUM(v.vote) FROM review_votes v WHERE v.show_id = ?
    AND v.review_user_id = ?), 0)]. *)
Definition vote_score (d : db) (sid ruid : Z) : Z :=
  sum_Z
    (map vote_value
       (sql_select
          (fun v => (vote_show_id v =? sid) && (vote_review_user_id v =? ruid))
          (review_votes d))).

(** [X LEFT JOIN t ON p]: the matching rows of [t], or one NULL row. *)
Definition left_join {row : Type} (p : row -> bool) (t : list row)
    : list (option row) :=
  match sql_select p t with
  | [] => [None]
  | l => map Some l
  end.

(** [reviews rv JOIN users u ON u.id = rv.user_id LEFT JOIN ratings r ON
    r.show_id = rv.show_id AND r.user_id = rv.user_id]. *)
Definition review_scores (d : db) : list review_score :=
  flat_map
    (fun rv =>
       flat_map
         (fun u =>
            map
              (fun r =>
                 mk_review_score (review_show_id rv) (review_user_id rv)
                   (review_text rv) (review_ts rv) (user_username u)
                   (user_avatar_url u) (option_map rating_half r)
                   (vote_score d (review_show_id rv) (review_user_id rv)))
              (left_join
                 (rating_at (review_show_id rv) (review_user_id rv))
                 (ratings d)))
         (sql_select (fun u => user_id u =? review_user_id rv) (users d)))
    (reviews d).

(** [ORDER BY rs.vote_score DESC, rs.ts DESC]. *)
Definition best_first (x y : review_score) : comparison :=
  and_then (desc (rs_vote_score x ?= rs_vote_score y))
    (desc (rs_ts x ?= rs_ts y)).

(** The row of [top_review_per_show] with [rn = 1] in the partition of
    the show [sid].  SQL leaves open how [ROW_NUMBER()] numbers rows that
    tie on both keys; here they keep their scan order. *)
Definition top_review_of (d : db) (sid : Z) : option review_score :=
  hd_error
    (order_by best_first
       (sql_select (fun rs => rs_show_id rs =? sid) (review_scores d))).

(** A row of [list_top_shows_with_top_review]: the columns of
    [show_stats], and the [top_review_*] columns, all NULL together when
    the left join finds no review. *)
Record top_show := mk_top_show {
  top_id : Z;
  top_title : string;
  top_corps : string;
  top_year : Z;
  top_poster_url : option string;
  top_cnt : Z;
  top_avg_rating : Q;
  top_review : option review_score
}.

(** [COUNT(r.rating_half) AS cnt, COALESCE(ROUND(AVG(r.rating_half) / 2.0,
    2), 0) AS avg_rating], joined to the best review. *)
Definition top_show_of (d : db) (s : show) : top_show :=
  let hs := halves_of d (show_id s) in
  mk_top_show (show_id s) (show_title s) (show_corps s) (show_year s)
    (show_poster_url s) (sql_count hs)
    (match sql_avg hs with Some a => round2 (a / 2) | None => 0 end)%Q
    (top_review_of d (show_id s)).

Definition top_order (mode : string) (x y : top_show) : comparison :=
  let rest :=
    and_then (desc (top_cnt x ?= top_cnt y))
      (and_then (desc (top_year x ?= top_year y)) (top_id x ?= top_id y)) in
  if String.eqb mode "bottom"
  then and_then (top_avg_rating x ?= top_avg_rating y)%Q rest
  else and_then (desc (top_avg_rating x ?= top_avg_rating y)%Q) rest.

Definition list_top_shows_with_top_review (limit : Z) (mode : string)
    (d : db) : list top_show :=
  let limit := limit in
  let mode := lower (strip (if is_empty mode then "top" else mode)) in
  sql_limit limit
    (order_by (top_order mode)
       (sql_select (fun ss => top_cnt ss >? 0)
          (map (top_show_of d) (shows d)))).

(** [list_top_shows_with_top_review] with the binding of its parameter:
    [conn.execute(sql, (limit,))] raises [OverflowError] for a limit that
    is not a 64-bit integer, and runs the statement above otherwise. *)
Definition list_top_shows_bound (limit : Z) (mode : string) (d : db)
    : outcome (list top_show) :=
  if int64 limit then Returned (list_top_shows_with_top_review limit mode d)
  else Raised OverflowError.

(** ** Vocabulary of the statements *)

(** The pure transition of the per-key vote state. *)
Definition toggle (cur : option Z) (vote : Z) : option Z :=
  match cur with
  | None => Some vote
  | Some existing => if existing =? vote then None else Some vote
  end.

(** The show, the author and the voter of a vote key are stored rows. *)
Definition refs_exist (d : db) (sid ruid vuid : Z) : Prop :=
  show_exists d sid = true /\ user_exists d ruid = true
  /\ user_exists d vuid = true.

(** The uniqueness constraints of [ratings] and [reviews]: at most one
    row per (show, user). *)
Definition ratings_pk (d : db) : Prop :=
  forall sid uid, (List.length (ratings_for sid uid d) <= 1)%nat.

Definition reviews_pk (d : db) : Prop :=
  forall sid uid, (List.length (reviews_for sid uid d) <= 1)%nat.

(** A text of [n] copies of the character [c]. *)
Fixpoint replicate (n : nat) (c : ascii) : string :=
  match n with
  | O => EmptyString
  | S n' => String c (replicate n' c)
  end.

(** The constraints of [shows]: no two rows share a [norm_key], nor an
    [id]. *)
Definition shows_unique (d : db) : Prop :=
  NoDup (map show_norm_key (shows d)) /\ NoDup (map show_id (shows d)).


(** The slugs the loop of [create_role] tries after [base]:
    [base-n], [base-(n+1)], ... *)
Fixpoint candidates (base : string) (n : Z) (k : nat) : list string :=
  match k with
  | O => []
  | S k' => numbered base n :: candidates base (n + 1) k'
  end.

(** The characters of a slug. *)
Definition is_slug_char (c : ascii) : bool := is_lower_alnum c || is_hyphen c.

(** The laws of a comparison used as a sort key: it is antisymmetric,
    rows that compare equal compare alike with every row, and [Lt] is
    transitive. *)
Record ordering {A : Type} (cmp : A -> A -> comparison) : Prop := mk_ordering {
  ord_antisym : forall x y, cmp y x = CompOpp (cmp x y);
  ord_eq : forall x y z, cmp x y = Eq -> cmp x z = cmp y z;
  ord_lt : forall x y z, cmp x y = Lt -> cmp y z = Lt -> cmp x z = Lt
}.

(** [x] does not sort after [y]. *)
Definition not_after {A : Type} (cmp : A -> A -> comparison) (x y : A) : Prop :=
  cmp x y <> Gt.

(** The tie-breaks of the leaderboard: count descending, then year
    descending, then show id ascending. *)
Definition ties_before (x y : top_show) : Prop :=
  top_cnt y < top_cnt x
  \/ (top_cnt x = top_cnt y
      /\ (top_year y < top_year x
          \/ (top_year x = top_year y /\ top_id x <= top_id y))).

(** Mode top: average descending, then the tie-breaks. *)
Definition ranks_before_top (x y : top_show) : Prop :=
  (top_avg_rating y < top_avg_rating x)%Q
  \/ ((top_avg_rating x == top_avg_rating y)%Q /\ ties_before x y).

(** Mode bottom: average ascending, then the same tie-breaks. *)
Definition ranks_before_bottom (x y : top_show) : Prop :=
  (top_avg_rating x < top_avg_rating y)%Q
  \/ ((top_avg_rating x == top_avg_rating y)%Q /\ ties_before x y).

Definition ranks_before (mode : string) (x y : top_show) : Prop :=
  if String.eqb mode "bottom" then ranks_before_bottom x y
  else ranks_before_top x y.

(** The rating rows stored for a show. *)
Definition ratings_of (d : db) (sid : Z) : list rating :=
  sql_select (fun r => rating_show_id r =? sid) (ratings d).

(** The show has at least one row in [ratings]. *)
Definition has_rating (d : db) (s : show) : bool :=
  existsb (fun r => rating_show_id r =? show_id s) (ratings d).

(** The rated shows of the store with their leaderboard columns, before
    ordering. *)
Definition rated_shows (d : db) : list top_show :=
  sql_select (fun ss => top_cnt ss >? 0) (map (top_show_of d) (shows d)).

(** The whole leaderboard of a mode, before [LIMIT]. *)
Definition ranked_shows (mode : string) (d : db) : list top_show :=
  order_by (top_order mode) (rated_shows d).

(** The mean of a list of half-star values. *)
Definition mean (l : list Z) : Q :=
  (inject_Z (sum_Z l) / inject_Z (Z.of_nat (List.length l)))%Q.

(** The foreign key of [reviews] to [users]: every review has a stored
    author. *)
Definition reviews_fk (d : db) : Prop :=
  forall rv, In rv (reviews d) -> user_exists d (review_user_id rv) = true.

(** The reviews stored for a show. *)
Definition reviews_of (d : db) (sid : Z) : list review :=
  sql_select (fun rv => review_show_id rv =? sid) (reviews d).

(** ** Example stores *)

Definition metamorph : show :=
  mk_show 1 "Metamorph" "Blue Devils" 2017 None "2017|blue devils|metamorph"
    1000.

(** One show and two users, nothing else. *)
Definition demo_db : db :=
  mk_db [metamorph] [] [] [] [] 0
    [mk_user 1 "alice" None; mk_user 2 "bob" None].

(** The same store after user 2 has upvoted the review of user 1. *)
Definition upvoted_db : db :=
  with_review_votes demo_db [mk_review_vote 1 1 2 1 1001].

(** The empty store after the role "Veterans!!" has been created. *)
Definition veterans_db : db :=
  with_roles empty_db [mk_role 1 "Veterans!!" "veterans" None 1001] 1.

(** Three shows and three users: show 1 ([metamorph]) is rated 9 and 7
    (half-stars),
    show 2 is rated 10, show 3 is not rated; user 1 and user 2 have
    reviewed show 1, and user 2 has upvoted the review of user 1. *)
Definition ranking_db : db :=
  mk_db
    [metamorph;
     mk_show 2 "Babylon" "Santa Clara Vanguard" 2018 None
       "2018|santa clara vanguard|babylon" 1000;
     mk_show 3 "Ghostlight" "Bluecoats" 2022 None
       "2022|bluecoats|ghostlight" 1000]
    [mk_rating 1 1 9 1001; mk_rating 1 2 7 1002; mk_rating 2 3 10 1003]
    [mk_review 1 1 "Great show" 1004; mk_review 1 2 "Loud" 1005]
    [mk_review_vote 1 1 2 1 1006]
    [] 0
    [mk_user 1 "alice" None; mk_user 2 "bob" None; mk_user 3 "carol" None].

(** ** Lookups and deletions of the ledgers *)

(** [DELETE FROM ratings WHERE show_id=? AND user_id=?]. *)
Definition delete_rating (show_id user_id : Z) : M unit :=
  fun d =>
    (with_ratings d (sql_delete (rating_at show_id user_id) (ratings d)),
     Returned tt).

Definition user_rating_for_show (show_id user_id : Z) (d : db) : option Z :=
  match fetchone (rating_at show_id user_id) (ratings d) with
  | Some row => Some (rating_half row)
  | None => None
  end.


Definition my_review_for_show (show_id user_id : Z) (d : db) : option string :=
  match fetchone (review_at show_id user_id) (reviews d) with
  | Some row => Some (review_text row)
  | None => None
  end.

Definition get_show_by_id (show_id0 : Z) (d : db) : option show :=
  fetchone (fun s => show_id s =? show_id0) (shows d).

(** The number of ratings [list_shows] reports for a show id. *)
Definition rating_count (d : db) (sid : Z) : Z := sql_count (halves_of d sid).

(** The votes cast on the review of [ruid] for the show [sid]. *)
Definition on_review (sid ruid : Z) (v : review_vote) : bool :=
  (vote_show_id v =? sid) && (vote_review_user_id v =? ruid).

(** The sum of the votes of a table that satisfy [p]. *)
Definition score_of (p : review_vote -> bool) (t : list review_vote) : Z :=
  sum_Z (map vote_value (sql_select p t)).

(** The characters [norm] keeps: a-z, 0-9, space and hyphen. *)
Definition is_key_char (c : ascii) : bool := negb (not_key_char c).

(** The delimiter of [norm_key]. *)
Definition is_bar (c : ascii) : bool := (code c =? 124)%N.

Definition no_bar (c : ascii) : bool := negb (is_bar c).

(** ** Editing and importing shows *)

Definition has_id (id : Z) (s : show) : bool := show_id s =? id.

(** Modelled from the spec: [UPDATE shows SET title = ?, corps = ?, year =
    ?, poster_url = ?, norm_key = ? WHERE id = ?] against the table
    [shows] of schema.sql (not among the sources), whose [norm_key] is
    unique: the statement fails when a rewritten row meets the new key in
    another row. *)
Definition update_show_row (id : Z) (title corps : string) (year : Z)
    (poster_url : option string) (key : string) : M unit :=
  fun d =>
    if existsb (has_id id) (shows d)
       && (existsb (fun s => has_norm_key key s && negb (has_id id s)) (shows d)
           || (1 <? Z.of_nat (List.length (sql_select (has_id id) (shows d)))))
    then (d, Raised IntegrityError)
    else
      (with_shows d
         (sql_update (has_id id)
            (fun s =>
               mk_show (show_id s) title corps year poster_url key
                 (show_created_ts s))
            (shows d)),
       Returned tt).

Definition update_show (show_id0 year : Z) (corps title : string)
    (poster_url : option string) : M unit :=
  let year_i := year in
  let corps_s := strip corps in
  let title_s := strip title in
  let poster_s := or_none (strip (or_empty poster_url)) in
  if is_empty corps_s || is_empty title_s then
    raise (ValueError "Missing corps or title.")
  else
    let new_key := norm_key year_i corps_s title_s in
    fun d =>
      match fetchone (fun s => has_norm_key new_key s && negb (has_id show_id0 s))
              (shows d) with
      | Some row =>
          (d,
           Raised
             (ValueError
                "Another show already exists with the same year/corps/title (duplicate)."))
      | None => update_show_row show_id0 title_s corps_s year_i poster_s new_key d
      end.

(** [add_show] with the binding of its parameters.  The year is the one
    [int] of the caller that reaches a statement: it is bound by the
    INSERT, after the check of corps and title, and [execute] raises
    [OverflowError] for a year that is not a 64-bit integer.  The handler
    [except sqlite3.IntegrityError] does not catch it and nothing is
    written. *)
Definition add_show_bound (now year : Z) (corps title : string)
    (poster_url : option string) : M (bool * option Z * string) :=
  if is_empty (strip corps) || is_empty (strip title) then
    add_show now year corps title poster_url
  else if int64 year then add_show now year corps title poster_url
  else raise OverflowError.

(** The year of a parsed item. *)
Definition item_year (item : Z * string * string * option string) : Z :=
  let '(y, _, _, _) := item in y.

(** The loop of [bulk_add_post] over the parsed items: every item goes to
    [add_show] and is counted as inserted, as a duplicate (status
    "Duplicate") or as another issue; an exception of [add_show] ends the
    loop.  [clock i] is the reading of the clock in the [i]-th call. *)
Fixpoint bulk_add_loop (clock : nat -> Z) (i : nat)
    (items : list (Z * string * string * option string))
    (inserted dupes other_bad : Z) : M (Z * Z * Z) :=
  match items with
  | [] => ret (inserted, dupes, other_bad)
  | (y, c, t, poster) :: items' =>
      fun d =>
        match add_show_bound (clock i) y c t poster d with
        | (d', Returned (ok, _sid, msg)) =>
            if ok then
              bulk_add_loop clock (S i) items' (inserted + 1) dupes other_bad d'
            else if String.eqb msg "Duplicate" then
              bulk_add_loop clock (S i) items' inserted (dupes + 1) other_bad d'
            else
              bulk_add_loop clock (S i) items' inserted dupes (other_bad + 1) d'
        | (d', Raised e) => (d', Raised e)
        end
  end.

Definition bulk_add (clock : nat -> Z)
    (items : list (Z * string * string * option string)) : M (Z * Z * Z) :=
  bulk_add_loop clock 0 items 0 0 0.

(** ** Role assignments *)

(** A row of [user_roles]. *)
Record user_role := mk_user_role {
  ur_user_id : Z;
  ur_role_id : Z;
  ur_assigned_ts : Z;
  ur_assigned_by_user_id : option Z
}.

(** The store with the table [user_roles] of [ensure_roles_tables] beside
    the other tables: primary key (user_id, role_id), foreign keys to
    users and to roles, both ON DELETE CASCADE. *)
Record store := mk_store {
  store_db : db;
  user_roles : list user_role
}.

Definition SM (A : Type) : Type := store -> store * outcome A.

Definition assignment_at (uid rid : Z) (ur : user_role) : bool :=
  (ur_user_id ur =? uid) && (ur_role_id ur =? rid).

Definition role_has_id (rid : Z) (r : role) : bool := role_id r =? rid.

Definition role_exists (d : db) (rid : Z) : bool :=
  existsb (role_has_id rid) (roles d).

(** [_clean_color], the validator of the profile colour. *)
Definition _clean_color (s : string) : string :=
  let s := strip s in
  if is_empty s then ""
  else if hex_color_match s then s else "".

Definition list_roles (d : db) : list role :=
  order_by (fun x y => String.compare (role_name x) (role_name y)) (roles d).

Definition role_by_id (rid : Z) (d : db) : option role :=
  fetchone (role_has_id rid) (roles d).

(** [DELETE FROM roles WHERE id = ?]; the assignments of the role go with
    it (ON DELETE CASCADE). *)
Definition delete_role (rid : Z) : SM unit :=
  fun st =>
    (mk_store
       (with_roles (store_db st)
          (sql_delete (role_has_id rid) (roles (store_db st)))
          (roles_seq (store_db st)))
       (if role_exists (store_db st) rid
        then sql_delete (fun ur => ur_role_id ur =? rid) (user_roles st)
        else user_roles st),
     Returned tt).


(** [DELETE FROM user_roles WHERE user_id = ? AND role_id = ?]. *)
Definition remove_role_from_user (user_id0 rid : Z) : SM unit :=
  fun st =>
    (mk_store (store_db st)
       (sql_delete (assignment_at user_id0 rid) (user_roles st)),
     Returned tt).

(** [user_roles ur JOIN roles r ON r.id = ur.role_id WHERE ur.user_id = ?
    ORDER BY ur.assigned_ts ASC]. *)
Definition assignments_of (uid : Z) (st : store) : list (user_role * role) :=
  order_by (fun x y => ur_assigned_ts (fst x) ?= ur_assigned_ts (fst y))
    (flat_map
       (fun ur =>
          map (fun r => (ur, r))
            (sql_select (role_has_id (ur_role_id ur)) (roles (store_db st))))
       (sql_select (fun ur => ur_user_id ur =? uid) (user_roles st))).

(** [SELECT r.* ...]. *)
Definition roles_for_user (uid : Z) (st : store) : list role :=
  map snd (assignments_of uid st).

(** The same query with [LIMIT 1] and [fetchone()]. *)
Definition primary_role_for_user (uid : Z) (st : store) : option role :=
  hd_error (sql_limit 1 (roles_for_user uid st)).



(** The constraints of [roles]: names, slugs and ids are unique. *)
Definition roles_unique (d : db) : Prop :=
  NoDup (map role_name (roles d))
  /\ NoDup (map role_slug (roles d))
  /\ NoDup (map role_id (roles d)).

(** Shape of a slug: no hyphen doubled, none in front, none at the end. *)
Fixpoint no_double_hyphen (s : string) : bool :=
  match s with
  | String a (String b _ as s') =>
      negb (is_hyphen a && is_hyphen b) && no_double_hyphen s'
  | _ => true
  end.

Definition starts_with_hyphen (s : string) : bool :=
  match s with
  | String a _ => is_hyphen a
  | EmptyString => false
  end.

Fixpoint ends_with_hyphen (s : string) : bool :=
  match s with
  | EmptyString => false
  | String a EmptyString => is_hyphen a
  | String _ s' => ends_with_hyphen s'
  end.

(** ** Review listings and profile listings *)

(** A row of [list_reviews_for_show]. *)
Record review_entry := mk_review_entry {
  re_review_text : string;
  re_ts : Z;
  re_user_id : Z;
  re_username : string;
  re_avatar_url : option string;
  re_rating_half : option Z;
  re_role_name : option string;
  re_role_color : option string;
  re_vote_score : Z;
  re_my_vote : option Z
}.

(** The scalar subquery [SELECT rl.<column> FROM user_roles ur JOIN roles
    rl ON rl.id = ur.role_id WHERE ur.user_id = u.id ORDER BY
    ur.assigned_ts ASC LIMIT 1]: the column of the first row, NULL when
    there is no row. *)
Definition first_role_column {A : Type} (column : role -> option A)
    (uid : Z) (st : store) : option A :=
  match hd_error (sql_limit 1 (assignments_of uid st)) with
  | Some (_, rl) => column rl
  | None => None
  end.

(** The scalar subquery [SELECT v.vote FROM review_votes v WHERE v.show_id
    = rv.show_id AND v.review_user_id = rv.user_id AND v.voter_user_id =
    ?]; a NULL viewer is equal to no voter. *)
Definition viewer_vote (d : db) (sid ruid : Z) (viewer_user_id : option Z)
    : option Z :=
  match viewer_user_id with
  | None => None
  | Some vid =>
      hd_error
        (map vote_value
           (sql_select
              (fun v => (vote_show_id v =? sid)
                        && (vote_review_user_id v =? ruid)
                        && (vote_voter_user_id v =? vid))
              (review_votes d)))
  end.

Definition list_reviews_for_show (show_id0 : Z) (viewer_user_id : option Z)
    (limit : Z) (st : store) : list review_entry :=
  let d := store_db st in
  sql_limit limit
    (order_by (fun x y => desc (re_ts x ?= re_ts y))
       (flat_map
          (fun rv =>
             flat_map
               (fun u =>
                  map
                    (fun r =>
                       mk_review_entry (review_text rv) (review_ts rv)
                         (user_id u) (user_username u) (user_avatar_url u)
                         (option_map rating_half r)
                         (first_role_column (fun rl => Some (role_name rl))
                            (user_id u) st)
                         (first_role_column role_color (user_id u) st)
                         (vote_score d (review_show_id rv) (review_user_id rv))
                         (viewer_vote d (review_show_id rv) (review_user_id rv)
                            viewer_user_id))
                    (left_join
                       (rating_at (review_show_id rv) (review_user_id rv))
                       (ratings d)))
               (sql_select (fun u => user_id u =? review_user_id rv) (users d)))
          (sql_select (fun rv => review_show_id rv =? show_id0) (reviews d)))).

(** A row of [recent_ratings_for_user]. *)
Record recent_rating := mk_recent_rating {
  rr_show_id : Z;
  rr_title : string;
  rr_corps : string;
  rr_year : Z;
  rr_poster_url : option string;
  rr_rating_half : Z;
  rr_ts : Z
}.

(** [ratings r JOIN shows s ON s.id = r.show_id WHERE r.user_id = ? ORDER
    BY r.ts DESC LIMIT ?]. *)
Definition recent_ratings_for_user (user_id0 limit : Z) (d : db)
    : list recent_rating :=
  sql_limit limit
    (order_by (fun x y => desc (rr_ts x ?= rr_ts y))
       (flat_map
          (fun r =>
             map
               (fun s =>
                  mk_recent_rating (show_id s) (show_title s) (show_corps s)
                    (show_year s) (show_poster_url s) (rating_half r)
                    (rating_ts r))
               (sql_select (has_id (rating_show_id r)) (shows d)))
          (sql_select (fun r => rating_user_id r =? user_id0) (ratings d)))).

(** A row of [recent_reviews_for_user]. *)
Record recent_review := mk_recent_review {
  rw_show_id : Z;
  rw_title : string;
  rw_corps : string;
  rw_year : Z;
  rw_poster_url : option string;
  rw_review_text : string;
  rw_ts : Z;
  rw_rating_half : option Z
}.

(** [reviews rv JOIN shows s ON s.id = rv.show_id LEFT JOIN ratings r ON
    r.show_id = rv.show_id AND r.user_id = rv.user_id WHERE rv.user_id = ?
    ORDER BY rv.ts DESC LIMIT ?]. *)
Definition recent_reviews_for_user (user_id0 limit : Z) (d : db)
    : list recent_review :=
  sql_limit limit
    (order_by (fun x y => desc (rw_ts x ?= rw_ts y))
       (flat_map
          (fun rv =>
             flat_map
               (fun s =>
                  map
                    (fun r =>
                       mk_recent_review (show_id s) (show_title s)
                         (show_corps s) (show_year s) (show_poster_url s)
                         (review_text rv) (review_ts rv)
                         (option_map rating_half r))
                    (left_join
                       (rating_at (review_show_id rv) (review_user_id rv))
                       (ratings d)))
               (sql_select (has_id (review_show_id rv)) (shows d)))
          (sql_select (fun rv => review_user_id rv =? user_id0) (reviews d)))).

(** A store with one role, given to user 1 at time 1500. *)
Definition badge_store : store :=
  mk_store
    (with_roles ranking_db [mk_role 1 "Veterans!!" "veterans" None 1001] 1)
    [mk_user_role 1 1 1500 (Some 3)].

(** * Properties *)

Unset Implicit Arguments.

(** ** Tables as lists *)

Section TableFacts.
Variable row : Type.
Variable p : row -> bool.

Lemma fetchone_none_select (t : list row) :
  fetchone p t = None <-> sql_select p t = [].
Proof.
  unfold fetchone, sql_select.
  induction t as [|r t IH]; simpl; [tauto|].
  destruct (p r); [split; discriminate | exact IH].
Qed.

Lemma fetchone_none_existsb (t : list row) :
  fetchone p t = None <-> existsb p t = false.
Proof.
  unfold fetchone.
  induction t as [|r t IH]; simpl; [tauto|].
  destruct (p r); simpl; [split; discriminate | exact IH].
Qed.


Lemma fetchone_head_select (t : list row) :
  fetchone p t = hd_error (sql_select p t).
Proof.
  unfold fetchone, sql_select.
  induction t as [|r t IH]; simpl; [reflexivity|].
  destruct (p r); [reflexivity | exact IH].
Qed.

Lemma select_delete (t : list row) : sql_select p (sql_delete p t) = [].
Proof.
  unfold sql_select, sql_delete.
  induction t as [|r t IH]; simpl; [reflexivity|].
  destruct (p r) eqn:E; simpl; [exact IH | rewrite E; exact IH].
Qed.

Lemma select_delete_other (q : row -> bool) (t : list row) :
  (forall r, q r = true -> p r = false) ->
  sql_select q (sql_delete p t) = sql_select q t.
Proof.
  intros Hq. unfold sql_select, sql_delete.
  induction t as [|r t IH]; simpl; [reflexivity|].
  destruct (p r) eqn:E; simpl.
  - destruct (q r) eqn:F; [rewrite (Hq r F) in E; discriminate | exact IH].
  - destruct (q r); [f_equal|]; exact IH.
Qed.

Lemma select_update (f : row -> row) (t : list row) :
  (forall r, p r = true -> p (f r) = true) ->
  sql_select p (sql_update p f t) = map f (sql_select p t).
Proof.
  intros Hf. unfold sql_select, sql_update.
  induction t as [|r t IH]; simpl; [reflexivity|].
  destruct (p r) eqn:E; simpl.
  - rewrite (Hf r E). simpl. f_equal. exact IH.
  - rewrite E. exact IH.
Qed.

Lemma select_update_other (q : row -> bool) (f : row -> row) (t : list row) :
  (forall r, p r = true -> q r = false /\ q (f r) = false) ->
  sql_select q (sql_update p f t) = sql_select q t.
Proof.
  intros Hq. unfold sql_select, sql_update.
  induction t as [|r t IH]; simpl; [reflexivity|].
  destruct (p r) eqn:E.
  - destruct (Hq r E) as [H1 H2]. rewrite H1, H2. exact IH.
  - destruct (q r); [f_equal|]; exact IH.
Qed.

Lemma update_length (f : row -> row) (t : list row) :
  List.length (sql_update p f t) = List.length t.
Proof. apply length_map. Qed.

Lemma select_app (t u : list row) :
  sql_select p (t ++ u) = sql_select p t ++ sql_select p u.
Proof. apply filter_app. Qed.
End TableFacts.

(** ** Vote ledger: the toggle *)

Lemma vote_at_spec sid ruid vuid v :
  vote_at sid ruid vuid v = true <->
  vote_show_id v = sid /\ vote_review_user_id v = ruid
  /\ vote_voter_user_id v = vuid.
Proof. unfold vote_at. rewrite !andb_true_iff, !Z.eqb_eq. tauto. Qed.

Lemma vote_at_other sid ruid vuid sid' ruid' vuid' v :
  (sid', ruid', vuid') <> (sid, ruid, vuid) ->
  vote_at sid' ruid' vuid' v = true -> vote_at sid ruid vuid v = false.
Proof.
  intros Hne H. apply vote_at_spec in H. destruct H as (<- & <- & <-).
  destruct (vote_at sid ruid vuid v) eqn:E; [|reflexivity].
  apply vote_at_spec in E. destruct E as (E1 & E2 & E3).
  exfalso. apply Hne. rewrite E1, E2, E3. reflexivity.
Qed.


Lemma set_review_vote_refs now sid ruid vuid vote d s r u :
  refs_exist d s r u ->
  refs_exist (run (set_review_vote now sid ruid vuid vote) d) s r u.
Proof.
  unfold refs_exist, run, set_review_vote, insert_review_vote,
    show_exists, user_exists.
  destruct (fetchone _ _) as [cur|].
  - destruct (_ =? _); simpl; tauto.
  - destruct (existsb (vote_at _ _ _) _); simpl; [tauto|].
    destruct (_ && _); simpl; tauto.
Qed.

Lemma set_review_vote_state now sid ruid vuid vote d :
  refs_exist d sid ruid vuid ->
  vote_state sid ruid vuid (run (set_review_vote now sid ruid vuid vote) d)
  = toggle (vote_state sid ruid vuid d) (normalize_vote vote).
Proof.
  intros (Hs & Hr & Hu).
  unfold vote_state, run, set_review_vote, insert_review_vote.
  destruct (fetchone (vote_at sid ruid vuid) (review_votes d)) as [cur|] eqn:E;
    simpl.
  - destruct (vote_value cur =? normalize_vote vote) eqn:F; simpl.
    + rewrite fetchone_head_select, select_delete. reflexivity.
    + rewrite fetchone_head_select, select_update.
      * rewrite fetchone_head_select in E.
        destruct (sql_select _ _); [discriminate|]. reflexivity.
      * intros r Hr'. apply vote_at_spec in Hr'. apply vote_at_spec.
        simpl. exact Hr'.
  - pose proof E as E'. apply fetchone_none_existsb in E'. rewrite E'.
    rewrite Hs, Hr, Hu. simpl.
    rewrite fetchone_head_select, select_app.
    apply fetchone_none_select in E. rewrite E. simpl.
    assert (H : vote_at sid ruid vuid
                  (mk_review_vote sid ruid vuid (normalize_vote vote) now)
                = true) by (apply vote_at_spec; simpl; auto).
    rewrite H. reflexivity.
Qed.



(** C10, as stated, fails: from a stored +1, voting -1 twice first
    switches the row to -1 and then deletes it; the key ends with no row,
    not with the +1 it started from. *)
Lemma set_review_vote_twice_counterexample :
  vote_state 1 1 2 upvoted_db = Some 1
  /\ vote_state 1 1 2
       (run (set_review_vote 1003 1 1 2 (-1))
          (run (set_review_vote 1002 1 1 2 (-1)) upvoted_db))
     = None
  /\ vote_state 1 1 2
       (run (set_review_vote 1003 1 1 2 (-1))
          (run (set_review_vote 1002 1 1 2 (-1)) upvoted_db))
     <> vote_state 1 1 2 upvoted_db.
Proof.
  split; [reflexivity|]. split; [reflexivity|].
  intro H. vm_compute in H. discriminate H.
Qed.

(** C10, amended: applying [set_review_vote] twice with the same vote
    brings the key back to its starting state when it starts with no row
    or with a row holding the normalized vote; when it starts with another
    (the opposite) vote, it ends with no row. *)
Theorem set_review_vote_twice now1 now2 sid ruid vuid vote d :
  refs_exist d sid ruid vuid ->
  vote_state sid ruid vuid
    (run (set_review_vote now2 sid ruid vuid vote)
       (run (set_review_vote now1 sid ruid vuid vote) d))
  = match vote_state sid ruid vuid d with
    | None => None
    | Some existing =>
        if existing =? normalize_vote vote then Some existing else None
    end.
Proof.
  intros Hrefs.
  rewrite set_review_vote_state by (apply set_review_vote_refs; exact Hrefs).
  rewrite set_review_vote_state by exact Hrefs.
  destruct (vote_state sid ruid vuid d) as [e|]; simpl.
  - destruct (e =? normalize_vote vote) eqn:E; simpl.
    + apply Z.eqb_eq in E. congruence.
    + rewrite Z.eqb_refl. reflexivity.
  - rewrite Z.eqb_refl. reflexivity.
Qed.

Lemma set_review_vote_twice_witness :
  vote_state 1 1 2
    (run (set_review_vote 1003 1 1 2 5)
       (run (set_review_vote 1002 1 1 2 5) upvoted_db))
  = Some 1.
Proof.
  assert (Hrefs : refs_exist upvoted_db 1 1 2)
    by (repeat split; reflexivity).
  exact (@set_review_vote_twice 1002 1003 1 1 2 5 upvoted_db Hrefs).
Defined.

(** ** Rating ledger *)

Lemma rating_at_spec sid uid r :
  rating_at sid uid r = true <-> rating_show_id r = sid /\ rating_user_id r = uid.
Proof. unfold rating_at. rewrite andb_true_iff, !Z.eqb_eq. tauto. Qed.

Lemma clamp_half_cases v :
  clamp_half v = if v <? 0 then 0 else if 10 <? v then 10 else v.
Proof.
  unfold clamp_half.
  destruct (Z.ltb_spec v 0); destruct (Z.ltb_spec 10 v); lia.
Qed.

(** What one [upsert_rating] leaves for its key, on a store that respects
    the uniqueness constraint and holds the show and the user. *)
Lemma upsert_rating_once now sid uid v d :
  ratings_pk d ->
  show_exists d sid = true -> user_exists d uid = true ->
  upsert_rating now sid uid v d
  = (run (upsert_rating now sid uid v) d, Returned tt)
  /\ ratings_for sid uid (run (upsert_rating now sid uid v) d)
     = [mk_rating sid uid (clamp_half v) now].
Proof.
  intros Hpk Hs Hu.
  assert (Hnew : rating_at sid uid (mk_rating sid uid (clamp_half v) now)
                 = true) by (apply rating_at_spec; simpl; auto).
  unfold run, ratings_for, upsert_rating, upsert_rating_row.
  destruct (existsb (rating_at sid uid) (ratings d)) eqn:E; simpl.
  - split; [reflexivity|].
    rewrite select_update.
    + specialize (Hpk sid uid). unfold ratings_for in Hpk.
      destruct (sql_select (rating_at sid uid) (ratings d)) as [|x [|y l]] eqn:F.
      * apply fetchone_none_select in F. apply fetchone_none_existsb in F.
        congruence.
      * assert (Hx : rating_at sid uid x = true).
        { assert (Hin : In x (sql_select (rating_at sid uid) (ratings d)))
            by (rewrite F; left; reflexivity).
          apply filter_In in Hin. tauto. }
        apply rating_at_spec in Hx. destruct Hx as [H1 H2]. simpl.
        rewrite H1, H2. reflexivity.
      * simpl in Hpk. lia.
    + intros r Hr. apply rating_at_spec in Hr. apply rating_at_spec.
      simpl. exact Hr.
  - rewrite Hs, Hu. simpl. split; [reflexivity|].
    rewrite select_app.
    apply fetchone_none_existsb in E. apply fetchone_none_select in E.
    rewrite E. simpl. rewrite Hnew. reflexivity.
Qed.

Lemma upsert_rating_refs now sid uid v d s u :
  show_exists d s = true /\ user_exists d u = true ->
  show_exists (run (upsert_rating now sid uid v) d) s = true
  /\ user_exists (run (upsert_rating now sid uid v) d) u = true.
Proof.
  unfold run, upsert_rating, upsert_rating_row, show_exists, user_exists.
  destruct (existsb (rating_at sid uid) (ratings d)); simpl; [tauto|].
  destruct (_ && _); simpl; tauto.
Qed.

Lemma rating_at_other sid uid s u r :
  (s, u) <> (sid, uid) ->
  rating_at sid uid r = true -> rating_at s u r = false.
Proof.
  intros Hne H. apply rating_at_spec in H. destruct H as [H1 H2].
  destruct (rating_at s u r) eqn:G; [|reflexivity].
  apply rating_at_spec in G. destruct G as [G1 G2].
  exfalso. apply Hne. congruence.
Qed.

Lemma upsert_rating_pk now sid uid v d :
  ratings_pk d -> ratings_pk (run (upsert_rating now sid uid v) d).
Proof.
  intros Hpk s u. pose proof (Hpk s u) as Hsu. revert Hsu.
  unfold run, ratings_for, upsert_rating, upsert_rating_row.
  assert (Hkey : forall h t r, rating_at sid uid r = true ->
            rating_at sid uid
              (mk_rating (rating_show_id r) (rating_user_id r) h t) = true).
  { intros h t r Hr. apply rating_at_spec in Hr. apply rating_at_spec.
    simpl. exact Hr. }
  destruct (existsb (rating_at sid uid) (ratings d)) eqn:E; simpl.
  - intros Hsu.
    destruct (Z.eq_dec s sid) as [->|Hs]; [destruct (Z.eq_dec u uid) as [->|Hu]|].
    + rewrite select_update by (apply Hkey). rewrite length_map. exact Hsu.
    + rewrite select_update_other; [exact Hsu|].
      intros r Hr.
      split; (apply (@rating_at_other sid uid); [congruence|]);
        [exact Hr | apply Hkey; exact Hr].
    + rewrite select_update_other; [exact Hsu|].
      intros r Hr.
      split; (apply (@rating_at_other sid uid); [congruence|]);
        [exact Hr | apply Hkey; exact Hr].
  - destruct (_ && _); simpl; [|tauto].
    intros Hsu. rewrite select_app. simpl.
    destruct (rating_at s u (mk_rating sid uid (clamp_half v) now)) eqn:K;
      [|rewrite app_nil_r; exact Hsu].
    apply rating_at_spec in K. simpl in K. destruct K as [<- <-].
    apply fetchone_none_existsb in E. apply fetchone_none_select in E.
    rewrite E. simpl. lia.
Qed.

(** C6: [upsert_rating] clamps its input to [0,10] and, for a show and a
    user that are stored, returns normally; after
    [upsert_rating(show, user, v)] and [upsert_rating(show, user, v2)] the
    pair has exactly one rating row, holding the clamp of [v2]. *)
Theorem upsert_rating_twice now1 now2 sid uid v v2 d :
  ratings_pk d ->
  show_exists d sid = true -> user_exists d uid = true ->
  let d1 := run (upsert_rating now1 sid uid v) d in
  let d2 := run (upsert_rating now2 sid uid v2) d1 in
  0 <= clamp_half v2 <= 10
  /\ clamp_half v2 = (if v2 <? 0 then 0 else if 10 <? v2 then 10 else v2)
  /\ result (upsert_rating now1 sid uid v) d = Returned tt
  /\ result (upsert_rating now2 sid uid v2) d1 = Returned tt
  /\ ratings_for sid uid d2 = [mk_rating sid uid (clamp_half v2) now2].
Proof.
  intros Hpk Hs Hu d1 d2.
  destruct (@upsert_rating_once now1 sid uid v d Hpk Hs Hu) as [R1 _].
  destruct (@upsert_rating_refs now1 sid uid v d sid uid (conj Hs Hu))
    as [Hs1 Hu1].
  pose proof (@upsert_rating_pk now1 sid uid v d Hpk) as Hpk1.
  destruct (@upsert_rating_once now2 sid uid v2 _ Hpk1 Hs1 Hu1) as [R2 S2].
  split; [unfold clamp_half; lia|].
  split; [apply clamp_half_cases|].
  unfold result. fold d1. rewrite R1. fold d1 in R2. rewrite R2.
  repeat split. exact S2.
Qed.

Lemma upsert_rating_twice_witness :
  ratings_for 1 2
    (run (upsert_rating 1002 1 2 13) (run (upsert_rating 1001 1 2 7) demo_db))
  = [mk_rating 1 2 10 1002].
Proof.
  assert (Hpk : ratings_pk demo_db) by (intros s u; simpl; lia).
  pose proof (@upsert_rating_twice 1001 1002 1 2 7 13 demo_db Hpk
                eq_refl eq_refl) as H.
  simpl in H. destruct H as (_ & _ & _ & _ & H). exact H.
Defined.

(** ** Review ledger *)

Lemma is_empty_spec s : is_empty s = true <-> s = "".
Proof. destruct s; simpl; split; congruence. Qed.

Lemma review_at_spec sid uid r :
  review_at sid uid r = true <-> review_show_id r = sid /\ review_user_id r = uid.
Proof. unfold review_at. rewrite andb_true_iff, !Z.eqb_eq. tauto. Qed.

(** The insert-or-overwrite statement leaves one row for its key. *)
Lemma upsert_review_row_stored sid uid text now d :
  reviews_pk d ->
  show_exists d sid = true -> user_exists d uid = true ->
  result (upsert_review_row sid uid text now) d = Returned tt
  /\ reviews_for sid uid (run (upsert_review_row sid uid text now) d)
     = [mk_review sid uid text now].
Proof.
  intros Hpk Hs Hu.
  assert (Hnew : review_at sid uid (mk_review sid uid text now) = true)
    by (apply review_at_spec; simpl; auto).
  unfold result, run, reviews_for, upsert_review_row.
  destruct (existsb (review_at sid uid) (reviews d)) eqn:E; simpl.
  - split; [reflexivity|].
    rewrite select_update.
    + specialize (Hpk sid uid). unfold reviews_for in Hpk.
      destruct (sql_select (review_at sid uid) (reviews d)) as [|x [|y l]] eqn:F.
      * apply fetchone_none_select in F. apply fetchone_none_existsb in F.
        congruence.
      * assert (Hx : review_at sid uid x = true).
        { assert (Hin : In x (sql_select (review_at sid uid) (reviews d)))
            by (rewrite F; left; reflexivity).
          apply filter_In in Hin. tauto. }
        apply review_at_spec in Hx. destruct Hx as [H1 H2]. simpl.
        rewrite H1, H2. reflexivity.
      * simpl in Hpk. lia.
    + intros r Hr. apply review_at_spec in Hr. apply review_at_spec.
      simpl. exact Hr.
  - rewrite Hs, Hu. simpl. split; [reflexivity|].
    rewrite select_app.
    apply fetchone_none_existsb in E. apply fetchone_none_select in E.
    rewrite E. simpl. rewrite Hnew. reflexivity.
Qed.

Lemma upsert_review_row_not_value_error sid uid text now d msg :
  result (upsert_review_row sid uid text now) d <> Raised (ValueError msg).
Proof.
  unfold result, upsert_review_row.
  destruct (existsb _ _); simpl; [discriminate|].
  destruct (_ && _); simpl; discriminate.
Qed.

(** C7: [upsert_review] trims the text and raises [ValueError] exactly
    when the trimmed text is empty or longer than 5000 characters, and
    then writes nothing; otherwise, for a stored show and user, it stores
    the trimmed text as the one review of the pair.  In particular a
    trimmed text of 5000 characters is stored and one of 5001 characters
    is refused. *)
Theorem upsert_review_validation now sid uid text d :
  let t := strip text in
  let stored :=
    result (upsert_review now sid uid text) d = Returned tt
    /\ reviews_for sid uid (run (upsert_review now sid uid text) d)
       = [mk_review sid uid t now] in
  let refused :=
    exists msg,
      result (upsert_review now sid uid text) d = Raised (ValueError msg) in
  (refused <-> t = "" \/ 5000 < len t)
  /\ (refused -> run (upsert_review now sid uid text) d = d)
  /\ (reviews_pk d -> show_exists d sid = true -> user_exists d uid = true ->
      (t <> "" /\ len t <= 5000 -> stored) /\ (len t = 5000 -> stored))
  /\ (len t = 5001 -> refused).
Proof.
  intros t stored refused.
  assert (Hiff : refused <-> t = "" \/ 5000 < len t).
  { subst refused. unfold upsert_review. fold t.
    destruct (is_empty t) eqn:E.
    - split; [intros _; left; apply is_empty_spec; exact E|].
      intros _. eexists. reflexivity.
    - assert (Hne : t <> "")
        by (intros H; apply is_empty_spec in H; congruence).
      destruct (len t >? 5000) eqn:F.
      + split; [intros _; right; apply Z.gtb_lt in F; lia|].
        intros _. eexists. reflexivity.
      + split.
        * intros [msg H].
          exfalso. exact (@upsert_review_row_not_value_error _ _ _ _ _ _ H).
        * intros [H|H]; [contradiction|].
          assert ((len t >? 5000) = true) by (apply Z.gtb_lt; lia). congruence. }
  split; [exact Hiff|].
  assert (Hstored : reviews_pk d -> show_exists d sid = true ->
                    user_exists d uid = true ->
                    t <> "" /\ len t <= 5000 -> stored).
  { intros Hpk Hs Hu [Hne Hle]. subst stored. unfold upsert_review. fold t.
    destruct (is_empty t) eqn:E; [apply is_empty_spec in E; contradiction|].
    destruct (len t >? 5000) eqn:F; [apply Z.gtb_lt in F; lia|].
    apply upsert_review_row_stored; assumption. }
  split; [|split].
  - intros Href. apply Hiff in Href. unfold run, upsert_review. fold t.
    destruct (is_empty t) eqn:E; [reflexivity|].
    destruct (len t >? 5000) eqn:F; [reflexivity|].
    destruct Href as [H|H].
    + apply is_empty_spec in H. congruence.
    + assert ((len t >? 5000) = true) by (apply Z.gtb_lt; lia). congruence.
  - intros Hpk Hs Hu. split; [apply Hstored; assumption|].
    intros H5000. apply Hstored; try assumption.
    split; [|lia]. intros H. rewrite H in H5000. discriminate.
  - intros H5001. apply Hiff. right. lia.
Qed.

Lemma upsert_review_validation_witness :
  result
    (upsert_review 1002 1 2 (" " ++ replicate 5000 "a" ++ " ")%string)
    demo_db
  = Returned tt.
Proof.
  assert (Hpk : reviews_pk demo_db) by (intros s u; simpl; lia).
  apply (@upsert_review_validation 1002 1 2
           (" " ++ replicate 5000 "a" ++ " ")%string demo_db).
  - exact Hpk.
  - reflexivity.
  - reflexivity.
  - vm_compute. reflexivity.
Defined.

(** ** Python strings *)

Section StripFacts.
Variable drop : ascii -> bool.

Lemma lstrip_by_head s c r :
  lstrip_by drop s = String c r -> drop c = false.
Proof.
  induction s as [|a s IH]; simpl; [discriminate|].
  destruct (drop a) eqn:E; [exact IH|].
  intros H. injection H as <- _. exact E.
Qed.

Lemma lstrip_by_kept c s :
  drop c = false -> lstrip_by drop (String c s) = String c s.
Proof. intros H. simpl. rewrite H. reflexivity. Qed.

Lemma rstrip_by_kept c s :
  drop c = false -> exists r, rstrip_by drop (String c s) = String c r.
Proof.
  intros H. simpl. destruct (rstrip_by drop s) as [|a r].
  - rewrite H. eexists. reflexivity.
  - eexists. reflexivity.
Qed.

Lemma rstrip_by_idem s :
  rstrip_by drop (rstrip_by drop s) = rstrip_by drop s.
Proof.
  induction s as [|c s IH]; simpl; [reflexivity|].
  destruct (rstrip_by drop s) as [|a r] eqn:E.
  - destruct (drop c) eqn:F; simpl; [reflexivity|]. rewrite F. reflexivity.
  - change (rstrip_by drop (String c (String a r)))
      with (match rstrip_by drop (String a r) with
            | EmptyString =>
                if drop c then EmptyString else String c EmptyString
            | r' => String c r'
            end).
    rewrite IH. reflexivity.
Qed.

Lemma strip_by_idem s : strip_by drop (strip_by drop s) = strip_by drop s.
Proof.
  unfold strip_by.
  destruct (lstrip_by drop s) as [|c r] eqn:E; [reflexivity|].
  pose proof (lstrip_by_head _ _ _ E) as Hc.
  destruct (rstrip_by_kept c r Hc) as [r' Hr]. rewrite Hr.
  rewrite lstrip_by_kept by exact Hc. rewrite <- Hr.
  apply rstrip_by_idem.
Qed.
End StripFacts.

Lemma strip_idem s : strip (strip s) = strip s.
Proof. apply strip_by_idem. Qed.

Lemma norm_strip s : norm (strip s) = norm s.
Proof. unfold norm. rewrite strip_idem. reflexivity. Qed.

Lemma norm_key_strip year corps title :
  norm_key year (strip corps) (strip title) = norm_key year corps title.
Proof. unfold norm_key. rewrite !norm_strip. reflexivity. Qed.

(** ** Show catalog *)

(** C9, as stated, fails: with a blank corps [add_show] raises nothing; it
    returns the tuple (False, None, "Missing corps or title.") and leaves
    the store as it was. *)
Lemma add_show_missing_counterexample :
  add_show 1001 2017 "   " "Metamorph" None demo_db
  = (demo_db, Returned (false, None, "Missing corps or title.")).
Proof. reflexivity. Qed.

(** C9, amended: [add_show] trims corps and title and, when either is
    empty after trimming, returns the failure tuple (not created, no show
    id, status "Missing corps or title.") without raising, and inserts no
    show row: the store is unchanged. *)
Theorem add_show_missing now year corps title poster_url d :
  strip corps = "" \/ strip title = "" ->
  add_show now year corps title poster_url d
  = (d, Returned (false, None, "Missing corps or title.")).
Proof.
  intros H. unfold add_show.
  assert (E : is_empty (strip corps) || is_empty (strip title) = true).
  { apply orb_true_iff. rewrite !is_empty_spec. exact H. }
  rewrite E. reflexivity.
Qed.

Lemma add_show_missing_witness :
  add_show 1001 2017 "Blue Devils" " " (Some "p.png") demo_db
  = (demo_db, Returned (false, None, "Missing corps or title.")).
Proof.
  apply (@add_show_missing 1001 2017 "Blue Devils" " " (Some "p.png") demo_db).
  right. reflexivity.
Defined.

Lemma has_norm_key_spec key s : has_norm_key key s = true <-> show_norm_key s = key.
Proof. apply String.eqb_eq. Qed.

Lemma next_rowid_fresh ids : ~ In (next_rowid ids) ids.
Proof.
  assert (Hmax : forall i l x, In x (i :: l) -> x <= fold_right Z.max i l).
  { intros i l. induction l as [|a l IH]; simpl; intros x [H|H].
    - lia.
    - contradiction.
    - specialize (IH x (or_introl H)). lia.
    - destruct H as [H|H]; [lia|]. specialize (IH x (or_intror H)). lia. }
  destruct ids as [|i l]; [intros []|].
  intros H. apply Hmax in H. unfold next_rowid in H. lia.
Qed.

Lemma shows_with_key_absent key l :
  existsb (has_norm_key key) l = false ->
  sql_select (has_norm_key key) l = [] /\ ~ In key (map show_norm_key l).
Proof.
  intros E. split.
  - apply fetchone_none_select, fetchone_none_existsb. exact E.
  - intros H. apply in_map_iff in H. destruct H as (s & Hs & Hin).
    assert (existsb (has_norm_key key) l = true).
    { apply existsb_exists. exists s. split; [exact Hin|].
      apply has_norm_key_spec. exact Hs. }
    congruence.
Qed.

Lemma shows_with_key_one key l :
  NoDup (map show_norm_key l) ->
  existsb (has_norm_key key) l = true ->
  exists e, sql_select (has_norm_key key) l = [e].
Proof.
  unfold sql_select.
  induction l as [|r l IH]; simpl; [discriminate|].
  intros Hnd E. inversion Hnd as [|k ks Hnotin Hnd']; subst.
  destruct (has_norm_key key r) eqn:F.
  - exists r. f_equal.
    apply has_norm_key_spec in F. rewrite F in Hnotin.
    destruct (existsb (has_norm_key key) l) eqn:G.
    + exfalso. apply Hnotin. apply existsb_exists in G.
      destruct G as (s & Hin & Hs). apply has_norm_key_spec in Hs.
      rewrite <- Hs. apply in_map. exact Hin.
    + apply (shows_with_key_absent _ _ G).
  - simpl in E. apply IH; assumption.
Qed.

(** Under the constraints, the row with the id of the show stored under a
    key is that show. *)
Lemma id_selects_key key l e :
  NoDup (map show_id l) ->
  sql_select (has_norm_key key) l = [e] ->
  forall s, In s l ->
    (show_id s =? show_id e) = has_norm_key key s.
Proof.
  intros Hnd Hsel s Hin.
  assert (He : In e l /\ has_norm_key key e = true).
  { apply filter_In. unfold sql_select in Hsel. rewrite Hsel. left. reflexivity. }
  destruct He as [Hine Hkey].
  destruct (has_norm_key key s) eqn:F.
  - assert (Hs : In s (sql_select (has_norm_key key) l))
      by (apply filter_In; split; assumption).
    rewrite Hsel in Hs. destruct Hs as [<-|[]]. apply Z.eqb_refl.
  - apply Z.eqb_neq. intros Hid.
    assert (s = e).
    { clear Hsel. induction l as [|a l IH]; [contradiction|].
      simpl in Hnd. inversion Hnd as [|i il Hnotin Hnd']; subst.
      destruct Hin as [->|Hin]; destruct Hine as [->|Hine]; auto.
      - exfalso. apply Hnotin. rewrite Hid. apply in_map. exact Hine.
      - exfalso. apply Hnotin. rewrite <- Hid. apply in_map. exact Hin. }
    subst s. congruence.
Qed.

Lemma set_poster_keeps p (q : show -> bool) l :
  map show_norm_key (sql_update q (set_poster p) l) = map show_norm_key l
  /\ map show_id (sql_update q (set_poster p) l) = map show_id l.
Proof.
  unfold sql_update. rewrite !map_map.
  split; apply map_ext; intros s; destruct (q s); reflexivity.
Qed.


Lemma not_empty_spec s : s <> "" -> is_empty s = false.
Proof.
  intros H. destruct (is_empty s) eqn:E; [|reflexivity].
  apply is_empty_spec in E. contradiction.
Qed.

(** The insert path of [add_show]: the key is not stored yet. *)
Lemma add_show_insert_step now year corps title poster_url d :
  strip corps <> "" -> strip title <> "" ->
  existsb (has_norm_key (norm_key year corps title)) (shows d) = false ->
  let id := next_rowid (map show_id (shows d)) in
  add_show now year corps title poster_url d
  = (with_shows d
       (shows d ++
        [mk_show id (strip title) (strip corps) year
           (or_none (strip (or_empty poster_url)))
           (norm_key year corps title) now]),
     Returned (true, Some id, "Inserted")).
Proof.
  intros Hc Ht Hex id. unfold add_show.
  rewrite (not_empty_spec _ Hc), (not_empty_spec _ Ht).
  change (false || false) with false. cbv beta iota.
  rewrite norm_key_strip. unfold insert_show. rewrite Hex. reflexivity.
Qed.




(** ** Role directory *)

Lemma append_cancel_l (s a b : string) : (s ++ a = s ++ b)%string -> a = b.
Proof.
  induction s as [|c s IH]; simpl; [auto|].
  intros H. injection H as H. exact (IH H).
Qed.

Lemma append_grows (s : string) c t : s <> (s ++ String c t)%string.
Proof.
  induction s as [|a s IH]; simpl; [discriminate|].
  intros H. injection H as H. exact (IH H).
Qed.

Lemma to_int_not_nil n :
  Z.to_int n <> Decimal.Pos Decimal.Nil /\ Z.to_int n <> Decimal.Neg Decimal.Nil.
Proof.
  split; intros H; pose proof (DecimalZ.of_to n) as E; rewrite H in E;
    simpl in E; subst n; discriminate H.
Qed.

Lemma str_of_int_inj n m : str_of_int n = str_of_int m -> n = m.
Proof.
  unfold str_of_int. intros H.
  apply DecimalZ.to_int_inj.
  assert (E : Some (Z.to_int n) = Some (Z.to_int m)).
  { rewrite <- (NilZero.isi (Z.to_int n)) by apply to_int_not_nil.
    rewrite <- (NilZero.isi (Z.to_int m)) by apply to_int_not_nil.
    rewrite H. reflexivity. }
  injection E as E. exact E.
Qed.

Lemma numbered_inj base n m : numbered base n = numbered base m -> n = m.
Proof.
  unfold numbered. intros H. apply append_cancel_l in H.
  simpl in H. injection H as H. apply str_of_int_inj. exact H.
Qed.

Lemma numbered_not_base base n : base <> numbered base n.
Proof. unfold numbered. simpl. apply append_grows. Qed.

Lemma candidates_in base n k s :
  In s (candidates base n k) ->
  exists m, s = numbered base m /\ n <= m < n + Z.of_nat k.
Proof.
  revert n. induction k as [|k IH]; simpl; intros n; [intros []|].
  intros [<-|H].
  - exists n. split; [reflexivity | lia].
  - destruct (IH _ H) as (m & -> & Hm). exists m. split; [reflexivity | lia].
Qed.

Lemma candidates_nodup base n k : NoDup (base :: candidates base n k).
Proof.
  constructor.
  - intros H. apply candidates_in in H. destruct H as (m & H & _).
    exact (numbered_not_base _ _ H).
  - revert n. induction k as [|k IH]; simpl; intros n; constructor.
    + intros H. apply candidates_in in H. destruct H as (m & H & Hm).
      apply numbered_inj in H. lia.
    + apply IH.
Qed.

Lemma candidates_length base n k : List.length (candidates base n k) = k.
Proof. revert n. induction k as [|k IH]; simpl; intros n; [|rewrite IH]; reflexivity. Qed.

Lemma slug_taken_spec d slug :
  slug_taken d slug = true <-> In slug (map role_slug (roles d)).
Proof.
  unfold slug_taken. rewrite existsb_exists, in_map_iff.
  split; intros (r & H1 & H2); exists r.
  - apply String.eqb_eq in H2. tauto.
  - rewrite String.eqb_eq. tauto.
Qed.

(** A loop that runs out of fuel has found every slug it tried taken. *)
Lemma unique_slug_none fuel d base slug n :
  unique_slug (S fuel) d base slug n = None ->
  forall s, In s (slug :: candidates base n fuel) -> slug_taken d s = true.
Proof.
  revert slug n. induction fuel as [|fuel IH]; intros slug n.
  - simpl. destruct (slug_taken d slug) eqn:E; [|discriminate].
    intros _ s [<-|[]]. exact E.
  - change (unique_slug (S (S fuel)) d base slug n)
      with (if slug_taken d slug
            then unique_slug (S fuel) d base (numbered base n) (n + 1)
            else Some slug).
    destruct (slug_taken d slug) eqn:E; [|discriminate].
    intros H s [<-|Hin]; [exact E|].
    exact (IH _ _ H s Hin).
Qed.

(** The slug the loop ends with is free, and is the first free one of
    [slug], [base-n], [base-(n+1)], ... *)
Lemma unique_slug_some fuel d base slug n s :
  unique_slug fuel d base slug n = Some s ->
  slug_taken d s = false
  /\ (s = slug
      \/ exists m, n <= m /\ s = numbered base m
                   /\ slug_taken d slug = true
                   /\ forall j, n <= j < m ->
                        slug_taken d (numbered base j) = true).
Proof.
  revert slug n. induction fuel as [|fuel IH]; intros slug n; simpl;
    [discriminate|].
  destruct (slug_taken d slug) eqn:E.
  - intros H. destruct (IH _ _ H) as [Hfree [->|(m & Hm & -> & Ht & Hall)]].
    + split; [exact Hfree|]. right. exists n.
      repeat split; [lia | intros j Hj; lia].
    + split; [exact Hfree|]. right. exists m.
      repeat split; [lia|]. intros j Hj.
      destruct (Z.eq_dec j n) as [->|Hne]; [exact Ht | apply Hall; lia].
  - intros H. injection H as <-. split; [exact E | left; reflexivity].
Qed.

(** The bound of [create_role] is enough: the loop always ends. *)
Lemma unique_slug_terminates d base :
  exists s, unique_slug (S (List.length (roles d))) d base base 2 = Some s.
Proof.
  destruct (unique_slug (S (List.length (roles d))) d base base 2) as [s|] eqn:E;
    [exists s; reflexivity|].
  exfalso.
  pose proof (unique_slug_none _ _ _ _ _ E) as Hall.
  assert (Hincl : incl (base :: candidates base 2 (List.length (roles d)))
                    (map role_slug (roles d))).
  { intros s Hs. apply slug_taken_spec. apply Hall. exact Hs. }
  pose proof (NoDup_incl_length (candidates_nodup base 2 _) Hincl) as Hlen.
  simpl in Hlen. rewrite candidates_length, length_map in Hlen. lia.
Qed.

Section SlugChars.
Variable p : ascii -> bool.

Lemma all_chars_append s t :
  all_chars p s = true -> all_chars p t = true ->
  all_chars p (s ++ t)%string = true.
Proof.
  induction s as [|c s IH]; simpl; [auto|].
  rewrite !andb_true_iff. intros [H1 H2] Ht. split; [exact H1 | auto].
Qed.

Lemma all_chars_lstrip drop s :
  all_chars p s = true -> all_chars p (lstrip_by drop s) = true.
Proof.
  induction s as [|c s IH]; simpl; [auto|].
  intros H. destruct (drop c); [|exact H].
  apply andb_true_iff in H. apply IH, H.
Qed.

Lemma all_chars_rstrip drop s :
  all_chars p s = true -> all_chars p (rstrip_by drop s) = true.
Proof.
  induction s as [|c s IH]; simpl; [auto|].
  intros H. apply andb_true_iff in H. destruct H as [H1 H2].
  specialize (IH H2). destruct (rstrip_by drop s) as [|a r].
  - destruct (drop c); simpl; [reflexivity|]. rewrite H1. reflexivity.
  - simpl in *. rewrite H1. exact IH.
Qed.
End SlugChars.

Lemma sub_runs_slug_chars in_run s :
  all_chars is_slug_char (sub_runs not_slug_char "-" in_run s) = true.
Proof.
  revert in_run. induction s as [|c s IH]; intros in_run; simpl; [reflexivity|].
  destruct (not_slug_char c) eqn:E.
  - destruct in_run; [apply IH|]. simpl. apply IH.
  - simpl. rewrite IH, andb_true_r. unfold is_slug_char.
    unfold not_slug_char in E. apply negb_false_iff in E. rewrite E.
    reflexivity.
Qed.

Lemma _slugify_chars name :
  all_chars is_slug_char (_slugify name) = true /\ _slugify name <> "".
Proof.
  unfold _slugify.
  destruct (is_empty _) eqn:E.
  - split; [reflexivity | discriminate].
  - split.
    + unfold strip_by. apply all_chars_rstrip, all_chars_lstrip.
      apply sub_runs_slug_chars.
    + intros H. apply is_empty_spec in H. congruence.
Qed.

(** C8, as stated, fails: the second role named "Veterans!!" is refused
    by the uniqueness constraint on [name]; no second role is stored. *)
Lemma create_role_same_name_counterexample :
  create_role 1001 "Veterans!!" "" empty_db = Some (veterans_db, Returned tt)
  /\ create_role 1002 "Veterans!!" "" veterans_db
     = Some (veterans_db, Raised IntegrityError).
Proof. split; reflexivity. Qed.

(** C8, amended: creating the role "Veterans!!" and then a role of another
    name with the same slug ("veterans") succeeds and stores the slugs
    [veterans] and [veterans-2]; a second role of a stored name is refused
    by the uniqueness constraint on the name and nothing is stored.  For
    every non-blank name the loop of [create_role] ends; the slug is made
    of lower-case letters, digits and hyphens, is not empty, is free, and
    is the first free one of [base], [base-2], [base-3], ... *)
Theorem create_role_slugs :
  (create_role 1001 "Veterans!!" "" empty_db = Some (veterans_db, Returned tt)
   /\ create_role 1002 "veterans" "" veterans_db
      = Some (with_roles veterans_db
                [mk_role 1 "Veterans!!" "veterans" None 1001;
                 mk_role 2 "veterans" "veterans-2" None 1002] 2,
              Returned tt))
  /\ forall now name color d,
       strip name <> "" ->
       let nm := strip name in
       let base := _slugify nm in
       let col := or_none (_clean_hex_color color) in
       let name_stored :=
         existsb (fun r => String.eqb (role_name r) nm) (roles d) in
       (all_chars is_slug_char base = true /\ base <> "")
       /\ exists slug,
            create_role now name color d = Some (insert_role nm slug col now d)
            /\ slug_taken d slug = false
            /\ (slug = base
                \/ exists n, 2 <= n /\ slug = numbered base n
                     /\ slug_taken d base = true
                     /\ forall j, 2 <= j < n ->
                          slug_taken d (numbered base j) = true)
            /\ (name_stored = true ->
                insert_role nm slug col now d = (d, Raised IntegrityError))
            /\ (name_stored = false ->
                exists id,
                  insert_role nm slug col now d
                  = (with_roles d (roles d ++ [mk_role id nm slug col now]) id,
                     Returned tt)).
Proof.
  split; [split; reflexivity|].
  intros now name color d Hname nm base col name_stored.
  split; [apply _slugify_chars|].
  destruct (unique_slug_terminates d base) as [slug Hslug].
  exists slug.
  destruct (unique_slug_some _ _ _ _ _ _ Hslug) as [Hfree Hfirst].
  split.
  { unfold create_role, create_role_fuel.
    rewrite (not_empty_spec _ Hname). subst col base nm.
    rewrite Hslug. reflexivity. }
  split; [exact Hfree|]. split; [exact Hfirst|].
  assert (Hsplit : existsb
            (fun r => String.eqb (role_name r) nm
                      || String.eqb (role_slug r) slug) (roles d)
          = name_stored).
  { subst name_stored. unfold slug_taken in Hfree. revert Hfree.
    clear Hslug Hfirst.
    induction (roles d) as [|r l IH]; simpl; [reflexivity|].
    intros H. apply orb_false_iff in H. destruct H as [H1 H2].
    rewrite H1, orb_false_r, (IH H2). reflexivity. }
  unfold insert_role. rewrite Hsplit. split.
  - intros ->. reflexivity.
  - intros ->. eexists. reflexivity.
Qed.

Lemma create_role_slugs_witness :
  exists slug,
    create_role 1002 "veterans" "" veterans_db
    = Some (insert_role "veterans" slug None 1002 veterans_db)
    /\ slug_taken veterans_db slug = false.
Proof.
  assert (Hname : strip "veterans" <> "") by (vm_compute; discriminate).
  destruct (proj2 create_role_slugs 1002 "veterans" "" veterans_db Hname)
    as (_ & slug & H1 & H2 & _).
  exists slug. split; [exact H1 | exact H2].
Defined.

(** ** ORDER BY *)

Section OrderingFacts.
Variable A : Type.
Variable cmp : A -> A -> comparison.
Hypothesis cmp_ok : ordering cmp.

Lemma ord_eq_r x y z : cmp y z = Eq -> cmp x z = cmp x y.
Proof.
  intros H.
  assert (Hzy : cmp z y = Eq) by (rewrite (ord_antisym cmp_ok), H; reflexivity).
  rewrite (ord_antisym cmp_ok z x), (ord_antisym cmp_ok y x).
  rewrite (ord_eq cmp_ok z y x Hzy). reflexivity.
Qed.

Lemma ord_gt x y z : cmp x y = Gt -> cmp y z = Gt -> cmp x z = Gt.
Proof.
  intros H1 H2.
  assert (K1 : cmp y x = Lt) by (rewrite (ord_antisym cmp_ok), H1; reflexivity).
  assert (K2 : cmp z y = Lt) by (rewrite (ord_antisym cmp_ok), H2; reflexivity).
  rewrite (ord_antisym cmp_ok), (ord_lt cmp_ok z y x K2 K1). reflexivity.
Qed.

Lemma not_after_trans x y z :
  not_after cmp x y -> not_after cmp y z -> not_after cmp x z.
Proof.
  unfold not_after. intros H1 H2.
  destruct (cmp x y) eqn:E1; [| |congruence].
  - rewrite (ord_eq cmp_ok x y z E1). exact H2.
  - destruct (cmp y z) eqn:E2; [| |congruence].
    + rewrite (ord_eq_r x y z E2), E1. discriminate.
    + rewrite (ord_lt cmp_ok x y z E1 E2). discriminate.
Qed.

Lemma not_after_total x y : cmp x y = Gt -> not_after cmp y x.
Proof.
  unfold not_after. intros H. rewrite (ord_antisym cmp_ok), H. discriminate.
Qed.

Lemma insert_row_perm x l : Permutation (x :: l) (insert_row cmp x l).
Proof.
  induction l as [|y l IH]; simpl; [reflexivity|].
  destruct (cmp x y); try reflexivity.
  rewrite perm_swap. constructor. exact IH.
Qed.

Lemma order_by_perm l : Permutation l (order_by cmp l).
Proof.
  induction l as [|x l IH]; simpl; [reflexivity|].
  rewrite <- insert_row_perm. constructor. exact IH.
Qed.

Lemma insert_row_sorted x l :
  Sorted (not_after cmp) l -> Sorted (not_after cmp) (insert_row cmp x l).
Proof.
  induction l as [|y l IH]; simpl; intros Hs.
  - repeat constructor.
  - apply Sorted_inv in Hs. destruct Hs as [Hs Hhd].
    destruct (cmp x y) eqn:E.
    + constructor; [constructor; assumption|].
      constructor. unfold not_after. rewrite E. discriminate.
    + constructor; [constructor; assumption|].
      constructor. unfold not_after. rewrite E. discriminate.
    + constructor; [apply IH; exact Hs|].
      destruct l as [|z l]; simpl.
      * constructor. apply not_after_total. exact E.
      * apply HdRel_inv in Hhd. destruct (cmp x z).
        -- constructor. apply not_after_total. exact E.
        -- constructor. apply not_after_total. exact E.
        -- constructor. exact Hhd.
Qed.

Lemma order_by_sorted l : StronglySorted (not_after cmp) (order_by cmp l).
Proof.
  apply Sorted_StronglySorted.
  - intros x y z. apply not_after_trans.
  - induction l as [|x l IH]; simpl; [constructor|].
    apply insert_row_sorted. exact IH.
Qed.

(** The first row of an ordered table does not sort after any row. *)
Lemma order_by_head l x :
  hd_error (order_by cmp l) = Some x ->
  In x l /\ forall y, In y l -> not_after cmp x y.
Proof.
  intros H. pose proof (order_by_sorted l) as Hs.
  pose proof (order_by_perm l) as Hp.
  destruct (order_by cmp l) as [|a t]; [discriminate|].
  injection H as ->. split.
  - apply (Permutation_in _ (Permutation_sym Hp)). left. reflexivity.
  - intros y Hy. apply (Permutation_in _ Hp) in Hy.
    apply StronglySorted_inv in Hs. destruct Hs as [_ Hall].
    destruct Hy as [<-|Hy].
    + unfold not_after. pose proof (ord_antisym cmp_ok x x) as Hxx.
      destruct (cmp x x); [discriminate | discriminate | discriminate Hxx].
    + rewrite Forall_forall in Hall. apply Hall. exact Hy.
Qed.

Lemma order_by_head_none l : hd_error (order_by cmp l) = None <-> l = [].
Proof.
  pose proof (order_by_perm l) as Hp. split.
  - destruct (order_by cmp l); [|discriminate].
    intros _. apply Permutation_sym, Permutation_nil in Hp. exact Hp.
  - intros ->. reflexivity.
Qed.
End OrderingFacts.

Lemma firstn_in (A : Type) n (l : list A) y : In y (firstn n l) -> In y l.
Proof.
  intros H. rewrite <- (firstn_skipn n l). apply in_or_app. left. exact H.
Qed.

Lemma strongly_sorted_firstn (A : Type) (R : A -> A -> Prop) n l :
  StronglySorted R l -> StronglySorted R (firstn n l).
Proof.
  revert n. induction l as [|x l IH]; intros n Hs.
  - rewrite firstn_nil. constructor.
  - destruct n as [|n]; simpl; [constructor|].
    apply StronglySorted_inv in Hs. destruct Hs as [Hs Hall].
    constructor; [apply IH; exact Hs|].
    rewrite Forall_forall in *. intros y Hy. apply Hall.
    exact (firstn_in _ _ _ _ Hy).
Qed.

Lemma ordering_Z (A : Type) (f : A -> Z) : ordering (fun x y => f x ?= f y).
Proof.
  constructor.
  - intros x y. apply Z.compare_antisym.
  - intros x y z H. apply Z.compare_eq in H. rewrite H. reflexivity.
  - intros x y z H1 H2. rewrite Z.compare_lt_iff in *. lia.
Qed.

Lemma ordering_Q (A : Type) (f : A -> Q) :
  ordering (fun x y => (f x ?= f y)%Q).
Proof.
  constructor.
  - intros x y. symmetry. apply Qcompare_antisym.
  - intros x y z H. apply Qeq_alt in H. rewrite H. reflexivity.
  - intros x y z H1 H2. rewrite <- Qlt_alt in *.
    exact (Qlt_trans _ _ _ H1 H2).
Qed.

Lemma ordering_desc (A : Type) (c : A -> A -> comparison) :
  ordering c -> ordering (fun x y => desc (c x y)).
Proof.
  intros Hc. unfold desc. constructor.
  - intros x y. rewrite (ord_antisym Hc x y). reflexivity.
  - intros x y z H. rewrite (ord_eq Hc x y z); [reflexivity|].
    destruct (c x y); simpl in H; congruence.
  - intros x y z H1 H2.
    rewrite (ord_gt _ c Hc x y z); [reflexivity| |].
    + destruct (c x y); simpl in H1; congruence.
    + destruct (c y z); simpl in H2; congruence.
Qed.

Lemma ordering_and_then (A : Type) (c1 c2 : A -> A -> comparison) :
  ordering c1 -> ordering c2 ->
  ordering (fun x y => and_then (c1 x y) (c2 x y)).
Proof.
  intros H1 H2. unfold and_then. constructor.
  - intros x y. rewrite (ord_antisym H1 x y), (ord_antisym H2 x y).
    destruct (c1 x y); reflexivity.
  - intros x y z H.
    destruct (c1 x y) eqn:E1; try discriminate.
    rewrite (ord_eq H1 x y z E1), (ord_eq H2 x y z H). reflexivity.
  - intros x y z Hxy Hyz.
    destruct (c1 x y) eqn:E1; try discriminate.
    + rewrite (ord_eq H1 x y z E1).
      destruct (c1 y z) eqn:E2; try discriminate; [|reflexivity].
      exact (ord_lt H2 x y z Hxy Hyz).
    + destruct (c1 y z) eqn:E2; try discriminate.
      * rewrite (ord_eq_r _ c1 H1 x y z E2), E1. reflexivity.
      * rewrite (ord_lt H1 x y z E1 E2). reflexivity.
Qed.

Lemma top_order_ordering mode : ordering (top_order mode).
Proof.
  assert (Hrest : ordering (fun x y =>
            and_then (desc (top_cnt x ?= top_cnt y))
              (and_then (desc (top_year x ?= top_year y))
                 (top_id x ?= top_id y)))).
  { apply ordering_and_then; [apply ordering_desc, ordering_Z|].
    apply ordering_and_then; [apply ordering_desc, ordering_Z|].
    apply ordering_Z. }
  unfold top_order. destruct (String.eqb mode "bottom").
  - apply (ordering_and_then _ _ _ (ordering_Q _ top_avg_rating) Hrest).
  - apply (ordering_and_then _ _ _
             (ordering_desc _ _ (ordering_Q _ top_avg_rating)) Hrest).
Qed.

Lemma ties_before_spec x y :
  and_then (desc (top_cnt x ?= top_cnt y))
    (and_then (desc (top_year x ?= top_year y)) (top_id x ?= top_id y)) <> Gt
  <-> ties_before x y.
Proof.
  unfold ties_before, and_then, desc.
  destruct (Z.compare_spec (top_cnt x) (top_cnt y));
    destruct (Z.compare_spec (top_year x) (top_year y));
    destruct (Z.compare_spec (top_id x) (top_id y)); simpl;
    split; try congruence; try lia; intros _; lia.
Qed.

(** The comparison sent to SQLite orders the rows as the leaderboard is
    described. *)
Lemma top_order_spec mode x y :
  not_after (top_order mode) x y <-> ranks_before mode x y.
Proof.
  pose proof (ties_before_spec x y) as T.
  unfold not_after, top_order, ranks_before, ranks_before_bottom,
    ranks_before_top.
  set (rest := and_then (desc (top_cnt x ?= top_cnt y)) _) in *.
  assert (Hirr : forall a b : Q, (a < b)%Q -> (b < a)%Q -> False).
  { intros a b H1 H2. exact (Qlt_irrefl _ (Qlt_trans _ _ _ H1 H2)). }
  assert (Heq : forall a b : Q, (a == b)%Q -> (a < b)%Q -> False).
  { intros a b H1 H2. rewrite H1 in H2. exact (Qlt_irrefl _ H2). }
  destruct (String.eqb mode "bottom"); unfold and_then, desc;
    destruct (Qcompare_spec (top_avg_rating x) (top_avg_rating y)) as [E|E|E];
    simpl.
  - split.
    + intros H. right. split; [exact E | apply T; exact H].
    + intros [H|[_ H]]; [exfalso; exact (Heq _ _ E H) | apply T; exact H].
  - split; [intros _; left; exact E | discriminate].
  - split; [congruence|].
    intros [H|[H _]] _; [exact (Hirr _ _ H E) | exact (Heq _ _ (Qeq_sym _ _ H) E)].
  - split.
    + intros H. right. split; [exact E | apply T; exact H].
    + intros [H|[_ H]]; [exfalso; exact (Heq _ _ (Qeq_sym _ _ E) H) | apply T; exact H].
  - split; [congruence|].
    intros [H|[H _]] _; [exact (Hirr _ _ H E) | exact (Heq _ _ H E)].
  - split; [intros _; left; exact E | discriminate].
Qed.

(** ** Leaderboard *)

Lemma round2_spec x :
  (exists k : Z, round2 x == inject_Z k / 100)%Q
  /\ (x - (1 # 200) <= round2 x <= x + (1 # 200))%Q.
Proof.
  unfold round2. destruct (Qle_bool 0 x).
  - pose proof (Qfloor_le (x * 100 + (1 # 2))) as H1.
    pose proof (Qlt_floor (x * 100 + (1 # 2))) as H2.
    rewrite inject_Z_plus in H2.
    set (k := inject_Z (Qfloor (x * 100 + (1 # 2)))) in *.
    split; [eexists; reflexivity|].
    change (inject_Z 1) with 1%Q in H2.
    assert (E : (k / 100 == k * (1 # 100))%Q) by field.
    rewrite E. split; lra.
  - pose proof (Qfloor_le (- x * 100 + (1 # 2))) as H1.
    pose proof (Qlt_floor (- x * 100 + (1 # 2))) as H2.
    rewrite inject_Z_plus in H2.
    split.
    + exists (- Qfloor (- x * 100 + (1 # 2))).
      rewrite inject_Z_opp. field.
    + set (k := inject_Z (Qfloor (- x * 100 + (1 # 2)))) in *.
      change (inject_Z 1) with 1%Q in H2.
      assert (E : (k / 100 == k * (1 # 100))%Q) by field.
      rewrite E. split; lra.
Qed.

Lemma strongly_sorted_impl (A : Type) (R S : A -> A -> Prop) l :
  (forall x y, R x y -> S x y) -> StronglySorted R l -> StronglySorted S l.
Proof.
  intros H. induction 1 as [|x l Hs IH Hall]; constructor; [exact IH|].
  rewrite Forall_forall in *. intros y Hy. apply H, Hall, Hy.
Qed.

Lemma ranked_shows_sorted mode d :
  StronglySorted (ranks_before mode) (ranked_shows mode d).
Proof.
  apply strongly_sorted_impl with (R := not_after (top_order mode)).
  - intros x y. apply top_order_spec.
  - apply order_by_sorted, top_order_ordering.
Qed.

Lemma sql_avg_mean l : l <> [] -> sql_avg l = Some (mean l).
Proof. destruct l; [congruence | reflexivity]. Qed.

Lemma rated_shows_in d x :
  In x (rated_shows d) <->
  exists s, In s (shows d) /\ x = top_show_of d s
            /\ halves_of d (show_id s) <> [].
Proof.
  unfold rated_shows, sql_select. rewrite filter_In, in_map_iff.
  assert (Hcnt : forall s, (top_cnt (top_show_of d s) >? 0) = true
                           <-> halves_of d (show_id s) <> []).
  { intros s. simpl. unfold sql_count. rewrite Z.gtb_lt.
    destruct (halves_of d (show_id s)); simpl; split; try congruence; lia. }
  split.
  - intros [(s & <- & Hin) Hpos]. exists s. rewrite <- Hcnt. auto.
  - intros (s & Hin & -> & Hne). split; [exists s; auto | apply Hcnt, Hne].
Qed.

Lemma mode_normal mode :
  mode = "top" \/ mode = "bottom" ->
  lower (strip (if is_empty mode then "top" else mode)) = mode.
Proof. intros [->| ->]; reflexivity. Qed.

Lemma has_rating_count d s :
  (top_cnt (top_show_of d s) >? 0) = has_rating d s.
Proof.
  unfold has_rating. simpl. unfold sql_count, halves_of, sql_select.
  induction (ratings d) as [|r l IH]; [reflexivity|].
  simpl. destruct (rating_show_id r =? show_id s); [reflexivity | exact IH].
Qed.

(** The ids of the rated shows are the ids of the stored shows that have
    a row in [ratings], in the order of the table. *)
Lemma rated_shows_ids d :
  map top_id (rated_shows d)
  = map show_id (sql_select (has_rating d) (shows d)).
Proof.
  unfold rated_shows, sql_select.
  induction (shows d) as [|s l IH]; [reflexivity|].
  cbn [map filter]. rewrite has_rating_count.
  destruct (has_rating d s); cbn [map]; rewrite IH; reflexivity.
Qed.

Lemma int64_spec n : int64 n = true <-> - 2 ^ 63 <= n < 2 ^ 63.
Proof.
  unfold int64. rewrite andb_true_iff, Z.leb_le, Z.ltb_lt. reflexivity.
Qed.

(** C3, as stated, fails for a limit that is negative or is not a 64-bit
    integer.  With limit -1 the call returns both rated shows of the
    store, not the first -1 entries of the ranking; with limit 2^63 it
    raises [OverflowError]. *)
Lemma list_top_shows_limit_counterexample :
  list_top_shows_bound (-1) "top" ranking_db
  = Returned (ranked_shows "top" ranking_db)
  /\ map top_id (ranked_shows "top" ranking_db) = [2; 1]
  /\ firstn (Z.to_nat (-1)) (ranked_shows "top" ranking_db) = []
  /\ list_top_shows_bound (2 ^ 63) "top" ranking_db = Raised OverflowError.
Proof. repeat split; vm_compute; reflexivity. Qed.

(** C3, amended: for a mode among top and bottom, the leaderboard holds
    exactly the stored shows that have a row in [ratings], each once, with
    the columns of the show, a count above zero that is the number of its
    rating rows, and as average the mean of its ratings over two, rounded
    to the nearest hundredth; it is sorted by average (descending for top,
    ascending for bottom), then count descending, then year descending,
    then show id ascending.  [list_top_shows_with_top_review] returns the
    first [limit] rows of it for a limit from 0 to 2^63 - 1, the whole of
    it for a negative limit down to -2^63, and raises [OverflowError] for
    a limit that is not a 64-bit integer. *)
Theorem list_top_shows_ranked limit mode d :
  mode = "top" \/ mode = "bottom" ->
  let board := ranked_shows mode d in
  Permutation (map top_id board)
    (map show_id (sql_select (has_rating d) (shows d)))
  /\ StronglySorted (ranks_before mode) board
  /\ (forall x, In x board ->
        exists s,
          In s (shows d) /\ has_rating d s = true
          /\ top_id x = show_id s /\ top_title x = show_title s
          /\ top_corps x = show_corps s /\ top_year x = show_year s
          /\ top_poster_url x = show_poster_url s
          /\ 0 < top_cnt x
          /\ top_cnt x = Z.of_nat (List.length (ratings_of d (show_id s)))
          /\ top_avg_rating x
             = round2 (mean (map rating_half (ratings_of d (show_id s))) / 2)
          /\ (exists k : Z, top_avg_rating x == inject_Z k / 100)%Q
          /\ (mean (map rating_half (ratings_of d (show_id s))) / 2 - (1 # 200)
              <= top_avg_rating x
              <= mean (map rating_half (ratings_of d (show_id s))) / 2
                 + (1 # 200))%Q)
  /\ (0 <= limit < 2 ^ 63 ->
      list_top_shows_bound limit mode d
      = Returned (firstn (Z.to_nat limit) board))
  /\ (- 2 ^ 63 <= limit < 0 ->
      list_top_shows_bound limit mode d = Returned board)
  /\ (limit < - 2 ^ 63 \/ 2 ^ 63 <= limit ->
      list_top_shows_bound limit mode d = Raised OverflowError)
  /\ (forall rows,
        list_top_shows_bound limit mode d = Returned rows ->
        StronglySorted (ranks_before mode) rows
        /\ (0 <= limit -> (List.length rows <= Z.to_nat limit)%nat)
        /\ forall x, In x rows -> In x board).
Proof.
  intros Hmode board.
  assert (Hquery : list_top_shows_with_top_review limit mode d
                   = sql_limit limit board).
  { unfold list_top_shows_with_top_review.
    rewrite (mode_normal mode Hmode). reflexivity. }
  assert (Hsorted : StronglySorted (ranks_before mode) board)
    by apply ranked_shows_sorted.
  split.
  { rewrite <- rated_shows_ids. apply Permutation_sym, Permutation_map.
    apply order_by_perm. }
  split; [exact Hsorted|].
  split.
  { intros x Hx.
    apply (Permutation_in _ (Permutation_sym (order_by_perm _ _ _))) in Hx.
    apply rated_shows_in in Hx. destruct Hx as (s & Hin & -> & Hne).
    exists s. split; [exact Hin|].
    assert (Hcnt : top_cnt (top_show_of d s)
                   = Z.of_nat (List.length (halves_of d (show_id s))))
      by reflexivity.
    assert (Hpos : 0 < top_cnt (top_show_of d s)).
    { rewrite Hcnt.
      destruct (halves_of d (show_id s)); [congruence | simpl; lia]. }
    split.
    { rewrite <- has_rating_count. apply Z.gtb_lt. lia. }
    do 5 (split; [reflexivity|]).
    split; [exact Hpos|].
    split.
    { rewrite Hcnt. unfold halves_of, ratings_of. rewrite length_map.
      reflexivity. }
    assert (Havg : top_avg_rating (top_show_of d s)
                   = round2 (mean (halves_of d (show_id s)) / 2)).
    { simpl. rewrite (sql_avg_mean _ Hne). reflexivity. }
    change (map rating_half (ratings_of d (show_id s)))
      with (halves_of d (show_id s)).
    split; [exact Havg|].
    rewrite Havg. apply round2_spec. }
  unfold list_top_shows_bound. rewrite Hquery. unfold sql_limit.
  split.
  { intros Hl. rewrite (proj2 (int64_spec limit)) by lia.
    destruct (Z.ltb_spec limit 0); [lia | reflexivity]. }
  split.
  { intros Hl. rewrite (proj2 (int64_spec limit)) by lia.
    destruct (Z.ltb_spec limit 0); [reflexivity | lia]. }
  split.
  { intros Hl. destruct (int64 limit) eqn:E; [|reflexivity].
    apply int64_spec in E. lia. }
  intros rows Hrows. destruct (int64 limit); [|discriminate].
  injection Hrows as <-.
  destruct (Z.ltb_spec limit 0).
  - split; [exact Hsorted|]. split; [lia | auto].
  - split; [apply strongly_sorted_firstn, Hsorted|].
    split; [intros _; apply firstn_le_length|].
    intros x. apply firstn_in.
Qed.

Lemma list_top_shows_ranked_witness :
  list_top_shows_bound 1 "bottom" ranking_db
  = Returned (firstn 1 (ranked_shows "bottom" ranking_db)).
Proof.
  assert (Hlimit : 0 <= 1 < 2 ^ 63) by lia.
  exact (proj1 (proj2 (proj2 (proj2
           (list_top_shows_ranked 1 "bottom" ranking_db (or_intror eq_refl)))))
           Hlimit).
Defined.

(** ** Best review *)

Lemma best_first_ordering : ordering best_first.
Proof.
  unfold best_first.
  apply ordering_and_then; apply ordering_desc, ordering_Z.
Qed.

Lemma best_first_spec x y :
  not_after best_first x y <->
  rs_vote_score y < rs_vote_score x
  \/ (rs_vote_score y = rs_vote_score x /\ rs_ts y <= rs_ts x).
Proof.
  unfold not_after, best_first, and_then, desc.
  destruct (Z.compare_spec (rs_vote_score x) (rs_vote_score y));
    destruct (Z.compare_spec (rs_ts x) (rs_ts y)); simpl;
    split; try congruence; try lia; intros _; lia.
Qed.

Lemma left_join_inhabited (row : Type) (p : row -> bool) t :
  exists r, In r (left_join p t).
Proof.
  unfold left_join. destruct (sql_select p t) as [|a l].
  - exists None. left. reflexivity.
  - exists (Some a). left. reflexivity.
Qed.

(** Every row of [review_scores] comes from a stored review. *)
Lemma review_scores_sound d rs :
  In rs (review_scores d) ->
  exists rv,
    In rv (reviews d)
    /\ rs_show_id rs = review_show_id rv
    /\ rs_user_id rs = review_user_id rv
    /\ rs_review_text rs = review_text rv
    /\ rs_ts rs = review_ts rv
    /\ rs_vote_score rs = vote_score d (review_show_id rv) (review_user_id rv).
Proof.
  unfold review_scores. rewrite in_flat_map.
  intros (rv & Hrv & H). rewrite in_flat_map in H.
  destruct H as (u & _ & H). rewrite in_map_iff in H.
  destruct H as (r & <- & _). exists rv. simpl. auto 7.
Qed.

(** Under the foreign key, every stored review has a row in
    [review_scores]. *)
Lemma review_scores_complete d rv :
  reviews_fk d -> In rv (reviews d) ->
  exists rs,
    In rs (review_scores d)
    /\ rs_show_id rs = review_show_id rv
    /\ rs_user_id rs = review_user_id rv
    /\ rs_ts rs = review_ts rv
    /\ rs_vote_score rs = vote_score d (review_show_id rv) (review_user_id rv).
Proof.
  intros Hfk Hrv. specialize (Hfk rv Hrv).
  unfold user_exists in Hfk. apply existsb_exists in Hfk.
  destruct Hfk as (u & Hu & Hid).
  destruct (left_join_inhabited _
              (rating_at (review_show_id rv) (review_user_id rv)) (ratings d))
    as [r Hr].
  eexists. split.
  - unfold review_scores. apply in_flat_map. exists rv. split; [exact Hrv|].
    apply in_flat_map. exists u. split.
    + apply filter_In. split; [exact Hu | exact Hid].
    + apply in_map_iff. exists r. split; [reflexivity | exact Hr].
  - simpl. auto.
Qed.

Lemma list_top_shows_in limit mode d x :
  In x (list_top_shows_with_top_review limit mode d) ->
  exists s, In s (shows d) /\ x = top_show_of d s
            /\ halves_of d (show_id s) <> [].
Proof.
  unfold list_top_shows_with_top_review, sql_limit. intros H.
  apply rated_shows_in.
  destruct (limit <? 0); [|apply firstn_in in H];
    exact (Permutation_in _ (Permutation_sym (order_by_perm _ _ _)) H).
Qed.

(** C4: in every row of [list_top_shows_with_top_review], on a store whose
    reviews have stored authors, the attached review is a review of that
    show, carries as score the sum of the votes on it (0 when there is
    none), and no review of the show has a higher score, nor the same score
    and a later timestamp; when the show has no review the attached review
    is NULL.  The row itself has at least one rating. *)
Theorem top_review_is_best limit mode d x :
  reviews_fk d ->
  In x (list_top_shows_with_top_review limit mode d) ->
  0 < top_cnt x
  /\ match top_review x with
     | Some tr =>
         exists rv,
           In rv (reviews_of d (top_id x))
           /\ rs_user_id tr = review_user_id rv
           /\ rs_review_text tr = review_text rv
           /\ rs_ts tr = review_ts rv
           /\ rs_vote_score tr
              = sum_Z
                  (map vote_value
                     (sql_select
                        (fun v => (vote_show_id v =? top_id x)
                                  && (vote_review_user_id v
                                      =? review_user_id rv))
                        (review_votes d)))
           /\ forall rv', In rv' (reviews_of d (top_id x)) ->
                vote_score d (top_id x) (review_user_id rv') < rs_vote_score tr
                \/ (vote_score d (top_id x) (review_user_id rv')
                    = rs_vote_score tr
                    /\ review_ts rv' <= rs_ts tr)
     | None => reviews_of d (top_id x) = []
     end.
Proof.
  intros Hfk Hx.
  destruct (list_top_shows_in _ _ _ _ Hx) as (s & Hs & -> & Hne).
  split.
  { simpl. unfold sql_count.
    destruct (halves_of d (show_id s)); [congruence | simpl; lia]. }
  simpl top_id. simpl top_review. unfold top_review_of.
  set (part := sql_select (fun rs => rs_show_id rs =? show_id s)
                 (review_scores d)).
  assert (Hpart : forall rv, In rv (reviews_of d (show_id s)) ->
            exists rs, In rs part
              /\ rs_ts rs = review_ts rv
              /\ rs_vote_score rs = vote_score d (show_id s) (review_user_id rv)).
  { intros rv Hrv. apply filter_In in Hrv. destruct Hrv as [Hrv Hsid].
    apply Z.eqb_eq in Hsid.
    destruct (review_scores_complete d rv Hfk Hrv)
      as (rs & Hin & H1 & _ & H3 & H4).
    exists rs. split; [|split; [exact H3 | rewrite H4, Hsid; reflexivity]].
    apply filter_In. split; [exact Hin|]. apply Z.eqb_eq. congruence. }
  destruct (hd_error (order_by best_first part)) as [tr|] eqn:E.
  - destruct (order_by_head _ _ best_first_ordering _ _ E) as [Hin Hbest].
    apply filter_In in Hin. destruct Hin as [Hin Hsid].
    apply Z.eqb_eq in Hsid.
    destruct (review_scores_sound d tr Hin)
      as (rv & Hrv & H1 & H2 & H3 & H4 & H5).
    exists rv. split.
    { apply filter_In. split; [exact Hrv|]. apply Z.eqb_eq. congruence. }
    split; [exact H2|]. split; [exact H3|]. split; [exact H4|].
    split.
    { rewrite H5. unfold vote_score. rewrite <- H1, Hsid. reflexivity. }
    intros rv' Hrv'. destruct (Hpart rv' Hrv') as (rs' & Hin' & Hts & Hsc).
    specialize (Hbest rs' Hin'). apply best_first_spec in Hbest.
    rewrite <- Hsc, <- Hts. exact Hbest.
  - apply order_by_head_none in E.
    destruct (reviews_of d (show_id s)) as [|rv l] eqn:F; [reflexivity|].
    destruct (Hpart rv (or_introl eq_refl)) as (rs & Hin & _).
    rewrite E in Hin. destruct Hin.
Qed.

Lemma top_review_is_best_witness :
  0 < top_cnt (top_show_of ranking_db metamorph)
  /\ option_map rs_username (top_review (top_show_of ranking_db metamorph))
     = Some "alice".
Proof.
  assert (Hfk : reviews_fk ranking_db).
  { intros rv [<-|[<-|[]]]; reflexivity. }
  assert (Hin : In (top_show_of ranking_db metamorph)
                  (list_top_shows_with_top_review 10 "top" ranking_db)).
  { right. left. reflexivity. }
  split; [|reflexivity].
  exact (proj1 (top_review_is_best 10 "top" ranking_db _ Hfk Hin)).
Defined.

(** ** Catalog statistics *)

Lemma show_detail_some id d x :
  show_detail id d = Some x ->
  exists s, In s (shows d) /\ show_id s = id /\ x = stats_of d s.
Proof.
  unfold show_detail, sql_select.
  induction (shows d) as [|s l IH]; simpl; [discriminate|].
  destruct (show_id s =? id) eqn:E; simpl.
  - intros H. injection H as <-. exists s. apply Z.eqb_eq in E. auto.
  - intros H. destruct (IH H) as (s' & Hin & Hid & Hx). exists s'. auto.
Qed.

Lemma show_detail_found d s :
  In s (shows d) -> exists x, show_detail (show_id s) d = Some x.
Proof.
  unfold show_detail, sql_select.
  induction (shows d) as [|a l IH]; simpl; [intros []|].
  intros H. destruct (show_id a =? show_id s) eqn:E; simpl.
  - eexists. reflexivity.
  - destruct H as [->|H]; [rewrite Z.eqb_refl in E; discriminate | exact (IH H)].
Qed.

(** C5: [list_shows] reports every selected show once, and [show_detail]
    the show of the given id, with [cnt] the number of rating rows of the
    show and [avg_rating] the mean of their [rating_half] values over 2,
    0 when the show has no rating; ratings 8 and 10 give 4.5 and 2. *)
Theorem list_shows_stats sort year_filter corps_filter d :
  Permutation
    (map (stats_of d)
       (sql_select (list_shows_where year_filter corps_filter) (shows d)))
    (list_shows sort year_filter corps_filter d)
  /\ (forall id x,
        show_detail id d = Some x ->
        exists s, In s (shows d) /\ show_id s = id /\ x = stats_of d s)
  /\ (forall s, In s (shows d) -> exists x, show_detail (show_id s) d = Some x)
  /\ forall s,
       let rows :=
         sql_select (fun r => rating_show_id r =? show_id s) (ratings d) in
       let hs := map rating_half rows in
       st_show (stats_of d s) = s
       /\ st_cnt (stats_of d s) = Z.of_nat (List.length rows)
       /\ (rows = [] -> st_avg_rating (stats_of d s) == 0)%Q
       /\ (rows <> [] -> st_avg_rating (stats_of d s) == mean hs / 2)%Q
       /\ (hs = [8; 10] ->
           (st_avg_rating (stats_of d s) == 4.5)%Q
           /\ st_cnt (stats_of d s) = 2).
Proof.
  split; [apply order_by_perm|].
  split; [intros id x; apply show_detail_some|].
  split; [intros s; apply show_detail_found|].
  intros s rows hs.
  assert (Hhs : halves_of d (show_id s) = hs) by reflexivity.
  split; [reflexivity|].
  split; [simpl; rewrite Hhs; unfold sql_count, hs; rewrite length_map; reflexivity|].
  split; [|split].
  - intros Hnil. simpl. rewrite Hhs. unfold hs. rewrite Hnil. reflexivity.
  - intros Hne. simpl. rewrite Hhs.
    rewrite sql_avg_mean; [reflexivity|].
    unfold hs. destruct rows; [congruence | discriminate].
  - intros H. simpl. rewrite Hhs, H. split; reflexivity.
Qed.

(** The end-to-end example of the catalog: ratings 9 and 7 give the show
    an average of 4.0 over 2 ratings. *)
Example list_shows_metamorph :
  map (fun x => (show_id (st_show x), Qred (st_avg_rating x), st_cnt x))
    (list_shows "top" None None ranking_db)
  = [(2, 5%Q, 1); (1, 4%Q, 2); (3, 0%Q, 0)].
Proof. reflexivity. Qed.

Example norm_key_blue_devils :
  norm_key 2017 "  Blue   DEVILS! " "Metamorph" = "2017|blue devils|metamorph".
Proof. reflexivity. Qed.

(** * Further properties of the ledgers *)

Section LookupFacts.
Variable row : Type.
Variable p : row -> bool.

Lemma fetchone_delete (t : list row) : fetchone p (sql_delete p t) = None.
Proof. apply fetchone_none_select, select_delete. Qed.

Lemma fetchone_delete_other (q : row -> bool) (t : list row) :
  (forall r, q r = true -> p r = false) ->
  fetchone q (sql_delete p t) = fetchone q t.
Proof.
  intros H. rewrite !fetchone_head_select, select_delete_other by exact H.
  reflexivity.
Qed.

Lemma fetchone_update_other (q : row -> bool) (f : row -> row) (t : list row) :
  (forall r, p r = true -> q r = false /\ q (f r) = false) ->
  fetchone q (sql_update p f t) = fetchone q t.
Proof.
  intros H. rewrite !fetchone_head_select, select_update_other by exact H.
  reflexivity.
Qed.

Lemma fetchone_app_other (q : row -> bool) (t : list row) (r : row) :
  q r = false -> fetchone q (t ++ [r]) = fetchone q t.
Proof.
  intros H. rewrite !fetchone_head_select, select_app. simpl. rewrite H.
  rewrite app_nil_r. reflexivity.
Qed.

End LookupFacts.


Lemma fetchone_existsb_rating sid uid d :
  existsb (rating_at sid uid) (ratings d) = true
  <-> user_rating_for_show sid uid d <> None.
Proof.
  unfold user_rating_for_show.
  destruct (fetchone (rating_at sid uid) (ratings d)) eqn:E.
  - split; [discriminate|]. intros _.
    destruct (existsb (rating_at sid uid) (ratings d)) eqn:F; [reflexivity|].
    apply fetchone_none_existsb in F. congruence.
  - apply fetchone_none_existsb in E. rewrite E. split; [discriminate|congruence].
Qed.

(** X2: [upsert_rating] followed by [user_rating_for_show] gives back the
    rating clamped to [0,10] (the rating itself when it is in range),
    whenever the pair already has a rating or the show and the user are
    stored; the ratings of all other pairs are as before. *)
Theorem upsert_rating_lookup now sid uid v d :
  user_rating_for_show sid uid d <> None
  \/ (show_exists d sid = true /\ user_exists d uid = true) ->
  let d' := run (upsert_rating now sid uid v) d in
  result (upsert_rating now sid uid v) d = Returned tt
  /\ user_rating_for_show sid uid d' = Some (clamp_half v)
  /\ 0 <= clamp_half v <= 10
  /\ (0 <= v <= 10 -> clamp_half v = v)
  /\ (forall s u, (s, u) <> (sid, uid) ->
        user_rating_for_show s u d' = user_rating_for_show s u d).
Proof.
  intros Hpre d'. subst d'.
  assert (Hnew : forall h t, rating_at sid uid (mk_rating sid uid h t) = true)
    by (intros; apply rating_at_spec; simpl; auto).
  assert (Hcl : 0 <= clamp_half v <= 10) by (unfold clamp_half; lia).
  assert (Hid : 0 <= v <= 10 -> clamp_half v = v) by (unfold clamp_half; lia).
  unfold run, result, upsert_rating, upsert_rating_row, user_rating_for_show.
  destruct (existsb (rating_at sid uid) (ratings d)) eqn:E; simpl.
  - split; [reflexivity|]. split; [|split; [exact Hcl|split; [exact Hid|]]].
    + rewrite fetchone_head_select, select_update.
      * destruct (sql_select (rating_at sid uid) (ratings d)) as [|x l] eqn:F;
          [|reflexivity].
        apply fetchone_none_select, fetchone_none_existsb in F. congruence.
      * intros r Hr. apply rating_at_spec in Hr. apply rating_at_spec. exact Hr.
    + intros s u Hne. rewrite fetchone_update_other; [reflexivity|].
      intros r Hr. split.
      * exact (rating_at_other sid uid s u r Hne Hr).
      * apply (rating_at_other sid uid s u); [exact Hne|].
        apply rating_at_spec in Hr. apply rating_at_spec. exact Hr.
  - assert (Hrefs : show_exists d sid && user_exists d uid = true).
    { destruct Hpre as [H|[H1 H2]]; [|rewrite H1, H2; reflexivity].
      apply fetchone_existsb_rating in H. congruence. }
    rewrite Hrefs. simpl.
    split; [reflexivity|]. split; [|split; [exact Hcl|split; [exact Hid|]]].
    + rewrite fetchone_head_select, select_app.
      apply fetchone_none_existsb, fetchone_none_select in E. rewrite E.
      simpl. rewrite Hnew. reflexivity.
    + intros s u Hne. rewrite fetchone_app_other; [reflexivity|].
      exact (rating_at_other sid uid s u _ Hne (Hnew _ _)).
Qed.

Lemma upsert_rating_lookup_witness :
  user_rating_for_show 1 2 (run (upsert_rating 1001 1 2 42) demo_db) = Some 10.
Proof.
  apply (upsert_rating_lookup 1001 1 2 42 demo_db).
  right. split; reflexivity.
Defined.

Section CountFacts.
Variable row : Type.
Variables p q : row -> bool.

Lemma count_update (f : row -> row) (t : list row) :
  (forall r, p r = true -> q (f r) = q r) ->
  List.length (sql_select q (sql_update p f t)) = List.length (sql_select q t).
Proof.
  intros H. unfold sql_select, sql_update.
  induction t as [|r t IH]; simpl; [reflexivity|].
  destruct (p r) eqn:E.
  - rewrite (H r E). destruct (q r); simpl; rewrite IH; reflexivity.
  - destruct (q r); simpl; rewrite IH; reflexivity.
Qed.

Lemma count_delete (t : list row) :
  (forall r, p r = true -> q r = true) ->
  List.length (sql_select q t)
  = (List.length (sql_select q (sql_delete p t))
     + List.length (sql_select p t))%nat.
Proof.
  intros H. unfold sql_select, sql_delete.
  induction t as [|r t IH]; simpl; [reflexivity|].
  destruct (p r) eqn:E; simpl.
  - rewrite (H r E). simpl. rewrite IH. lia.
  - destruct (q r); simpl; rewrite IH; reflexivity.
Qed.
End CountFacts.

(** X3: rating a show changes the counts [list_shows] and [show_detail]
    report: the count of the rated show grows by one when the user had
    not rated it and stays the same when the user re-rates; the counts of
    all other shows stay the same. *)
Theorem upsert_rating_count now sid uid v d sh :
  user_rating_for_show sid uid d <> None
  \/ (show_exists d sid = true /\ user_exists d uid = true) ->
  st_cnt (stats_of (run (upsert_rating now sid uid v) d) sh)
  = st_cnt (stats_of d sh)
    + (if show_id sh =? sid then
         match user_rating_for_show sid uid d with
         | None => 1
         | Some _ => 0
         end
       else 0).
Proof.
  intros Hpre. simpl. unfold sql_count, halves_of. rewrite !length_map.
  unfold run, upsert_rating, upsert_rating_row.
  destruct (existsb (rating_at sid uid) (ratings d)) eqn:E; simpl.
  - rewrite count_update by reflexivity.
    apply fetchone_existsb_rating in E.
    destruct (user_rating_for_show sid uid d); [|congruence].
    destruct (show_id sh =? sid); lia.
  - assert (Hrefs : show_exists d sid && user_exists d uid = true).
    { destruct Hpre as [H|[H1 H2]]; [|rewrite H1, H2; reflexivity].
      apply fetchone_existsb_rating in H. congruence. }
    rewrite Hrefs. simpl. rewrite select_app, length_app. simpl.
    assert (Hnone : user_rating_for_show sid uid d = None).
    { destruct (user_rating_for_show sid uid d) eqn:F; [|reflexivity].
      assert (H : user_rating_for_show sid uid d <> None) by congruence.
      apply fetchone_existsb_rating in H. congruence. }
    rewrite Hnone, (Z.eqb_sym sid).
    destruct (show_id sh =? sid); simpl; lia.
Qed.

Lemma upsert_rating_count_witness :
  st_cnt (stats_of (run (upsert_rating 1001 1 2 7) demo_db) metamorph) = 1.
Proof.
  apply (upsert_rating_count 1001 1 2 7 demo_db metamorph).
  right. split; reflexivity.
Defined.

(** X4: on a table that respects the uniqueness of (show, user),
    [delete_rating] lowers the count of the show by one when the user had
    rated it and changes no count otherwise. *)
Theorem delete_rating_count sid uid d sh :
  ratings_pk d ->
  st_cnt (stats_of (run (delete_rating sid uid) d) sh)
  = st_cnt (stats_of d sh)
    - (if show_id sh =? sid then
         match user_rating_for_show sid uid d with
         | None => 0
         | Some _ => 1
         end
       else 0).
Proof.
  intros Hpk. simpl. unfold sql_count, halves_of. rewrite !length_map.
  unfold run, delete_rating. simpl.
  destruct (show_id sh =? sid) eqn:E.
  - apply Z.eqb_eq in E. rewrite E.
    rewrite (count_delete _ (rating_at sid uid)
               (fun r => rating_show_id r =? sid) (ratings d)).
    + specialize (Hpk sid uid). unfold ratings_for in Hpk.
      unfold user_rating_for_show. rewrite fetchone_head_select.
      destruct (sql_select (rating_at sid uid) (ratings d)) as [|x [|y l]];
        simpl in *; lia.
    + intros r Hr. apply rating_at_spec in Hr. apply Z.eqb_eq, Hr.
  - rewrite select_delete_other; [lia|].
    intros r Hr. apply Z.eqb_eq in Hr.
    destruct (rating_at sid uid r) eqn:F; [|reflexivity].
    apply rating_at_spec in F. apply Z.eqb_neq in E. lia.
Qed.

Lemma ratings_pk_of_nodup d :
  NoDup (map (fun r => (rating_show_id r, rating_user_id r)) (ratings d)) ->
  ratings_pk d.
Proof.
  intros Hnd s u. unfold ratings_for, sql_select.
  induction (ratings d) as [|a l IH]; simpl; [lia|].
  inversion Hnd as [|k ks Hnotin Hnd']; subst.
  destruct (rating_at s u a) eqn:E; [|exact (IH Hnd')].
  assert (Hnil : filter (rating_at s u) l = []).
  { destruct (filter (rating_at s u) l) as [|r t] eqn:F; [reflexivity|].
    exfalso. apply Hnotin.
    assert (Hr : In r (filter (rating_at s u) l)) by (rewrite F; left; reflexivity).
    apply filter_In in Hr. destruct Hr as [Hin Hr].
    apply rating_at_spec in E. apply rating_at_spec in Hr.
    destruct E as [E1 E2]. destruct Hr as [R1 R2].
    rewrite E1, E2, <- R1, <- R2.
    exact (in_map (fun r => (rating_show_id r, rating_user_id r)) l r Hin). }
  rewrite Hnil. simpl. lia.
Qed.

Lemma delete_rating_count_witness :
  st_cnt (stats_of (run (delete_rating 1 1) ranking_db) metamorph) = 1.
Proof.
  assert (Hpk : ratings_pk ranking_db).
  { apply ratings_pk_of_nodup. simpl.
    repeat constructor; simpl; intuition congruence. }
  exact (delete_rating_count 1 1 ranking_db metamorph Hpk).
Defined.

Lemma review_at_other sid uid s u r :
  (s, u) <> (sid, uid) ->
  review_at sid uid r = true -> review_at s u r = false.
Proof.
  intros Hne H. apply review_at_spec in H. destruct H as [H1 H2].
  destruct (review_at s u r) eqn:G; [|reflexivity].
  apply review_at_spec in G. destruct G as [G1 G2].
  exfalso. apply Hne. congruence.
Qed.

Lemma fetchone_existsb_review sid uid d :
  existsb (review_at sid uid) (reviews d) = true
  <-> my_review_for_show sid uid d <> None.
Proof.
  unfold my_review_for_show.
  destruct (fetchone (review_at sid uid) (reviews d)) eqn:E.
  - split; [discriminate|]. intros _.
    destruct (existsb (review_at sid uid) (reviews d)) eqn:F; [reflexivity|].
    apply fetchone_none_existsb in F. congruence.
  - apply fetchone_none_existsb in E. rewrite E. split; [discriminate|congruence].
Qed.

Lemma upsert_review_accepts now sid uid text d :
  strip text <> "" -> len (strip text) <= 5000 ->
  upsert_review now sid uid text d
  = upsert_review_row sid uid (strip text) now d.
Proof.
  intros Hne Hlen. unfold upsert_review.
  rewrite (not_empty_spec _ Hne).
  destruct (len (strip text) >? 5000) eqn:F; [|reflexivity].
  apply Z.gtb_lt in F. lia.
Qed.

(** X5: [upsert_review] followed by [my_review_for_show] gives back the
    trimmed text, for a text that passes validation and a pair that
    already has a review or whose show and user are stored; the reviews of
    all other pairs are as before. *)
Theorem upsert_review_lookup now sid uid text d :
  strip text <> "" -> len (strip text) <= 5000 ->
  my_review_for_show sid uid d <> None
  \/ (show_exists d sid = true /\ user_exists d uid = true) ->
  let d' := run (upsert_review now sid uid text) d in
  result (upsert_review now sid uid text) d = Returned tt
  /\ my_review_for_show sid uid d' = Some (strip text)
  /\ (forall s u, (s, u) <> (sid, uid) ->
        my_review_for_show s u d' = my_review_for_show s u d).
Proof.
  intros Hne Hlen Hpre d'. subst d'.
  assert (Hnew : forall x t, review_at sid uid (mk_review sid uid x t) = true)
    by (intros; apply review_at_spec; simpl; auto).
  unfold run, result. rewrite (upsert_review_accepts now sid uid text d Hne Hlen).
  unfold upsert_review_row, my_review_for_show.
  destruct (existsb (review_at sid uid) (reviews d)) eqn:E; simpl.
  - split; [reflexivity|]. split.
    + rewrite fetchone_head_select, select_update.
      * destruct (sql_select (review_at sid uid) (reviews d)) as [|x l] eqn:F;
          [|reflexivity].
        apply fetchone_none_select, fetchone_none_existsb in F. congruence.
      * intros r Hr. apply review_at_spec in Hr. apply review_at_spec. exact Hr.
    + intros s u Hneq. rewrite fetchone_update_other; [reflexivity|].
      intros r Hr. split.
      * exact (review_at_other sid uid s u r Hneq Hr).
      * apply (review_at_other sid uid s u); [exact Hneq|].
        apply review_at_spec in Hr. apply review_at_spec. exact Hr.
  - assert (Hrefs : show_exists d sid && user_exists d uid = true).
    { destruct Hpre as [H|[H1 H2]]; [|rewrite H1, H2; reflexivity].
      apply fetchone_existsb_review in H. congruence. }
    rewrite Hrefs. simpl. split; [reflexivity|]. split.
    + rewrite fetchone_head_select, select_app.
      apply fetchone_none_existsb, fetchone_none_select in E. rewrite E.
      simpl. rewrite Hnew. reflexivity.
    + intros s u Hneq. rewrite fetchone_app_other; [reflexivity|].
      exact (review_at_other sid uid s u _ Hneq (Hnew _ _)).
Qed.

Lemma upsert_review_lookup_witness :
  my_review_for_show 1 2 (run (upsert_review 1001 1 2 "  Great show ") demo_db)
  = Some "Great show".
Proof.
  apply (upsert_review_lookup 1001 1 2 "  Great show " demo_db).
  - vm_compute. discriminate.
  - vm_compute. discriminate.
  - right. split; reflexivity.
Defined.




Lemma user_exists_with_reviews d t u :
  user_exists (with_reviews d t) u = user_exists d u.
Proof. reflexivity. Qed.

(** X8: [upsert_review] keeps the constraints of [reviews], whatever its
    input: at most one review per (show, user), and every review has a
    stored author. *)
Theorem upsert_review_invariant now sid uid text d :
  reviews_pk d -> reviews_fk d ->
  reviews_pk (run (upsert_review now sid uid text) d)
  /\ reviews_fk (run (upsert_review now sid uid text) d).
Proof.
  intros Hpk Hfk.
  assert (Hkey : forall x t r, review_at sid uid r = true ->
            review_at sid uid
              (mk_review (review_show_id r) (review_user_id r) x t) = true).
  { intros x t r Hr. apply review_at_spec in Hr. apply review_at_spec. exact Hr. }
  unfold run, upsert_review.
  destruct (is_empty (strip text)); [split; assumption|].
  destruct (len (strip text) >? 5000); [split; assumption|].
  unfold upsert_review_row.
  destruct (existsb (review_at sid uid) (reviews d)) eqn:E; simpl.
  - split.
    + intros s u. pose proof (Hpk s u) as Hsu. unfold reviews_for in *. simpl.
      destruct (Z.eq_dec s sid) as [->|Hs];
        [destruct (Z.eq_dec u uid) as [->|Hu]|].
      * rewrite select_update by (apply Hkey). rewrite length_map. exact Hsu.
      * rewrite select_update_other; [exact Hsu|]. intros r Hr.
        split; (apply (review_at_other sid uid); [congruence|]);
          [exact Hr | apply Hkey; exact Hr].
      * rewrite select_update_other; [exact Hsu|]. intros r Hr.
        split; (apply (review_at_other sid uid); [congruence|]);
          [exact Hr | apply Hkey; exact Hr].
    + intros rv Hin. simpl in Hin. unfold sql_update in Hin.
      apply in_map_iff in Hin. destruct Hin as (r & Hr & Hin).
      rewrite user_exists_with_reviews.
      destruct (review_at sid uid r); subst rv; exact (Hfk r Hin).
  - destruct (show_exists d sid && user_exists d uid) eqn:F; simpl;
      [|split; assumption].
    apply andb_true_iff in F. destruct F as [F1 F2]. split.
    + intros s u. pose proof (Hpk s u) as Hsu. unfold reviews_for in *. simpl.
      rewrite select_app. simpl.
      destruct (review_at s u (mk_review sid uid (strip text) now)) eqn:K;
        [|rewrite app_nil_r; exact Hsu].
      apply review_at_spec in K. simpl in K. destruct K as [<- <-].
      apply fetchone_none_existsb, fetchone_none_select in E.
      rewrite E. simpl. lia.
    + intros rv Hin. simpl in Hin. rewrite user_exists_with_reviews.
      apply in_app_or in Hin. destruct Hin as [Hin|[<-|[]]];
        [exact (Hfk rv Hin) | exact F2].
Qed.

Lemma upsert_review_invariant_witness :
  reviews_pk (run (upsert_review 1001 1 2 "Great show") demo_db)
  /\ reviews_fk (run (upsert_review 1001 1 2 "Great show") demo_db).
Proof.
  apply (upsert_review_invariant 1001 1 2 "Great show" demo_db).
  - intros s u. simpl. lia.
  - intros rv [].
Defined.

(** ** Vote ledger: constraints, errors and scores *)

(** X9: [set_review_vote] keeps the primary key of [review_votes],
    whatever its input. *)
Theorem set_review_vote_keeps_pk now sid ruid vuid vote d :
  votes_pk d -> votes_pk (run (set_review_vote now sid ruid vuid vote) d).
Proof.
  intros Hpk s r u. pose proof (Hpk s r u) as Hsru. revert Hsru.
  set (nv := normalize_vote vote).
  assert (Hkey : forall v, vote_at sid ruid vuid v = true ->
            vote_at sid ruid vuid
              (mk_review_vote (vote_show_id v) (vote_review_user_id v)
                 (vote_voter_user_id v) nv now) = true).
  { intros v Hv. apply vote_at_spec in Hv. apply vote_at_spec. exact Hv. }
  assert (Hnew : vote_at sid ruid vuid (mk_review_vote sid ruid vuid nv now)
                 = true) by (apply vote_at_spec; simpl; auto).
  unfold run, votes_for, set_review_vote, insert_review_vote. fold nv.
  destruct (fetchone (vote_at sid ruid vuid) (review_votes d)) as [cur|] eqn:E.
  - destruct (vote_value cur =? nv); simpl; intros Hsru.
    + destruct (vote_at s r u (mk_review_vote sid ruid vuid 0 0)) eqn:K.
      * apply vote_at_spec in K. simpl in K. destruct K as (<- & <- & <-).
        rewrite select_delete. simpl. lia.
      * rewrite select_delete_other; [exact Hsru|].
        intros v Hv. destruct (vote_at sid ruid vuid v) eqn:G; [|reflexivity].
        apply vote_at_spec in Hv. apply vote_at_spec in G.
        assert (vote_at s r u (mk_review_vote sid ruid vuid 0 0) = true)
          by (apply vote_at_spec; simpl; intuition congruence).
        congruence.
    + destruct (vote_at s r u (mk_review_vote sid ruid vuid 0 0)) eqn:K.
      * apply vote_at_spec in K. simpl in K. destruct K as (<- & <- & <-).
        rewrite select_update by exact Hkey. rewrite length_map. exact Hsru.
      * rewrite select_update_other; [exact Hsru|].
        assert (Hoff : forall v, vote_at sid ruid vuid v = true ->
                  vote_at s r u v = false).
        { intros v Hv. destruct (vote_at s r u v) eqn:G; [|reflexivity].
          apply vote_at_spec in Hv. apply vote_at_spec in G.
          assert (vote_at s r u (mk_review_vote sid ruid vuid 0 0) = true)
            by (apply vote_at_spec; simpl; intuition congruence).
          congruence. }
        intros v Hv. split; [exact (Hoff v Hv) | exact (Hoff _ (Hkey v Hv))].
  - simpl. pose proof E as E'. apply fetchone_none_existsb in E'. rewrite E'.
    destruct (_ && _); simpl; [|tauto].
    intros Hsru. rewrite select_app. simpl.
    destruct (vote_at s r u (mk_review_vote sid ruid vuid nv now)) eqn:K;
      [|rewrite app_nil_r; exact Hsru].
    apply vote_at_spec in K. simpl in K. destruct K as (<- & <- & <-).
    apply fetchone_none_select in E. rewrite E. simpl. lia.
Qed.

Lemma set_review_vote_keeps_pk_witness :
  votes_pk (run (set_review_vote 1002 1 1 2 (-1)) demo_db).
Proof.
  apply (set_review_vote_keeps_pk 1002 1 1 2 (-1) demo_db).
  intros s r u. simpl. lia.
Defined.



Section ScoreFacts.
Variables k q : review_vote -> bool.

Lemma score_delete t :
  (forall v, k v = true -> q v = true) ->
  score_of q t = score_of q (sql_delete k t) + score_of k t.
Proof.
  intros H. unfold score_of, sql_select, sql_delete.
  induction t as [|v t IH]; simpl; [reflexivity|].
  destruct (k v) eqn:E; simpl.
  - rewrite (H v E). simpl. lia.
  - destruct (q v); simpl; lia.
Qed.

Lemma score_update f t :
  (forall v, k v = true -> q (f v) = true) ->
  score_of q (sql_update k f t)
  = score_of q (sql_delete k t)
    + sum_Z (map vote_value (map f (sql_select k t))).
Proof.
  intros H. unfold score_of, sql_select, sql_delete, sql_update.
  induction t as [|v t IH]; simpl; [reflexivity|].
  destruct (k v) eqn:E; simpl.
  - rewrite (H v E). simpl. lia.
  - destruct (q v); simpl; lia.
Qed.
End ScoreFacts.

Lemma vote_score_on_review d sid ruid :
  vote_score d sid ruid = score_of (on_review sid ruid) (review_votes d).
Proof. reflexivity. Qed.

Lemma on_review_of_key sid ruid vuid v :
  vote_at sid ruid vuid v = true -> on_review sid ruid v = true.
Proof.
  unfold vote_at, on_review. rewrite !andb_true_iff. tauto.
Qed.

Lemma on_review_other sid ruid vuid s a v :
  (s, a) <> (sid, ruid) ->
  vote_at sid ruid vuid v = true -> on_review s a v = false.
Proof.
  intros Hne Hv. apply vote_at_spec in Hv. destruct Hv as (H1 & H2 & _).
  destruct (on_review s a v) eqn:G; [|reflexivity].
  unfold on_review in G. apply andb_true_iff in G.
  rewrite !Z.eqb_eq in G. exfalso. apply Hne. destruct G. congruence.
Qed.

(** X11: how a vote moves the score of a review, on a table that respects
    the primary key and for a stored show, author and voter: a first vote
    adds the normalized vote, repeating the stored vote takes it back, and
    a changed vote replaces the stored value by the new one; the scores of
    all other reviews are unchanged. *)
Theorem set_review_vote_score now sid ruid vuid vote d :
  votes_pk d ->
  refs_exist d sid ruid vuid ->
  let nv := normalize_vote vote in
  let d' := run (set_review_vote now sid ruid vuid vote) d in
  vote_score d' sid ruid
  = vote_score d sid ruid
    + match vote_state sid ruid vuid d with
      | None => nv
      | Some existing => if existing =? nv then - nv else nv - existing
      end
  /\ (forall s a, (s, a) <> (sid, ruid) ->
        vote_score d' s a = vote_score d s a).
Proof.
  intros Hpk (Hs & Hr & Hu) nv d'. subst d'.
  set (new_row := mk_review_vote sid ruid vuid nv now).
  assert (Hnew : vote_at sid ruid vuid new_row = true)
    by (apply vote_at_spec; simpl; auto).
  assert (Hkey : forall v, vote_at sid ruid vuid v = true ->
            vote_at sid ruid vuid
              (mk_review_vote (vote_show_id v) (vote_review_user_id v)
                 (vote_voter_user_id v) nv now) = true).
  { intros v Hv. apply vote_at_spec in Hv. apply vote_at_spec. exact Hv. }
  rewrite !vote_score_on_review.
  unfold vote_state, run, set_review_vote, insert_review_vote.
  fold nv. fold new_row.
  destruct (fetchone (vote_at sid ruid vuid) (review_votes d)) as [cur|] eqn:E.
  - assert (Hone : sql_select (vote_at sid ruid vuid) (review_votes d) = [cur]).
    { specialize (Hpk sid ruid vuid). unfold votes_for in Hpk.
      rewrite fetchone_head_select in E.
      destruct (sql_select (vote_at sid ruid vuid) (review_votes d))
        as [|x [|y l]]; simpl in *; [discriminate | congruence | lia]. }
    pose proof (score_delete (vote_at sid ruid vuid) (on_review sid ruid)
                  (review_votes d) (on_review_of_key sid ruid vuid)) as Hdel.
    unfold score_of at 3 in Hdel. rewrite Hone in Hdel. simpl in Hdel.
    simpl option_map. cbv iota.
    destruct (vote_value cur =? nv) eqn:F; simpl.
    + apply Z.eqb_eq in F. split; [lia|].
      intros s a Hne. rewrite !vote_score_on_review. simpl. unfold score_of.
      rewrite select_delete_other; [reflexivity|].
      intros v Hv. destruct (vote_at sid ruid vuid v) eqn:G; [|reflexivity].
      rewrite (on_review_other sid ruid vuid s a v Hne G) in Hv. discriminate.
    + split.
      * rewrite score_update.
        -- rewrite Hone. simpl. lia.
        -- intros v Hv. apply (on_review_of_key sid ruid vuid), Hkey, Hv.
      * intros s a Hne. rewrite !vote_score_on_review. simpl. unfold score_of.
        rewrite select_update_other; [reflexivity|].
        intros v Hv. split.
        -- exact (on_review_other sid ruid vuid s a v Hne Hv).
        -- exact (on_review_other sid ruid vuid s a _ Hne (Hkey v Hv)).
  - simpl. pose proof E as E'. apply fetchone_none_existsb in E'.
    rewrite E', Hs, Hr, Hu. simpl. split.
    + unfold score_of. rewrite select_app, map_app. simpl.
      rewrite (on_review_of_key sid ruid vuid new_row Hnew). simpl.
      unfold sum_Z. rewrite fold_right_app. simpl.
      fold sum_Z.
      assert (Hfold : forall l z, fold_right Z.add z l = sum_Z l + z).
      { induction l as [|x l IH]; intros z; simpl; [lia|]. rewrite IH. lia. }
      rewrite Hfold. unfold sum_Z. lia.
    + intros s a Hne. rewrite !vote_score_on_review. simpl. unfold score_of.
      rewrite select_app. simpl.
      rewrite (on_review_other sid ruid vuid s a new_row Hne Hnew).
      rewrite app_nil_r. reflexivity.
Qed.

Lemma set_review_vote_score_witness :
  vote_score (run (set_review_vote 1002 1 1 2 (-1)) upvoted_db) 1 1 = -1.
Proof.
  assert (Hpk : votes_pk upvoted_db).
  { intros s r u. unfold votes_for, sql_select. simpl.
    destruct (vote_at s r u _); simpl; lia. }
  assert (Hrefs : refs_exist upvoted_db 1 1 2)
    by (repeat split; reflexivity).
  exact (proj1 (set_review_vote_score 1002 1 1 2 (-1) upvoted_db Hpk Hrefs)).
Defined.

(** * Further properties of the show catalog *)

Lemma all_chars_impl (p q : ascii -> bool) s :
  (forall c, p c = true -> q c = true) ->
  all_chars p s = true -> all_chars q s = true.
Proof.
  intros H. induction s as [|c s IH]; simpl; [auto|].
  rewrite !andb_true_iff. intros [H1 H2]. split; [apply H, H1 | apply IH, H2].
Qed.

Lemma remove_chars_kept pat s :
  all_chars (fun c => negb (pat c)) (remove_chars pat s) = true.
Proof.
  induction s as [|c s IH]; simpl; [reflexivity|].
  destruct (pat c) eqn:E; [exact IH|]. simpl. rewrite E, IH. reflexivity.
Qed.

Lemma norm_chars s : all_chars is_key_char (norm s) = true.
Proof.
  unfold norm, strip, strip_by.
  apply all_chars_rstrip, all_chars_lstrip. apply remove_chars_kept.
Qed.

Lemma key_char_no_bar c : is_key_char c = true -> no_bar c = true.
Proof.
  unfold is_key_char, not_key_char, no_bar, is_bar, is_lower_alnum, in_range.
  rewrite negb_involutive, !orb_true_iff, !andb_true_iff, negb_true_iff.
  rewrite !N.leb_le, !N.eqb_eq, N.eqb_neq. lia.
Qed.

Lemma uint_no_bar d : all_chars no_bar (NilEmpty.string_of_uint d) = true.
Proof. induction d; simpl; auto. Qed.

Lemma str_of_int_no_bar n : all_chars no_bar (str_of_int n) = true.
Proof.
  unfold str_of_int, NilZero.string_of_int, NilZero.string_of_uint.
  destruct (Z.to_int n) as [d|d]; simpl; destruct d; simpl;
    auto using uint_no_bar.
Qed.

(** Two texts without the delimiter that are followed by it and agree as a
    whole agree part by part. *)
Lemma split_at_bar a a' b b' :
  all_chars no_bar a = true -> all_chars no_bar a' = true ->
  (a ++ "|" ++ b = a' ++ "|" ++ b')%string -> a = a' /\ b = b'.
Proof.
  revert a'. induction a as [|c a IH]; intros [|c' a']; simpl.
  - intros _ _ H. injection H as H. auto.
  - intros _ H1 H2. injection H2 as H2 _. subst c'. discriminate H1.
  - intros H1 _ H2. injection H2 as H2 _. subst c. discriminate H1.
  - rewrite !andb_true_iff. intros [_ H1] [_ H2] H.
    injection H as -> H. destruct (IH a' H1 H2 H) as [-> ->]. auto.
Qed.

Lemma norm_key_eq_iff year corps title year' corps' title' :
  norm_key year corps title = norm_key year' corps' title'
  <-> year = year' /\ norm corps = norm corps' /\ norm title = norm title'.
Proof.
  unfold norm_key. split.
  - intros H.
    apply split_at_bar in H; try apply str_of_int_no_bar.
    destruct H as [Hy H].
    apply split_at_bar in H;
      try (apply (all_chars_impl is_key_char);
           [exact key_char_no_bar | apply norm_chars]).
    apply str_of_int_inj in Hy. tauto.
  - intros (-> & -> & ->). reflexivity.
Qed.

(** X12: the delimiter of [norm_key] cannot come out of the
    normalization: two keys are equal exactly when the years are equal
    and the normalized corps and the normalized titles are equal. *)
Theorem norm_key_injective year corps title year' corps' title' :
  norm_key year corps title = norm_key year' corps' title'
  <-> year = year' /\ norm corps = norm corps' /\ norm title = norm title'.
Proof. apply norm_key_eq_iff. Qed.

Lemma is_space_lower c : is_space (lower_char c) = is_space c.
Proof.
  destruct c as [b0 b1 b2 b3 b4 b5 b6 b7].
  destruct b0, b1, b2, b3, b4, b5, b6, b7; reflexivity.
Qed.

Lemma lstrip_lower s :
  lstrip_by is_space (lower s) = lower (lstrip_by is_space s).
Proof.
  induction s as [|c s IH]; simpl; [reflexivity|].
  rewrite is_space_lower. destruct (is_space c); [exact IH | reflexivity].
Qed.

Lemma rstrip_lower s :
  rstrip_by is_space (lower s) = lower (rstrip_by is_space s).
Proof.
  induction s as [|c s IH]; simpl; [reflexivity|].
  rewrite IH, is_space_lower.
  destruct (rstrip_by is_space s); simpl;
    [destruct (is_space c)|]; reflexivity.
Qed.

Lemma strip_lower s : strip (lower s) = lower (strip s).
Proof.
  unfold strip, strip_by. rewrite lstrip_lower, rstrip_lower. reflexivity.
Qed.

(** X13: the key ignores case: corps and titles that are equal once
    lower-cased give the same [norm_key].  The normalized text holds only
    a-z, 0-9, spaces and hyphens and has no surrounding whitespace. *)
Theorem norm_key_ignores_case year corps title corps' title' :
  lower corps = lower corps' -> lower title = lower title' ->
  norm_key year corps title = norm_key year corps' title'
  /\ all_chars is_key_char (norm corps) = true
  /\ strip (norm corps) = norm corps.
Proof.
  intros Hc Ht.
  assert (Hn : forall a b, lower a = lower b -> norm a = norm b).
  { intros a b H. unfold norm. rewrite <- !strip_lower, H. reflexivity. }
  split; [|split].
  - apply norm_key_eq_iff. auto.
  - apply norm_chars.
  - unfold norm. apply strip_idem.
Qed.

Lemma norm_key_ignores_case_witness :
  norm_key 2017 "BLUE DEVILS" "MetaMorph" = norm_key 2017 "blue devils" "metamorph".
Proof.
  apply (norm_key_ignores_case 2017 "BLUE DEVILS" "MetaMorph"
           "blue devils" "metamorph"); reflexivity.
Defined.

(** What [add_show] does in each of its three cases. *)
Lemma add_show_cases now year corps title poster_url d :
  shows_unique d ->
  let key := norm_key year corps title in
  let poster_s := or_none (strip (or_empty poster_url)) in
  (add_show now year corps title poster_url d
   = (d, Returned (false, None, "Missing corps or title.")))
  \/ (exists id,
        ~ In id (map show_id (shows d))
        /\ ~ In key (map show_norm_key (shows d))
        /\ add_show now year corps title poster_url d
           = (with_shows d
                (shows d ++
                 [mk_show id (strip title) (strip corps) year poster_s key now]),
              Returned (true, Some id, "Inserted")))
  \/ (exists e p status,
        In e (shows d)
        /\ (add_show now year corps title poster_url d
            = (d, Returned (false, Some (show_id e), status))
            \/ (status <> "Duplicate"
                /\ add_show now year corps title poster_url d
                   = (with_shows d
                        (sql_update (has_norm_key key) (set_poster p) (shows d)),
                      Returned (false, Some (show_id e), status))))).
Proof.
  intros Hu key poster_s.
  destruct (is_empty (strip corps) || is_empty (strip title)) eqn:Hv.
  - left. unfold add_show. rewrite Hv. reflexivity.
  - apply orb_false_iff in Hv. destruct Hv as [Hc Ht].
    assert (Hc' : strip corps <> "")
      by (intros H; apply is_empty_spec in H; congruence).
    assert (Ht' : strip title <> "")
      by (intros H; apply is_empty_spec in H; congruence).
    right. destruct (existsb (has_norm_key key) (shows d)) eqn:Hex.
    + right. destruct Hu as [Hkeys Hids].
      destruct (shows_with_key_one key (shows d) Hkeys Hex) as [e He].
      assert (Hin : In e (shows d)).
      { assert (H : In e (sql_select (has_norm_key key) (shows d)))
          by (rewrite He; left; reflexivity).
        apply filter_In in H. tauto. }
      unfold add_show. rewrite Hc, Ht.
      change (false || false) with false. cbv beta iota.
      rewrite norm_key_strip. fold key. fold poster_s.
      unfold insert_show. rewrite Hex.
      rewrite fetchone_head_select, He. simpl hd_error. cbv iota beta.
      destruct poster_s as [p|].
      * destruct (poster_missing e).
        -- exists e, p, "Duplicate (poster updated)". split; [exact Hin|].
           right. split; [discriminate|]. f_equal. f_equal.
           unfold sql_update. apply map_ext_in. intros s Hs.
           rewrite (id_selects_key key (shows d) e Hids He s Hs). reflexivity.
        -- exists e, p, "Duplicate". split; [exact Hin|]. left. reflexivity.
      * exists e, "", "Duplicate". split; [exact Hin|]. left. reflexivity.
    + left. exists (next_rowid (map show_id (shows d))).
      split; [apply next_rowid_fresh|].
      split; [apply (shows_with_key_absent key (shows d) Hex)|].
      exact (add_show_insert_step now year corps title poster_url d Hc' Ht' Hex).
Qed.

(** What every call of [add_show] does to the table. *)
Lemma add_show_effect now year corps title poster_url d :
  shows_unique d ->
  let d' := run (add_show now year corps title poster_url) d in
  shows_unique d'
  /\ exists created sid status,
       result (add_show now year corps title poster_url) d
       = Returned (created, sid, status)
       /\ (created = true ->
           exists id row,
             sid = Some id /\ show_id row = id
             /\ ~ In id (map show_id (shows d))
             /\ shows d' = shows d ++ [row])
       /\ (created = false ->
           map show_id (shows d') = map show_id (shows d)
           /\ map show_norm_key (shows d') = map show_norm_key (shows d)).
Proof.
  intros Hu d'. subst d'. unfold run, result.
  destruct (add_show_cases now year corps title poster_url d Hu)
    as [H|[(id & Hid & Hkey & H)|(e & p & status & Hin & [H|[_ H]])]];
    rewrite H; simpl.
  - split; [exact Hu|]. exists false, None, "Missing corps or title.".
    split; [reflexivity|]. split; [discriminate | auto].
  - split.
    + destruct Hu as [Hkeys Hids]. unfold shows_unique. simpl.
      rewrite !map_app. simpl. split.
      * apply NoDup_app; [exact Hkeys | repeat constructor; intros [] |].
        intros k Hk [<-|[]]. contradiction.
      * apply NoDup_app; [exact Hids | repeat constructor; intros [] |].
        intros k Hk [<-|[]]. contradiction.
    + exists true, (Some id), "Inserted". split; [reflexivity|].
      split; [|discriminate]. intros _.
      exists id, (mk_show id (strip title) (strip corps) year
                    (or_none (strip (or_empty poster_url)))
                    (norm_key year corps title) now).
      split; [reflexivity|]. split; [reflexivity|].
      split; [exact Hid | reflexivity].
  - split; [exact Hu|]. exists false, (Some (show_id e)), status.
    split; [reflexivity|]. split; [discriminate | auto].
  - destruct (set_poster_keeps p (has_norm_key (norm_key year corps title))
                (shows d)) as [K1 K2].
    split.
    + unfold shows_unique. simpl. rewrite K1, K2. exact Hu.
    + exists false, (Some (show_id e)), status.
      split; [reflexivity|]. split; [discriminate | auto].
Qed.

(** What every call of [add_show] does to the table, with the binding of
    the year. *)
Lemma add_show_bound_effect now year corps title poster_url d :
  shows_unique d ->
  let d' := run (add_show_bound now year corps title poster_url) d in
  shows_unique d'
  /\ match result (add_show_bound now year corps title poster_url) d with
     | Returned (created, sid, status) =>
         (strip corps = "" \/ strip title = "" \/ int64 year = true)
         /\ (created = true ->
             exists id row,
               sid = Some id /\ show_id row = id
               /\ ~ In id (map show_id (shows d))
               /\ shows d' = shows d ++ [row])
         /\ (created = false ->
             map show_id (shows d') = map show_id (shows d)
             /\ map show_norm_key (shows d') = map show_norm_key (shows d))
     | Raised e =>
         e = OverflowError /\ d' = d /\ int64 year = false
         /\ strip corps <> "" /\ strip title <> ""
     end.
Proof.
  intros Hu d'. subst d'. unfold add_show_bound.
  destruct (add_show_effect now year corps title poster_url d Hu)
    as (Hu' & created & sid & status & Hres & H1 & H2).
  destruct (is_empty (strip corps) || is_empty (strip title)) eqn:Hv.
  - split; [exact Hu'|]. rewrite Hres. split; [|split; assumption].
    apply orb_true_iff in Hv. rewrite !is_empty_spec in Hv. tauto.
  - destruct (int64 year) eqn:Hy.
    + split; [exact Hu'|]. rewrite Hres. split; [|split; assumption].
      right. right. reflexivity.
    + unfold run, result, raise. simpl. split; [exact Hu|].
      apply orb_false_iff in Hv. destruct Hv as [Hc Ht].
      split; [reflexivity|]. split; [reflexivity|]. split; [reflexivity|].
      split; intros E; apply is_empty_spec in E; congruence.
Qed.

(** X14: [add_show] keeps the constraints of [shows].  The only exception
    that leaves it is the [OverflowError] of a year that is not a 64-bit
    integer, raised when neither corps nor title is blank, and then
    nothing is written; for a year of 64 bits it never raises.  When it
    returns, it reports a creation exactly when it has appended one row,
    whose id was not in use; otherwise it adds and removes no row and
    changes no id and no key. *)
Theorem add_show_invariant now year corps title poster_url d :
  shows_unique d ->
  let call := add_show_bound now year corps title poster_url in
  let d' := run call d in
  shows_unique d'
  /\ (int64 year = true ->
      exists created sid status, result call d = Returned (created, sid, status))
  /\ (int64 year = false -> strip corps <> "" -> strip title <> "" ->
      result call d = Raised OverflowError)
  /\ match result call d with
     | Returned (created, sid, status) =>
         (created = true ->
          exists id row,
            sid = Some id /\ show_id row = id
            /\ ~ In id (map show_id (shows d))
            /\ shows d' = shows d ++ [row])
         /\ (created = false ->
             map show_id (shows d') = map show_id (shows d)
             /\ map show_norm_key (shows d') = map show_norm_key (shows d))
     | Raised e => e = OverflowError /\ d' = d
     end.
Proof.
  intros Hu call d'. subst call d'.
  destruct (add_show_bound_effect now year corps title poster_url d Hu)
    as (Hu' & H).
  split; [exact Hu'|].
  destruct (result (add_show_bound now year corps title poster_url) d)
    as [e|[[created sid] status]].
  - destruct H as (-> & Hd & Hy & Hc & Ht).
    split; [intros E; congruence|]. split; [reflexivity|].
    split; [reflexivity | exact Hd].
  - destruct H as (Hdom & H1 & H2).
    split; [intros _; exists created, sid, status; reflexivity|].
    split; [|split; assumption].
    intros Hy Hc Ht. destruct Hdom as [E|[E|E]]; congruence.
Qed.

Lemma add_show_invariant_witness :
  shows_unique
    (run (add_show_bound 1001 2016 "Carolina Crown" "Relentless" None) demo_db).
Proof.
  apply (add_show_invariant 1001 2016 "Carolina Crown" "Relentless" None demo_db).
  split; repeat constructor; intros [].
Defined.

(** X15: when [add_show] reports a creation, [get_show_by_id] of the
    returned id gives the new show: the trimmed title and corps, the year,
    the trimmed poster (NULL when blank) and the key of the triple. *)
Theorem add_show_get now year corps title poster_url d id status :
  result (add_show now year corps title poster_url) d
  = Returned (true, Some id, status) ->
  get_show_by_id id (run (add_show now year corps title poster_url) d)
  = Some (mk_show id (strip title) (strip corps) year
            (or_none (strip (or_empty poster_url)))
            (norm_key year corps title) now).
Proof.
  unfold result, run, add_show. intros H.
  destruct (is_empty (strip corps) || is_empty (strip title));
    [discriminate|].
  rewrite norm_key_strip in *. unfold insert_show in *.
  destruct (existsb (has_norm_key (norm_key year corps title)) (shows d)).
  - exfalso. cbv beta iota in H.
    destruct (fetchone _ _) as [r|]; simpl in H.
    + destruct (or_none (strip (or_empty poster_url)));
        [destruct (poster_missing r)|]; discriminate.
    + destruct (or_none (strip (or_empty poster_url))); discriminate.
  - simpl in H. injection H as <-. simpl.
    unfold get_show_by_id. simpl.
    rewrite fetchone_head_select, select_app.
    assert (Hnone : sql_select
              (fun s => show_id s =? next_rowid (map show_id (shows d)))
              (shows d) = []).
    { destruct (sql_select _ (shows d)) as [|r l] eqn:F; [reflexivity|].
      exfalso. apply (next_rowid_fresh (map show_id (shows d))).
      assert (Hr : In r (sql_select
                (fun s => show_id s =? next_rowid (map show_id (shows d)))
                (shows d))) by (rewrite F; left; reflexivity).
      apply filter_In in Hr. destruct Hr as [Hin Hr]. apply Z.eqb_eq in Hr.
      rewrite <- Hr. apply in_map. exact Hin. }
    rewrite Hnone. simpl. rewrite Z.eqb_refl. reflexivity.
Qed.

Lemma add_show_get_witness :
  get_show_by_id 2
    (run (add_show 1001 2016 " Carolina Crown" "Relentless " (Some " ")) demo_db)
  = Some (mk_show 2 "Relentless" "Carolina Crown" 2016 None
            "2016|carolina crown|relentless" 1001).
Proof.
  exact (add_show_get 1001 2016 " Carolina Crown" "Relentless " (Some " ")
           demo_db 2 "Inserted" eq_refl).
Defined.


Lemma update_absent (A : Type) (p : A -> bool) (f : A -> A) (l : list A) :
  (forall x, In x l -> p x = false) -> sql_update p f l = l.
Proof.
  intros H. unfold sql_update. rewrite <- (map_id l) at 2.
  apply map_ext_in. intros x Hx. rewrite (H x Hx). reflexivity.
Qed.

(** Rewriting the row of one id with a key that no other row holds keeps
    the keys distinct. *)
Lemma update_key_nodup id key (f : show -> show) l :
  NoDup (map show_id l) -> NoDup (map show_norm_key l) ->
  (forall s, In s l -> show_norm_key s = key -> show_id s = id) ->
  (forall s, show_norm_key (f s) = key) ->
  NoDup (map show_norm_key (sql_update (has_id id) f l)).
Proof.
  intros Hids Hkeys Hother Hf.
  induction l as [|a l IH]; simpl; [constructor|].
  inversion Hids as [|i il Hi Hids']; subst.
  inversion Hkeys as [|k kl Hk Hkeys']; subst.
  assert (IH' := IH Hids' Hkeys' (fun s Hs => Hother s (or_intror Hs))).
  destruct (has_id id a) eqn:E.
  - unfold has_id in E. apply Z.eqb_eq in E.
    assert (Hno : forall x, In x l -> has_id id x = false).
    { intros x Hx. unfold has_id. apply Z.eqb_neq. intros Hxid.
      apply Hi. rewrite E, <- Hxid. apply in_map. exact Hx. }
    fold (sql_update (has_id id) f l). rewrite (update_absent _ _ _ _ Hno).
    constructor; [|exact Hkeys']. rewrite Hf. intros Hin.
    apply in_map_iff in Hin. destruct Hin as (x & Hx & Hin).
    specialize (Hother x (or_intror Hin) Hx).
    specialize (Hno x Hin). unfold has_id in Hno. apply Z.eqb_neq in Hno.
    contradiction.
  - constructor; [|exact IH']. intros Hin.
    apply in_map_iff in Hin. destruct Hin as (x & Hx & Hin).
    apply in_map_iff in Hin. destruct Hin as (y & Hy & Hin).
    destruct (has_id id y); subst x.
    + rewrite Hf in Hx. symmetry in Hx.
      specialize (Hother a (or_introl eq_refl) Hx).
      unfold has_id in E. apply Z.eqb_neq in E. contradiction.
    + apply Hk. rewrite <- Hx. apply in_map. exact Hin.
Qed.

Lemma update_show_cases id year corps title poster_url d :
  let key := norm_key year corps title in
  let other := fun s => has_norm_key key s && negb (has_id id s) in
  update_show id year corps title poster_url d
  = if is_empty (strip corps) || is_empty (strip title) then
      (d, Raised (ValueError "Missing corps or title."))
    else if existsb other (shows d) then
      (d,
       Raised
         (ValueError
            "Another show already exists with the same year/corps/title (duplicate)."))
    else
      update_show_row id (strip title) (strip corps) year
        (or_none (strip (or_empty poster_url))) key d.
Proof.
  intros key other. unfold update_show.
  destruct (is_empty (strip corps) || is_empty (strip title)); [reflexivity|].
  rewrite norm_key_strip. fold key. fold other.
  destruct (fetchone other (shows d)) eqn:E.
  - destruct (existsb other (shows d)) eqn:F; [reflexivity|].
    apply fetchone_none_existsb in F. congruence.
  - apply fetchone_none_existsb in E. rewrite E. reflexivity.
Qed.

(** X16: [update_show] keeps the constraints of [shows], whatever its
    input, and never adds or removes a row nor changes an id. *)
Theorem update_show_invariant id year corps title poster_url d :
  shows_unique d ->
  let d' := run (update_show id year corps title poster_url) d in
  shows_unique d' /\ map show_id (shows d') = map show_id (shows d).
Proof.
  intros Hu d'. subst d'. unfold run.
  rewrite update_show_cases.
  destruct (is_empty (strip corps) || is_empty (strip title));
    [split; [exact Hu | reflexivity]|].
  set (key := norm_key year corps title).
  destruct (existsb (fun s => has_norm_key key s && negb (has_id id s))
              (shows d)) eqn:E; [split; [exact Hu | reflexivity]|].
  unfold update_show_row. rewrite E.
  destruct (existsb (has_id id) (shows d) && _);
    [split; [exact Hu | reflexivity]|].
  simpl.
  assert (Hidsame : map show_id
            (sql_update (has_id id)
               (fun s => mk_show (show_id s) (strip title) (strip corps) year
                           (or_none (strip (or_empty poster_url))) key
                           (show_created_ts s)) (shows d))
          = map show_id (shows d)).
  { unfold sql_update. rewrite map_map. apply map_ext.
    intros s. destruct (has_id id s); reflexivity. }
  split; [|exact Hidsame].
  destruct Hu as [Hkeys Hids]. unfold shows_unique. simpl.
  rewrite Hidsame. split; [|exact Hids].
  apply (update_key_nodup id key); try assumption; [|reflexivity].
  intros s Hs Hk.
  destruct (Z.eq_dec (show_id s) id) as [H|H]; [exact H|].
  exfalso.
  assert (existsb (fun s => has_norm_key key s && negb (has_id id s)) (shows d)
          = true).
  { apply existsb_exists. exists s. split; [exact Hs|].
    apply andb_true_iff. split; [apply has_norm_key_spec; exact Hk|].
    unfold has_id. apply negb_true_iff, Z.eqb_neq. exact H. }
  congruence.
Qed.

Lemma update_show_invariant_witness :
  shows_unique (run (update_show 1 2016 "Carolina Crown" "Relentless" None) demo_db).
Proof.
  apply (update_show_invariant 1 2016 "Carolina Crown" "Relentless" None demo_db).
  split; repeat constructor; intros [].
Defined.



(** ** Bulk import *)

Lemma bulk_add_loop_spec clock items :
  forall i inserted dupes other_bad d,
    shows_unique d ->
    exists d' o,
      bulk_add_loop clock i items inserted dupes other_bad d = (d', o)
      /\ shows_unique d'
      /\ (List.length (shows d) <= List.length (shows d'))%nat
      /\ match o with
         | Returned (x, y, z) =>
             exists a b c,
               x = inserted + a /\ y = dupes + b /\ z = other_bad + c
               /\ 0 <= a /\ 0 <= b /\ 0 <= c
               /\ a + b + c = Z.of_nat (List.length items)
               /\ Z.of_nat (List.length (shows d'))
                  = Z.of_nat (List.length (shows d)) + a
         | Raised e =>
             e = OverflowError
             /\ exists y c t poster,
                  In (y, c, t, poster) items /\ int64 y = false
                  /\ strip c <> "" /\ strip t <> ""
         end.
Proof.
  induction items as [|[[[y c] t] poster] items IH];
    intros i inserted dupes other_bad d Hu.
  - exists d, (Returned (inserted, dupes, other_bad)).
    split; [reflexivity|]. split; [exact Hu|]. split; [lia|].
    exists 0, 0, 0. simpl. repeat split; lia.
  - cbn [bulk_add_loop].
    destruct (add_show_bound_effect (clock i) y c t poster d Hu)
      as (Hu' & Hres).
    unfold run, result in Hu', Hres.
    destruct (add_show_bound (clock i) y c t poster d) as [d1 o].
    cbn [fst snd] in Hu', Hres.
    destruct o as [e|[[created sid] status]].
    + destruct Hres as (-> & -> & Hy & Hc & Ht).
      exists d, (Raised OverflowError).
      split; [reflexivity|]. split; [exact Hu|]. split; [lia|].
      split; [reflexivity|]. exists y, c, t, poster.
      split; [left; reflexivity | auto].
    + destruct Hres as (_ & Hcr & Hdup).
      assert (Hstep : forall ins dup oth k,
                (List.length (shows d) + k = List.length (shows d1))%nat ->
                ins + dup + oth = inserted + dupes + other_bad + 1 ->
                ins = inserted + Z.of_nat k ->
                dupes <= dup -> other_bad <= oth ->
                exists d' o,
                  bulk_add_loop clock (S i) items ins dup oth d1 = (d', o)
                  /\ shows_unique d'
                  /\ (List.length (shows d) <= List.length (shows d'))%nat
                  /\ match o with
                     | Returned (x, y0, z) =>
                         exists a b c0,
                           x = inserted + a /\ y0 = dupes + b
                           /\ z = other_bad + c0
                           /\ 0 <= a /\ 0 <= b /\ 0 <= c0
                           /\ a + b + c0
                              = Z.of_nat (List.length ((y, c, t, poster) :: items))
                           /\ Z.of_nat (List.length (shows d'))
                              = Z.of_nat (List.length (shows d)) + a
                     | Raised e =>
                         e = OverflowError
                         /\ exists y0 c0 t0 poster0,
                              In (y0, c0, t0, poster0)
                                ((y, c, t, poster) :: items)
                              /\ int64 y0 = false
                              /\ strip c0 <> "" /\ strip t0 <> ""
                     end).
      { intros ins dup oth k Hk Hsum Hins Hdupes Hoth.
        destruct (IH (S i) ins dup oth d1 Hu')
          as (d' & o & Hrun & Hu'' & Hlen & Ho).
        exists d', o. split; [exact Hrun|]. split; [exact Hu''|].
        split; [lia|].
        destruct o as [e|[[x y0] z]].
        - destruct Ho as (-> & y0 & c0 & t0 & p0 & Hin & Hbad).
          split; [reflexivity|]. exists y0, c0, t0, p0.
          split; [right; exact Hin | exact Hbad].
        - destruct Ho as (a & b & c0 & -> & -> & -> & Ha & Hb & Hc0 & Hs & Hl).
          exists (ins + a - inserted), (dup + b - dupes),
            (oth + c0 - other_bad).
          cbn [List.length]. rewrite Nat2Z.inj_succ.
          repeat split; lia. }
      destruct created.
      * destruct (Hcr eq_refl) as (id & row & _ & _ & _ & Hshows).
        apply (Hstep (inserted + 1) dupes other_bad 1%nat); try lia.
        rewrite Hshows, length_app. reflexivity.
      * destruct (Hdup eq_refl) as [Hids _].
        assert (Hsame : (List.length (shows d) + 0
                         = List.length (shows d1))%nat).
        { rewrite <- (length_map show_id (shows d1)), Hids, length_map.
          lia. }
        destruct (String.eqb status "Duplicate").
        -- apply (Hstep inserted (dupes + 1) other_bad 0%nat); try lia.
        -- apply (Hstep inserted dupes (other_bad + 1) 0%nat); try lia.
Qed.

(** X18: the import loop of [bulk_add_post] keeps the constraints of
    [shows] and removes no row.  When every year is a 64-bit integer it
    never raises.  When it completes, its three counters are not negative
    and add up to the number of items, and the table has grown by exactly
    the number counted as inserted.  Otherwise it has raised the
    [OverflowError] of an item whose year is not a 64-bit integer and
    whose corps and title are not blank. *)
Theorem bulk_add_accounts clock items d :
  shows_unique d ->
  let d' := run (bulk_add clock items) d in
  shows_unique d'
  /\ (List.length (shows d) <= List.length (shows d'))%nat
  /\ (Forall (fun item => int64 (item_year item) = true) items ->
      exists inserted dupes other_bad,
        result (bulk_add clock items) d
        = Returned (inserted, dupes, other_bad))
  /\ match result (bulk_add clock items) d with
     | Returned (inserted, dupes, other_bad) =>
         0 <= inserted /\ 0 <= dupes /\ 0 <= other_bad
         /\ inserted + dupes + other_bad = Z.of_nat (List.length items)
         /\ Z.of_nat (List.length (shows d'))
            = Z.of_nat (List.length (shows d)) + inserted
     | Raised e =>
         e = OverflowError
         /\ exists y c t poster,
              In (y, c, t, poster) items /\ int64 y = false
              /\ strip c <> "" /\ strip t <> ""
     end.
Proof.
  intros Hu d'. subst d'. unfold bulk_add, run, result.
  destruct (bulk_add_loop_spec clock items 0 0 0 0 d Hu)
    as (d' & o & -> & Hu' & Hlen & Ho).
  cbn [fst snd]. split; [exact Hu'|]. split; [exact Hlen|].
  destruct o as [e|[[x y] z]].
  - destruct Ho as (-> & y & c & t & poster & Hin & Hy & Hbad).
    split; [|split; [reflexivity | exists y, c, t, poster; auto]].
    intros Hall. rewrite Forall_forall in Hall.
    specialize (Hall _ Hin). simpl in Hall. congruence.
  - destruct Ho as (a & b & c & -> & -> & -> & Ha & Hb & Hc & Hs & Hl).
    split; [intros _; eexists _, _, _; reflexivity|].
    repeat split; lia.
Qed.

Lemma bulk_add_accounts_witness :
  exists inserted dupes other_bad,
    result
      (bulk_add (fun i => 2000 + Z.of_nat i)
         [(2017, "Blue Devils", "Metamorph", Some "m.png");
          (2016, "Carolina Crown", "Relentless", None);
          (2016, "carolina  crown", "RELENTLESS", None);
          (2015, "", "Ink", None)])
      demo_db
    = Returned (inserted, dupes, other_bad).
Proof.
  assert (Hu : shows_unique demo_db)
    by (split; repeat constructor; intros []).
  assert (Hall : Forall (fun item => int64 (item_year item) = true)
            [(2017, "Blue Devils", "Metamorph", Some "m.png");
             (2016, "Carolina Crown", "Relentless", None);
             (2016, "carolina  crown", "RELENTLESS", None);
             (2015, "", "Ink", None)])
    by (repeat constructor).
  exact (proj1 (proj2 (proj2
           (bulk_add_accounts (fun i => 2000 + Z.of_nat i) _ demo_db Hu)))
           Hall).
Defined.

(** * Further properties of the role directory *)

Lemma rstrip_strip s : rstrip_by is_space (strip s) = strip s.
Proof. unfold strip, strip_by. apply rstrip_by_idem. Qed.

(** A text that ends with a newline is not the result of [strip]. *)
Lemma strip_no_final_newline x c0 c1 c2 c3 c4 c5 c6 :
  strip x
  <> String c0 (String c1 (String c2 (String c3 (String c4 (String c5
       (String c6 (String (ascii_of_N 10) ""))))))).
Proof.
  intros H. pose proof (rstrip_strip x) as Hfix.
  rewrite H in Hfix. apply (f_equal String.length) in Hfix.
  simpl in Hfix.
  destruct (is_space c6), (is_space c5), (is_space c4), (is_space c3),
    (is_space c2), (is_space c1), (is_space c0); simpl in Hfix; discriminate.
Qed.

Lemma hex_color_match_shape s :
  hex_color_match s = true ->
  exists h t,
    s = String "#" (h ++ t) /\ String.length h = 6%nat
    /\ all_chars is_hex_digit h = true
    /\ (t = "" \/ t = String (ascii_of_N 10) "").
Proof.
  unfold hex_color_match. destruct s as [|c s]; [discriminate|].
  rewrite !andb_true_iff, orb_true_iff, !String.eqb_eq, N.eqb_eq, Nat.eqb_eq.
  intros [[[Hc Hhex] Hlen] Hrest].
  assert (c = "#"%char).
  { unfold code in Hc. rewrite <- (ascii_N_embedding c), Hc. reflexivity. }
  subst c.
  destruct s as [|c1 [|c2 [|c3 [|c4 [|c5 [|c6 t]]]]]]; try discriminate.
  exists (String c1 (String c2 (String c3 (String c4 (String c5
            (String c6 "")))))), t.
  split; [reflexivity|]. split; [reflexivity|].
  simpl in Hhex. split.
  { simpl. destruct t; exact Hhex. }
  simpl in Hrest.
  assert (Hsub : forall u, substring 0 (String.length u) u = u).
  { induction u as [|a u IH]; simpl; [reflexivity | rewrite IH; reflexivity]. }
  assert (Hsub' : forall u, substring 0 (S (S (S (S (S (S (String.length u))))))) u = u).
  { induction u as [|a u IH]; simpl; [reflexivity|]. f_equal.
    destruct u as [|b u]; [reflexivity|].
    simpl in *. f_equal. injection IH as IH. exact IH. }
  rewrite Hsub' in Hrest. exact Hrest.
Qed.

(** X19: [_clean_hex_color] returns either the empty text or the trimmed
    input, which is then exactly a [#] followed by six hexadecimal digits,
    seven characters in all; [_clean_color] returns the same value on
    every input. *)
Theorem _clean_hex_color_shape s :
  _clean_color s = _clean_hex_color s
  /\ (_clean_hex_color s = ""
      \/ (_clean_hex_color s = strip s
          /\ String.length (_clean_hex_color s) = 7%nat
          /\ exists h,
               _clean_hex_color s = String "#" h
               /\ all_chars is_hex_digit h = true)).
Proof.
  split.
  - unfold _clean_color, _clean_hex_color.
    destruct (strip s); reflexivity.
  - unfold _clean_hex_color.
    destruct (hex_color_match (strip s)) eqn:E; [|left; reflexivity].
    right. split; [reflexivity|].
    destruct (hex_color_match_shape _ E) as (h & t & Hs & Hlen & Hhex & [->| ->]).
    + rewrite Hs.
      assert (Happ : forall u, (u ++ "")%string = u).
      { induction u as [|a u IH]; simpl; [reflexivity | rewrite IH; reflexivity]. }
      rewrite Happ. split; [simpl; rewrite Hlen; reflexivity|].
      exists h. split; [reflexivity | exact Hhex].
    + exfalso.
      destruct h as [|c1 [|c2 [|c3 [|c4 [|c5 [|c6 [|c7 h]]]]]]];
        try discriminate Hlen.
      exact (strip_no_final_newline s _ _ _ _ _ _ _ Hs).
Qed.

Lemma slug_char_not_hyphen c : is_lower_alnum c = true -> is_hyphen c = false.
Proof.
  unfold is_lower_alnum, is_hyphen, in_range.
  rewrite orb_true_iff, !andb_true_iff, !N.leb_le, N.eqb_neq. lia.
Qed.

Lemma sub_runs_shape in_run s :
  no_double_hyphen (sub_runs not_slug_char "-" in_run s) = true
  /\ (in_run = true ->
      starts_with_hyphen (sub_runs not_slug_char "-" in_run s) = false).
Proof.
  revert in_run. induction s as [|c s IH]; intros in_run; simpl; [auto|].
  destruct (not_slug_char c) eqn:E.
  - destruct in_run; [apply IH|].
    split; [|discriminate].
    destruct (IH true) as [H1 H2]. specialize (H2 eq_refl).
    destruct (sub_runs not_slug_char "-" true s) as [|b r]; [reflexivity|].
    simpl in H2.
    change (negb (is_hyphen "-" && is_hyphen b)
            && no_double_hyphen (String b r) = true).
    rewrite H2, andb_false_r. simpl. exact H1.
  - unfold not_slug_char in E. apply negb_false_iff in E.
    pose proof (slug_char_not_hyphen c E) as Hc.
    destruct (IH false) as [H1 _]. split.
    + destruct (sub_runs not_slug_char "-" false s) as [|b r];
        [reflexivity|].
      change (negb (is_hyphen c && is_hyphen b)
              && no_double_hyphen (String b r) = true).
      rewrite Hc. simpl. exact H1.
    + intros _. simpl. exact Hc.
Qed.

Lemma no_double_hyphen_tail c s :
  no_double_hyphen (String c s) = true -> no_double_hyphen s = true.
Proof.
  simpl. destruct s as [|b s]; [reflexivity|].
  rewrite andb_true_iff. tauto.
Qed.

Section SlugShape.
Variable drop : ascii -> bool.

Lemma rstrip_by_first s a r :
  rstrip_by drop s = String a r -> exists s', s = String a s'.
Proof.
  destruct s as [|c s]; simpl; [discriminate|].
  destruct (rstrip_by drop s).
  - destruct (drop c); [discriminate|]. intros H. injection H as <- _.
    eexists. reflexivity.
  - intros H. injection H as <- _. eexists. reflexivity.
Qed.

Lemma no_double_hyphen_lstrip s :
  no_double_hyphen s = true -> no_double_hyphen (lstrip_by drop s) = true.
Proof.
  induction s as [|c s IH]; simpl lstrip_by; [auto|].
  intros H. destruct (drop c); [|exact H].
  apply IH. exact (no_double_hyphen_tail c s H).
Qed.

Lemma no_double_hyphen_rstrip s :
  no_double_hyphen s = true -> no_double_hyphen (rstrip_by drop s) = true.
Proof.
  induction s as [|c s IH]; simpl rstrip_by; [auto|].
  intros H. pose proof (IH (no_double_hyphen_tail c s H)) as IH'.
  destruct (rstrip_by drop s) as [|a r] eqn:E.
  - destruct (drop c); reflexivity.
  - destruct (rstrip_by_first s a r E) as [s' ->].
    simpl in H. apply andb_true_iff in H. destruct H as [H _].
    change (no_double_hyphen (String c (String a r)))
      with (negb (is_hyphen c && is_hyphen a)
            && no_double_hyphen (String a r)).
    rewrite H, IH'. reflexivity.
Qed.

Lemma starts_rstrip s :
  starts_with_hyphen s = false ->
  starts_with_hyphen (rstrip_by drop s) = false.
Proof.
  intros H. destruct (rstrip_by drop s) as [|a r] eqn:E; [reflexivity|].
  destruct (rstrip_by_first s a r E) as [s' ->]. exact H.
Qed.
End SlugShape.

Lemma starts_lstrip_hyphen s :
  starts_with_hyphen (lstrip_by is_hyphen s) = false.
Proof.
  destruct (lstrip_by is_hyphen s) as [|a r] eqn:E; [reflexivity|].
  exact (lstrip_by_head is_hyphen s a r E).
Qed.

Lemma ends_rstrip_hyphen s :
  ends_with_hyphen (rstrip_by is_hyphen s) = false.
Proof.
  induction s as [|c s IH]; simpl rstrip_by; [reflexivity|].
  destruct (rstrip_by is_hyphen s) as [|a r].
  - destruct (is_hyphen c) eqn:E; simpl; [reflexivity | exact E].
  - exact IH.
Qed.

(** X20: a slug made by [_slugify] is never empty, holds only lower-case
    letters, digits and hyphens, and has no hyphen in front, none at the
    end and no two hyphens in a row. *)
Theorem _slugify_shape name :
  _slugify name <> ""
  /\ all_chars is_slug_char (_slugify name) = true
  /\ starts_with_hyphen (_slugify name) = false
  /\ ends_with_hyphen (_slugify name) = false
  /\ no_double_hyphen (_slugify name) = true.
Proof.
  destruct (_slugify_chars name) as [Hchars Hne].
  split; [exact Hne|]. split; [exact Hchars|].
  unfold _slugify.
  destruct (is_empty _); [repeat split|].
  unfold strip_by. split; [|split].
  - apply starts_rstrip, starts_lstrip_hyphen.
  - apply ends_rstrip_hyphen.
  - apply no_double_hyphen_rstrip, no_double_hyphen_lstrip.
    apply (sub_runs_shape false).
Qed.

Lemma next_rowid_above ids i : In i ids -> i < next_rowid ids.
Proof.
  intros H.
  assert (Hmax : forall x l y, In y (x :: l) -> y <= fold_right Z.max x l).
  { intros x l. induction l as [|a l IH]; simpl; intros y [Hy|Hy].
    - lia.
    - contradiction.
    - specialize (IH y (or_introl Hy)). lia.
    - destruct Hy as [Hy|Hy]; [lia|]. specialize (IH y (or_intror Hy)). lia. }
  destruct ids as [|x l]; [contradiction|].
  apply Hmax in H. unfold next_rowid. lia.
Qed.

(** X21: [create_role] always ends and keeps the constraints of [roles]
    (unique names, slugs and ids).  When it returns normally it has
    appended exactly one role; when it raises it has written nothing. *)
Theorem create_role_invariant now name color d :
  roles_unique d ->
  exists d' o,
    create_role now name color d = Some (d', o)
    /\ roles_unique d'
    /\ (o = Returned tt ->
        exists r, roles d' = roles d ++ [r] /\ role_name r = strip name)
    /\ (o <> Returned tt -> d' = d).
Proof.
  intros (Hnames & Hslugs & Hids).
  unfold create_role, create_role_fuel.
  destruct (is_empty (strip name)) eqn:Hn.
  - eexists d, _. split; [reflexivity|]. split; [repeat split; assumption|].
    split; [discriminate | reflexivity].
  - destruct (unique_slug_terminates d (_slugify (strip name))) as [slug Hslug].
    rewrite Hslug.
    destruct (unique_slug_some _ _ _ _ _ _ Hslug) as [Hfree _].
    unfold insert_role.
    destruct (existsb _ (roles d)) eqn:E.
    + eexists d, _. split; [reflexivity|]. split; [repeat split; assumption|].
      split; [discriminate | reflexivity].
    + eexists _, _. split; [reflexivity|].
      assert (Hno : forall r, In r (roles d) ->
                role_name r <> strip name /\ role_slug r <> slug).
      { intros r Hr.
        assert (H : (String.eqb (role_name r) (strip name)
                     || String.eqb (role_slug r) slug) = false).
        { destruct (String.eqb (role_name r) (strip name)
                    || String.eqb (role_slug r) slug) eqn:F; [|reflexivity].
          assert (existsb (fun r => String.eqb (role_name r) (strip name)
                                    || String.eqb (role_slug r) slug)
                    (roles d) = true)
            by (apply existsb_exists; exists r; auto).
          congruence. }
        apply orb_false_iff in H. rewrite !String.eqb_neq in H. exact H. }
      split.
      * unfold roles_unique. simpl. rewrite !map_app. simpl.
        split; [|split].
        -- apply NoDup_app; [exact Hnames | repeat constructor; intros [] |].
           intros k Hk [<-|[]]. apply in_map_iff in Hk.
           destruct Hk as (r & Hr & Hin). exact (proj1 (Hno r Hin) Hr).
        -- apply NoDup_app; [exact Hslugs | repeat constructor; intros [] |].
           intros k Hk [<-|[]]. apply in_map_iff in Hk.
           destruct Hk as (r & Hr & Hin). exact (proj2 (Hno r Hin) Hr).
        -- apply NoDup_app; [exact Hids | repeat constructor; intros [] |].
           intros k Hk [<-|[]].
           pose proof (next_rowid_above _ _ Hk). lia.
      * split; [|intros H; congruence].
        intros _. eexists. simpl. split; reflexivity.
Qed.

Lemma create_role_invariant_witness :
  exists d' o,
    create_role 1002 "veterans" "#ff0000" veterans_db = Some (d', o)
    /\ roles_unique d'.
Proof.
  assert (Hu : roles_unique veterans_db).
  { repeat split; repeat constructor; intros []. }
  destruct (create_role_invariant 1002 "veterans" "#ff0000" veterans_db Hu)
    as (d' & o & H1 & H2 & _).
  exists d', o. split; [exact H1 | exact H2].
Defined.

Section UpdateUnique.
Variable A : Type.
Variable fid : A -> Z.
Variable fkey : A -> string.

End UpdateUnique.



Lemma assignments_of_in uid st ur r :
  In (ur, r) (assignments_of uid st)
  <-> In ur (user_roles st) /\ ur_user_id ur = uid
      /\ In r (roles (store_db st)) /\ role_id r = ur_role_id ur.
Proof.
  unfold assignments_of.
  set (joined := flat_map _ _).
  assert (Hperm : Permutation joined
            (order_by (fun x y => ur_assigned_ts (fst x) ?= ur_assigned_ts (fst y))
               joined)) by apply order_by_perm.
  assert (Hj : In (ur, r) joined
               <-> In ur (user_roles st) /\ ur_user_id ur = uid
                   /\ In r (roles (store_db st)) /\ role_id r = ur_role_id ur).
  { subst joined. rewrite in_flat_map. split.
    - intros (x & Hx & Hin). apply filter_In in Hx. destruct Hx as [Hx Hu].
      apply in_map_iff in Hin. destruct Hin as (y & Hy & Hin).
      injection Hy as -> ->. apply filter_In in Hin.
      destruct Hin as [Hin Hid]. unfold role_has_id in Hid.
      rewrite Z.eqb_eq in Hu, Hid. auto.
    - intros (H1 & H2 & H3 & H4). exists ur. split.
      + apply filter_In. split; [exact H1 | apply Z.eqb_eq; exact H2].
      + apply in_map. apply filter_In. split; [exact H3|].
        unfold role_has_id. apply Z.eqb_eq. exact H4. }
  rewrite <- Hj. split; intros H.
  - exact (Permutation_in _ (Permutation_sym Hperm) H).
  - exact (Permutation_in _ Hperm H).
Qed.

Lemma roles_for_user_in uid st r :
  In r (roles_for_user uid st)
  <-> exists ur,
        In ur (user_roles st) /\ ur_user_id ur = uid
        /\ In r (roles (store_db st)) /\ role_id r = ur_role_id ur.
Proof.
  unfold roles_for_user. rewrite in_map_iff. split.
  - intros ([ur r'] & Hr & Hin). simpl in Hr. subst r'.
    exists ur. apply assignments_of_in. exact Hin.
  - intros (ur & H). exists (ur, r). split; [reflexivity|].
    apply assignments_of_in. exact H.
Qed.

Lemma assignment_at_spec uid rid ur :
  assignment_at uid rid ur = true <-> ur_user_id ur = uid /\ ur_role_id ur = rid.
Proof. unfold assignment_at. rewrite andb_true_iff, !Z.eqb_eq. tauto. Qed.


(** X24: [remove_role_from_user] takes exactly that role out of the roles
    of that user, and [delete_role] takes the role out of the directory
    and out of the roles of every user; all other roles of all users stay. *)
Theorem remove_and_delete_role uid rid st :
  (forall u r,
     In r (roles_for_user u (fst (remove_role_from_user uid rid st)))
     <-> In r (roles_for_user u st) /\ ~ (u = uid /\ role_id r = rid))
  /\ role_by_id rid (store_db (fst (delete_role rid st))) = None
  /\ (forall rid', rid' <> rid ->
        role_by_id rid' (store_db (fst (delete_role rid st)))
        = role_by_id rid' (store_db st))
  /\ (forall u r,
        In r (roles_for_user u (fst (delete_role rid st)))
        <-> In r (roles_for_user u st) /\ role_id r <> rid).
Proof.
  split; [|split; [|split]].
  - intros u r. rewrite !roles_for_user_in. simpl. split.
    + intros (ur & Hur & Hu & Hr & Hid).
      apply filter_In in Hur. destruct Hur as [Hur Hk].
      split; [exists ur; auto|].
      intros [-> Hrid]. apply negb_true_iff in Hk.
      assert (assignment_at uid rid ur = true)
        by (apply assignment_at_spec; split; congruence).
      congruence.
    + intros [(ur & Hur & Hu & Hr & Hid) Hne]. exists ur.
      split; [|auto]. apply filter_In. split; [exact Hur|].
      apply negb_true_iff.
      destruct (assignment_at uid rid ur) eqn:K; [|reflexivity].
      apply assignment_at_spec in K. exfalso. apply Hne.
      destruct K. split; congruence.
  - unfold role_by_id. simpl. apply fetchone_delete.
  - intros rid' Hne. unfold role_by_id. simpl.
    apply fetchone_delete_other. intros r Hr.
    unfold role_has_id in *. apply Z.eqb_eq in Hr. apply Z.eqb_neq. congruence.
  - intros u r. rewrite !roles_for_user_in. simpl. split.
    + intros (ur & Hur & Hu & Hr & Hid).
      apply filter_In in Hr. destruct Hr as [Hr Hk].
      unfold role_has_id in Hk. apply negb_true_iff, Z.eqb_neq in Hk.
      split; [|exact Hk]. exists ur. split; [|auto].
      destruct (role_exists (store_db st) rid); [|exact Hur].
      apply filter_In in Hur. tauto.
    + intros [(ur & Hur & Hu & Hr & Hid) Hne]. exists ur.
      split; [|split; [exact Hu|split; [|exact Hid]]].
      * destruct (role_exists (store_db st) rid); [|exact Hur].
        apply filter_In. split; [exact Hur|].
        apply negb_true_iff, Z.eqb_neq. congruence.
      * apply filter_In. split; [exact Hr|].
        unfold role_has_id. apply negb_true_iff, Z.eqb_neq. exact Hne.
Qed.

Lemma hd_error_map (A B : Type) (f : A -> B) l :
  hd_error (map f l) = option_map f (hd_error l).
Proof. destruct l; reflexivity. Qed.

(** X25: the primary role is the first of [roles_for_user], and it is a
    role of the user whose assignment is not later than any other
    assignment of the user to a stored role; a user has no primary role
    exactly when [roles_for_user] is empty. *)
Theorem primary_role_is_earliest uid st :
  primary_role_for_user uid st = hd_error (roles_for_user uid st)
  /\ (primary_role_for_user uid st = None <-> roles_for_user uid st = [])
  /\ (forall r,
        primary_role_for_user uid st = Some r ->
        exists ur,
          In ur (user_roles st) /\ ur_user_id ur = uid
          /\ ur_role_id ur = role_id r /\ In r (roles (store_db st))
          /\ forall ur' r',
               In ur' (user_roles st) -> ur_user_id ur' = uid ->
               In r' (roles (store_db st)) -> role_id r' = ur_role_id ur' ->
               ur_assigned_ts ur <= ur_assigned_ts ur').
Proof.
  assert (Hhd : primary_role_for_user uid st = hd_error (roles_for_user uid st)).
  { unfold primary_role_for_user, sql_limit. simpl.
    destruct (roles_for_user uid st); reflexivity. }
  split; [exact Hhd|]. rewrite Hhd. split.
  - destruct (roles_for_user uid st); simpl; split; congruence.
  - intros r Hr. unfold roles_for_user in Hr. rewrite hd_error_map in Hr.
    destruct (hd_error (assignments_of uid st)) as [[ur r0]|] eqn:E;
      [|discriminate].
    simpl in Hr. injection Hr as ->.
    unfold assignments_of in E.
    destruct (order_by_head _ _
                (ordering_Z _ (fun x : user_role * role => ur_assigned_ts (fst x)))
                _ _ E) as [Hin Hmin].
    assert (Hin' : In (ur, r) (assignments_of uid st)).
    { unfold assignments_of.
      exact (Permutation_in _ (order_by_perm _ _ _) Hin). }
    apply assignments_of_in in Hin'. destruct Hin' as (H1 & H2 & H3 & H4).
    exists ur. repeat split; auto.
    intros ur' r' G1 G2 G3 G4.
    assert (Hin2 : In (ur', r') (assignments_of uid st))
      by (apply assignments_of_in; auto).
    unfold assignments_of in Hin2.
    apply (Permutation_in _ (Permutation_sym (order_by_perm _ _ _))) in Hin2.
    specialize (Hmin _ Hin2). unfold not_after in Hmin. simpl in Hmin.
    apply Z.compare_le_iff. exact Hmin.
Qed.

(** * Further properties of the listings *)

Lemma ascii_compare_refl c : Ascii.compare c c = Eq.
Proof. unfold Ascii.compare. apply N.compare_refl. Qed.

Lemma string_compare_lt_trans x :
  forall y z,
    String.compare x y = Lt -> String.compare y z = Lt ->
    String.compare x z = Lt.
Proof.
  induction x as [|c1 x IH]; intros [|c2 y] [|c3 z]; simpl;
    try discriminate; try reflexivity.
  destruct (Ascii.compare c1 c2) eqn:E1;
    destruct (Ascii.compare c2 c3) eqn:E2; try discriminate.
  - apply Ascii.compare_eq_iff in E1. apply Ascii.compare_eq_iff in E2.
    subst. rewrite ascii_compare_refl. apply IH.
  - apply Ascii.compare_eq_iff in E1. subst. rewrite E2. reflexivity.
  - apply Ascii.compare_eq_iff in E2. subst. rewrite E1. reflexivity.
  - unfold Ascii.compare in *. rewrite N.compare_lt_iff in *.
    assert (H : (N_of_ascii c1 < N_of_ascii c3)%N) by lia.
    apply N.compare_lt_iff in H. rewrite H. reflexivity.
Qed.

Lemma ordering_string (A : Type) (f : A -> string) :
  ordering (fun x y => String.compare (f x) (f y)).
Proof.
  constructor.
  - intros x y. apply String.compare_antisym.
  - intros x y z H. apply String.compare_eq_iff in H. rewrite H. reflexivity.
  - intros x y z. apply string_compare_lt_trans.
Qed.

Lemma list_shows_order_ordering sort : ordering (list_shows_order sort).
Proof.
  assert (Hyear : ordering by_year) by apply ordering_Z.
  assert (Hct : ordering by_corps_title).
  { unfold by_corps_title.
    apply ordering_and_then;
      [apply (ordering_string _ (fun x => sql_lower (show_corps (st_show x))))
      |apply (ordering_string _ (fun x => sql_lower (show_title (st_show x))))]. }
  assert (Htail : ordering (fun x y =>
            and_then (desc (st_cnt x ?= st_cnt y))
              (and_then (desc (by_year x y)) (by_corps_title x y)))).
  { apply ordering_and_then; [apply ordering_desc, ordering_Z|].
    apply ordering_and_then; [apply ordering_desc; exact Hyear | exact Hct]. }
  unfold list_shows_order.
  destruct (String.eqb sort "corps").
  { apply ordering_and_then;
      [apply (ordering_string _ (fun x => sql_lower (show_corps (st_show x))))|].
    apply ordering_and_then; [apply ordering_desc; exact Hyear|].
    apply (ordering_string _ (fun x => sql_lower (show_title (st_show x)))). }
  destruct (String.eqb sort "top").
  { apply ordering_and_then; [apply ordering_Z|].
    apply ordering_and_then;
      [apply ordering_desc, (ordering_Q _ st_avg_rating) | exact Htail]. }
  destruct (String.eqb sort "bottom").
  { apply ordering_and_then; [apply ordering_Z|].
    apply ordering_and_then; [apply (ordering_Q _ st_avg_rating) | exact Htail]. }
  destruct (String.eqb sort "year_asc").
  { apply ordering_and_then; [exact Hyear | exact Hct]. }
  apply ordering_and_then; [apply ordering_desc; exact Hyear | exact Hct].
Qed.

Lemma and_then_first c1 c2 : and_then c1 c2 <> Gt -> c1 <> Gt.
Proof. unfold and_then. destruct c1; congruence. Qed.

Lemma and_then_second c1 c2 : and_then c1 c2 <> Gt -> c1 = Eq -> c2 <> Gt.
Proof. unfold and_then. intros H ->. exact H. Qed.

(** X26: the rows of [list_shows] are the selected shows in the order of
    the chosen sort.  Every row satisfies the year filter and the
    case-insensitive corps filter.  With sort top or bottom an unrated
    show is never listed before a rated one, and the rated shows come by
    average rating (falling for top, rising for bottom); with sort
    year_asc the years rise; with any sort other than corps, top, bottom
    and year_asc the years fall. *)
Theorem list_shows_sorted sort year_filter corps_filter d :
  let rows := list_shows sort year_filter corps_filter d in
  StronglySorted (not_after (list_shows_order sort)) rows
  /\ (forall x, In x rows ->
        exists s,
          In s (shows d) /\ x = stats_of d s
          /\ (forall y, year_filter = Some y -> show_year s = y)
          /\ (forall c, corps_filter = Some c -> c <> "" ->
                sql_lower (show_corps s) = sql_lower (strip c)))
  /\ (sort = "top" ->
      StronglySorted
        (fun x y =>
           (st_cnt x = 0 -> st_cnt y = 0)
           /\ (st_cnt x <> 0 -> st_cnt y <> 0 ->
               (st_avg_rating y <= st_avg_rating x)%Q)) rows)
  /\ (sort = "bottom" ->
      StronglySorted
        (fun x y =>
           (st_cnt x = 0 -> st_cnt y = 0)
           /\ (st_cnt x <> 0 -> st_cnt y <> 0 ->
               (st_avg_rating x <= st_avg_rating y)%Q)) rows)
  /\ (sort = "year_asc" ->
      StronglySorted
        (fun x y => show_year (st_show x) <= show_year (st_show y)) rows)
  /\ (sort <> "corps" -> sort <> "top" -> sort <> "bottom" ->
      sort <> "year_asc" ->
      StronglySorted
        (fun x y => show_year (st_show y) <= show_year (st_show x)) rows).
Proof.
  intros rows.
  assert (Hs : StronglySorted (not_after (list_shows_order sort)) rows)
    by (apply order_by_sorted, list_shows_order_ordering).
  assert (Hunrated : forall x y : show_stats,
            (unrated_last x ?= unrated_last y) <> Gt ->
            (st_cnt x = 0 -> st_cnt y = 0)
            /\ (st_cnt x <> 0 -> st_cnt y <> 0 ->
                (unrated_last x ?= unrated_last y) = Eq)).
  { intros x y. unfold unrated_last.
    destruct (Z.eqb_spec (st_cnt x) 0); destruct (Z.eqb_spec (st_cnt y) 0);
      simpl; intros H; split; try congruence; try lia; auto. }
  split; [exact Hs|]. split; [|split; [|split; [|split]]].
  - intros x Hx. subst rows. unfold list_shows in Hx.
    apply (Permutation_in _ (Permutation_sym (order_by_perm _ _ _))) in Hx.
    apply in_map_iff in Hx. destruct Hx as (s & <- & Hin).
    apply filter_In in Hin. destruct Hin as [Hin Hw].
    unfold list_shows_where in Hw. apply andb_true_iff in Hw.
    destruct Hw as [Hy Hc]. exists s.
    split; [exact Hin|]. split; [reflexivity|]. split.
    + intros y ->. apply Z.eqb_eq. exact Hy.
    + intros c -> Hne. rewrite (not_empty_spec _ Hne) in Hc.
      apply String.eqb_eq. exact Hc.
  - intros ->.
    apply strongly_sorted_impl with (R := not_after (list_shows_order "top"));
      [|exact Hs].
    intros x y H. unfold not_after, list_shows_order in H. simpl in H.
    destruct (Hunrated x y (and_then_first _ _ H)) as [H1 H2].
    split; [exact H1|]. intros Hx Hy.
    apply (and_then_second _ _ H) in H2; [|exact Hx|exact Hy].
    apply and_then_first in H2. unfold desc in H2.
    apply Qge_alt. intros E. rewrite E in H2. apply H2. reflexivity.
  - intros ->.
    apply strongly_sorted_impl with (R := not_after (list_shows_order "bottom"));
      [|exact Hs].
    intros x y H. unfold not_after, list_shows_order in H. simpl in H.
    destruct (Hunrated x y (and_then_first _ _ H)) as [H1 H2].
    split; [exact H1|]. intros Hx Hy.
    apply (and_then_second _ _ H) in H2; [|exact Hx|exact Hy].
    apply and_then_first in H2. apply Qle_alt. exact H2.
  - intros ->.
    apply strongly_sorted_impl with (R := not_after (list_shows_order "year_asc"));
      [|exact Hs].
    intros x y H. unfold not_after, list_shows_order in H. simpl in H.
    apply and_then_first in H. unfold by_year in H.
    apply Z.compare_le_iff. exact H.
  - intros N1 N2 N3 N4.
    apply strongly_sorted_impl with (R := not_after (list_shows_order sort));
      [|exact Hs].
    intros x y H. unfold not_after, list_shows_order in H.
    apply String.eqb_neq in N1, N2, N3, N4. rewrite N1, N2, N3, N4 in H.
    apply and_then_first in H. unfold desc, by_year in H.
    destruct (Z.compare_spec (show_year (st_show x)) (show_year (st_show y)));
      simpl in H; [lia | congruence | lia].
Qed.

Lemma list_shows_sorted_witness :
  StronglySorted
    (fun x y =>
       (st_cnt x = 0 -> st_cnt y = 0)
       /\ (st_cnt x <> 0 -> st_cnt y <> 0 ->
           (st_avg_rating y <= st_avg_rating x)%Q))
    (list_shows "top" None None ranking_db).
Proof.
  exact (proj1 (proj2 (proj2 (list_shows_sorted "top" None None ranking_db)))
           eq_refl).
Defined.

Section LimitFacts.
Variable A : Type.

Lemma sql_limit_in n (l : list A) x : In x (sql_limit n l) -> In x l.
Proof.
  unfold sql_limit. destruct (n <? 0); [auto | apply firstn_in].
Qed.

Lemma sql_limit_sorted (R : A -> A -> Prop) n l :
  StronglySorted R l -> StronglySorted R (sql_limit n l).
Proof.
  unfold sql_limit. destruct (n <? 0); [auto | apply strongly_sorted_firstn].
Qed.

Lemma sql_limit_length n (l : list A) :
  List.length (sql_limit n l)
  = if n <? 0 then List.length l else Nat.min (Z.to_nat n) (List.length l).
Proof.
  unfold sql_limit. destruct (n <? 0); [reflexivity | apply length_firstn].
Qed.

Lemma hd_error_limit1 (l : list A) : hd_error (sql_limit 1 l) = hd_error l.
Proof. destruct l; reflexivity. Qed.
End LimitFacts.

(** Rows ordered by a timestamp, latest first. *)
Lemma newest_first (A : Type) (ts : A -> Z) (l : list A) :
  StronglySorted (fun x y => ts y <= ts x)
    (order_by (fun x y => desc (ts x ?= ts y)) l).
Proof.
  apply strongly_sorted_impl
    with (R := not_after (fun x y => desc (ts x ?= ts y))).
  - intros x y. unfold not_after, desc. intros Hc.
    destruct (Z.compare_spec (ts x) (ts y)) as [E|E|E]; simpl in Hc;
      [lia | congruence | lia].
  - apply order_by_sorted. apply ordering_desc, ordering_Z.
Qed.

Lemma viewer_vote_state d sid ruid vid :
  viewer_vote d sid ruid (Some vid) = vote_state sid ruid vid d.
Proof.
  unfold viewer_vote, vote_state. rewrite fetchone_head_select.
  change (fun v => (vote_show_id v =? sid) && (vote_review_user_id v =? ruid)
                   && (vote_voter_user_id v =? vid))
    with (vote_at sid ruid vid).
  destruct (sql_select (vote_at sid ruid vid) (review_votes d)); reflexivity.
Qed.

Lemma first_role_name uid st :
  first_role_column (fun rl => Some (role_name rl)) uid st
  = option_map role_name (primary_role_for_user uid st).
Proof.
  unfold first_role_column, primary_role_for_user, roles_for_user.
  rewrite !hd_error_limit1, hd_error_map.
  destruct (hd_error (assignments_of uid st)) as [[ur rl]|]; reflexivity.
Qed.

Lemma first_role_color uid st :
  first_role_column role_color uid st
  = match primary_role_for_user uid st with
    | Some rl => role_color rl
    | None => None
    end.
Proof.
  unfold first_role_column, primary_role_for_user, roles_for_user.
  rewrite !hd_error_limit1, hd_error_map.
  destruct (hd_error (assignments_of uid st)) as [[ur rl]|]; reflexivity.
Qed.

(** Under the uniqueness of (show, user), the left join with [ratings]
    gives one row, with the rating of the pair or NULL. *)
Lemma left_join_rating d sid uid r :
  ratings_pk d ->
  In r (left_join (rating_at sid uid) (ratings d)) ->
  option_map rating_half r = user_rating_for_show sid uid d.
Proof.
  intros Hpk. specialize (Hpk sid uid). unfold ratings_for in Hpk.
  unfold left_join, user_rating_for_show. rewrite fetchone_head_select.
  destruct (sql_select (rating_at sid uid) (ratings d)) as [|a [|b l]];
    simpl in *; [| |lia].
  - intros [<-|[]]. reflexivity.
  - intros [<-|[]]. reflexivity.
Qed.

(** What a row of [list_reviews_for_show] holds. *)
Lemma list_reviews_row sid viewer limit st x :
  In x (list_reviews_for_show sid viewer limit st) ->
  exists rv,
    In rv (reviews (store_db st)) /\ review_show_id rv = sid
    /\ re_user_id x = review_user_id rv
    /\ re_review_text x = review_text rv /\ re_ts x = review_ts rv
    /\ re_vote_score x = vote_score (store_db st) sid (re_user_id x)
    /\ re_my_vote x = viewer_vote (store_db st) sid (re_user_id x) viewer
    /\ re_role_name x
       = first_role_column (fun rl => Some (role_name rl)) (re_user_id x) st
    /\ re_role_color x = first_role_column role_color (re_user_id x) st
    /\ exists r,
         In r (left_join (rating_at sid (re_user_id x))
                 (ratings (store_db st)))
         /\ re_rating_half x = option_map rating_half r.
Proof.
  unfold list_reviews_for_show. intros H. apply sql_limit_in in H.
  apply (Permutation_in _ (Permutation_sym (order_by_perm _ _ _))) in H.
  apply in_flat_map in H. destruct H as (rv & Hrv & H).
  apply filter_In in Hrv. destruct Hrv as [Hrv Hsid]. apply Z.eqb_eq in Hsid.
  apply in_flat_map in H. destruct H as (u & Hu & H).
  apply filter_In in Hu. destruct Hu as [Hu Huid]. apply Z.eqb_eq in Huid.
  apply in_map_iff in H. destruct H as (r & <- & Hr).
  exists rv. simpl. rewrite Huid, Hsid in *.
  repeat split; auto. exists r. auto.
Qed.

(** X27: the rows of [list_reviews_for_show] are reviews of the show,
    latest first, at most [limit] of them when the limit is not negative.
    A row carries the score [vote_score] of its review; its [my_vote] is
    NULL for an anonymous viewer and the stored vote of the viewer on
    that review otherwise; its role name and colour are those of the
    primary role of the reviewer; and, when (show, user) is unique in
    [ratings], its rating is the rating of the reviewer for the show. *)
Theorem list_reviews_for_show_entries sid viewer limit st :
  let d := store_db st in
  let rows := list_reviews_for_show sid viewer limit st in
  StronglySorted (fun x y => re_ts y <= re_ts x) rows
  /\ (0 <= limit -> (List.length rows <= Z.to_nat limit)%nat)
  /\ forall x, In x rows ->
       (exists rv,
          In rv (reviews d) /\ review_show_id rv = sid
          /\ re_user_id x = review_user_id rv
          /\ re_review_text x = review_text rv /\ re_ts x = review_ts rv)
       /\ re_vote_score x = vote_score d sid (re_user_id x)
       /\ re_my_vote x
          = match viewer with
            | None => None
            | Some vid => vote_state sid (re_user_id x) vid d
            end
       /\ re_role_name x
          = option_map role_name (primary_role_for_user (re_user_id x) st)
       /\ re_role_color x
          = match primary_role_for_user (re_user_id x) st with
            | Some rl => role_color rl
            | None => None
            end
       /\ (ratings_pk d ->
           re_rating_half x = user_rating_for_show sid (re_user_id x) d).
Proof.
  intros d rows. split; [|split].
  - subst rows. unfold list_reviews_for_show.
    apply sql_limit_sorted, newest_first.
  - intros Hl. subst rows. unfold list_reviews_for_show.
    rewrite sql_limit_length.
    destruct (Z.ltb_spec limit 0); [lia | apply Nat.le_min_l].
  - intros x Hx.
    destruct (list_reviews_row sid viewer limit st x Hx)
      as (rv & H1 & H2 & H3 & H4 & H5 & H6 & H7 & H8 & H9 & r & Hr & H10).
    split; [exists rv; auto|]. split; [exact H6|]. split.
    { rewrite H7. destruct viewer; [apply viewer_vote_state | reflexivity]. }
    split; [rewrite H8; apply first_role_name|].
    split; [rewrite H9; apply first_role_color|].
    intros Hpk. rewrite H10. exact (left_join_rating d sid _ r Hpk Hr).
Qed.

Lemma list_reviews_for_show_entries_witness :
  (List.length (list_reviews_for_show 1 (Some 2%Z) 1 badge_store) <= 1)%nat.
Proof.
  assert (Hl : 0 <= 1) by lia.
  exact (proj1 (proj2 (list_reviews_for_show_entries 1 (Some 2) 1 badge_store))
           Hl).
Defined.

(** A vote does not move the stored vote of any other key. *)
Lemma set_review_vote_state_other now sid ruid vuid vote d s r u :
  (s, r, u) <> (sid, ruid, vuid) ->
  vote_state s r u (run (set_review_vote now sid ruid vuid vote) d)
  = vote_state s r u d.
Proof.
  intros Hne.
  assert (Hoff : forall v, vote_at sid ruid vuid v = true ->
            vote_at s r u v = false).
  { intros v Hv.
    exact (vote_at_other s r u sid ruid vuid v (fun E => Hne (eq_sym E)) Hv). }
  unfold vote_state, run, set_review_vote, insert_review_vote.
  destruct (fetchone (vote_at sid ruid vuid) (review_votes d)) as [cur|] eqn:E.
  - destruct (vote_value cur =? normalize_vote vote); simpl.
    + rewrite fetchone_delete_other; [reflexivity|].
      intros v Hv. destruct (vote_at sid ruid vuid v) eqn:G; [|reflexivity].
      rewrite (Hoff v G) in Hv. discriminate.
    + rewrite fetchone_update_other; [reflexivity|].
      intros v Hv. split; [exact (Hoff v Hv)|].
      apply Hoff. apply vote_at_spec in Hv. apply vote_at_spec. exact Hv.
  - simpl. destruct (existsb _ _); [reflexivity|].
    destruct (_ && _); [|reflexivity]. simpl.
    rewrite fetchone_app_other; [reflexivity|].
    apply Hoff. apply vote_at_spec. simpl. auto.
Qed.

(** X28: a vote is seen in the listing.  After [set_review_vote] by a
    voter on a review whose show, author and voter are stored, the row of
    that review in [list_reviews_for_show] shows to the voter the toggled
    vote (the new vote, or NULL when the same vote was repeated), and
    shows to every other viewer what it showed before. *)
Theorem vote_then_list_reviews now sid ruid vuid vote viewer limit st x :
  refs_exist (store_db st) sid ruid vuid ->
  let st' :=
    mk_store (run (set_review_vote now sid ruid vuid vote) (store_db st))
      (user_roles st) in
  In x (list_reviews_for_show sid (Some viewer) limit st') ->
  re_user_id x = ruid ->
  re_my_vote x
  = if viewer =? vuid
    then toggle (vote_state sid ruid vuid (store_db st)) (normalize_vote vote)
    else vote_state sid ruid viewer (store_db st).
Proof.
  intros Hrefs st' Hx Hu.
  destruct (list_reviews_row sid (Some viewer) limit st' x Hx)
    as (rv & _ & _ & _ & _ & _ & _ & H7 & _).
  rewrite H7, Hu, viewer_vote_state. subst st'. simpl.
  destruct (Z.eqb_spec viewer vuid) as [->|Hne].
  - apply set_review_vote_state. exact Hrefs.
  - apply set_review_vote_state_other. congruence.
Qed.

Lemma vote_then_list_reviews_witness :
  re_my_vote
    (mk_review_entry "Great show" 1004 1 "alice" None (Some 9)
       (Some "Veterans!!") None 0 None)
  = toggle (vote_state 1 1 2 (store_db badge_store)) (normalize_vote 1).
Proof.
  assert (Hrefs : refs_exist (store_db badge_store) 1 1 2)
    by (repeat split; reflexivity).
  apply (vote_then_list_reviews 2000 1 1 2 1 2 30 badge_store _ Hrefs).
  - right. left. reflexivity.
  - reflexivity.
Defined.

(** X29: the profile listings, for a user id and a limit that are 64-bit
    integers.  [recent_ratings_for_user] and [recent_reviews_for_user]
    give rows of that user only, latest first: the first [limit] rows of
    the whole listing when the limit is not negative, and the whole
    listing when it is negative.  Every row carries the id, title, corps,
    year and poster of the stored show it belongs to, with the rating and
    its time, or the text of the review and its time; a review row carries
    the rating of the user for that show when (show, user) is unique in
    [ratings].  The whole listing has a row for every rating, and for
    every review, of the user on a stored show. *)
Theorem recent_listings uid limit d :
  int64 uid = true -> int64 limit = true ->
  let rated := recent_ratings_for_user uid limit d in
  let reviewed := recent_reviews_for_user uid limit d in
  let all_rated := recent_ratings_for_user uid (-1) d in
  let all_reviewed := recent_reviews_for_user uid (-1) d in
  StronglySorted (fun x y => rr_ts y <= rr_ts x) rated
  /\ StronglySorted (fun x y => rw_ts y <= rw_ts x) reviewed
  /\ (0 <= limit ->
      rated = firstn (Z.to_nat limit) all_rated
      /\ reviewed = firstn (Z.to_nat limit) all_reviewed
      /\ (List.length rated <= Z.to_nat limit)%nat
      /\ (List.length reviewed <= Z.to_nat limit)%nat)
  /\ (limit < 0 -> rated = all_rated /\ reviewed = all_reviewed)
  /\ (forall x, In x rated ->
        exists r s,
          In r (ratings d) /\ rating_user_id r = uid
          /\ In s (shows d) /\ show_id s = rating_show_id r
          /\ rr_show_id x = show_id s /\ rr_title x = show_title s
          /\ rr_corps x = show_corps s /\ rr_year x = show_year s
          /\ rr_poster_url x = show_poster_url s
          /\ rr_rating_half x = rating_half r /\ rr_ts x = rating_ts r)
  /\ (forall r s,
        In r (ratings d) -> rating_user_id r = uid ->
        In s (shows d) -> show_id s = rating_show_id r ->
        In (mk_recent_rating (show_id s) (show_title s) (show_corps s)
              (show_year s) (show_poster_url s) (rating_half r) (rating_ts r))
          all_rated)
  /\ (forall x, In x reviewed ->
        exists rv s,
          In rv (reviews d) /\ review_user_id rv = uid
          /\ In s (shows d) /\ show_id s = review_show_id rv
          /\ rw_show_id x = show_id s /\ rw_title x = show_title s
          /\ rw_corps x = show_corps s /\ rw_year x = show_year s
          /\ rw_poster_url x = show_poster_url s
          /\ rw_review_text x = review_text rv /\ rw_ts x = review_ts rv
          /\ (ratings_pk d ->
              rw_rating_half x = user_rating_for_show (rw_show_id x) uid d))
  /\ (forall rv s,
        ratings_pk d ->
        In rv (reviews d) -> review_user_id rv = uid ->
        In s (shows d) -> show_id s = review_show_id rv ->
        In (mk_recent_review (show_id s) (show_title s) (show_corps s)
              (show_year s) (show_poster_url s) (review_text rv)
              (review_ts rv) (user_rating_for_show (show_id s) uid d))
          all_reviewed).
Proof.
  intros _ _ rated reviewed all_rated all_reviewed.
  subst rated reviewed all_rated all_reviewed.
  unfold recent_ratings_for_user, recent_reviews_for_user.
  split; [apply sql_limit_sorted, newest_first|].
  split; [apply sql_limit_sorted, newest_first|].
  split.
  { intros Hl. unfold sql_limit. change (-1 <? 0) with true. cbv iota.
    destruct (Z.ltb_spec limit 0); [lia|].
    repeat split; try reflexivity; apply firstn_le_length. }
  split.
  { intros Hl. unfold sql_limit. change (-1 <? 0) with true. cbv iota.
    destruct (Z.ltb_spec limit 0); [|lia]. split; reflexivity. }
  split; [|split; [|split]].
  - intros x H. apply sql_limit_in in H.
    apply (Permutation_in _ (Permutation_sym (order_by_perm _ _ _))) in H.
    apply in_flat_map in H. destruct H as (r & Hr & H).
    apply filter_In in Hr. destruct Hr as [Hr Hu]. apply Z.eqb_eq in Hu.
    apply in_map_iff in H. destruct H as (s & <- & Hs).
    apply filter_In in Hs. destruct Hs as [Hs Hid].
    unfold has_id in Hid. apply Z.eqb_eq in Hid.
    exists r, s. simpl. auto 13.
  - intros r s Hr Hu Hs Hid.
    unfold sql_limit. change (-1 <? 0) with true. cbv iota.
    apply (Permutation_in _ (order_by_perm _ _ _)).
    apply in_flat_map. exists r. split.
    + apply filter_In. split; [exact Hr | apply Z.eqb_eq, Hu].
    + apply in_map_iff. exists s. split; [reflexivity|].
      apply filter_In. split; [exact Hs|].
      unfold has_id. apply Z.eqb_eq, Hid.
  - intros x H. apply sql_limit_in in H.
    apply (Permutation_in _ (Permutation_sym (order_by_perm _ _ _))) in H.
    apply in_flat_map in H. destruct H as (rv & Hrv & H).
    apply filter_In in Hrv. destruct Hrv as [Hrv Hu]. apply Z.eqb_eq in Hu.
    apply in_flat_map in H. destruct H as (s & Hs & H).
    apply filter_In in Hs. destruct Hs as [Hs Hid].
    unfold has_id in Hid. apply Z.eqb_eq in Hid.
    apply in_map_iff in H. destruct H as (r & <- & Hr).
    exists rv, s. simpl. repeat split; auto.
    intros Hpk. rewrite Hid, <- Hu.
    exact (left_join_rating d _ _ r Hpk Hr).
  - intros rv s Hpk Hrv Hu Hs Hid.
    unfold sql_limit. change (-1 <? 0) with true. cbv iota.
    apply (Permutation_in _ (order_by_perm _ _ _)).
    apply in_flat_map. exists rv. split.
    { apply filter_In. split; [exact Hrv | apply Z.eqb_eq, Hu]. }
    apply in_flat_map. exists s. split.
    { apply filter_In. split; [exact Hs|]. unfold has_id. apply Z.eqb_eq, Hid. }
    destruct (left_join_inhabited _
                (rating_at (review_show_id rv) (review_user_id rv)) (ratings d))
      as [r Hr].
    apply in_map_iff. exists r. split; [|exact Hr].
    rewrite (left_join_rating d _ _ r Hpk Hr), Hid, Hu. reflexivity.
Qed.

Lemma recent_listings_witness :
  recent_ratings_for_user 1 1 ranking_db
  = firstn 1 (recent_ratings_for_user 1 (-1) ranking_db)
  /\ In (mk_recent_rating 1 "Metamorph" "Blue Devils" 2017 None 9 1001)
       (recent_ratings_for_user 1 (-1) ranking_db).
Proof.
  assert (Hl : 0 <= 1) by lia.
  pose proof (recent_listings 1 1 ranking_db eq_refl eq_refl) as H.
  split.
  - exact (proj1 (proj1 (proj2 (proj2 H)) Hl)).
  - apply (proj1 (proj2 (proj2 (proj2 (proj2 (proj2 H)))))
             (mk_rating 1 1 9 1001) metamorph).
    + left. reflexivity.
    + reflexivity.
    + left. reflexivity.
    + reflexivity.
Defined.
